(** * asrcpp-gigam3: streaming speech-recognition server

    A shallow embedding of the streaming core of the server
    (src/vad.cpp, src/handler.cpp, src/recognizer.cpp, src/audio.cpp and
    the WebSocket controller of src/server.cpp) together with the
    properties of its specification.

    Conventions.
    - [float] is IEEE-754 binary32 and [double] binary64; both are
      [spec_float] values computed with the parametric operations of
      [SpecFloat] (round to nearest, ties to even).
    - [size_t], [int] and [int64_t] values are [Z]. Counters and
      differences are reduced to their width where the code computes
      them; an index or offset into a container in memory stays within
      the container's size and is not reduced.
    - Vectors and deques are lists; [memcpy] into a pre-sized buffer is
      [memcpy_into].
    - The neural networks, the sinc kernel, the WAV container parser,
      the JSON parser and the monotonic clock are external to the
      repository: they are Section variables (total functions of their
      inputs), never axioms.
    - A C++ exception is the [Throw] outcome of an operation; the state
      reached when it was raised is kept, as it is in the program. *)

From Stdlib Require Import ZArith Lia SpecFloat Ascii String.
From stdpp Require Import base list strings.

Set Default Proof Using "Type".

(** ** Scalars *)

Module Scalar.

Local Open Scope Z_scope.

(** [static_cast<size_t>]: reduction modulo 2^64. *)
Definition wrap_size (z : Z) : Z := z mod 2 ^ 64.

(** [static_cast<int>]: two's-complement reduction to 32 bits. *)
Definition wrap_int (z : Z) : Z := (z + 2 ^ 31) mod 2 ^ 32 - 2 ^ 31.

(** Arithmetic on [int64_t]: two's-complement reduction to 64 bits (the
    result the target machines compute; overflow is undefined in C++). *)
Definition wrap_i64 (z : Z) : Z := (z + 2 ^ 63) mod 2 ^ 64 - 2 ^ 63.

(** [v.size()] *)
Definition size {A} (v : list A) : Z := Z.of_nat (length v).

(** [std::memcpy(dst + doff, src + soff, n * sizeof(T))] on vectors that
    are large enough (all call sites pre-size them). *)
Definition memcpy_into {A} (dst : list A) (doff : nat) (src : list A) (soff n : nat) : list A :=
  take doff dst ++ take n (drop soff src) ++ drop (doff + n) dst.

End Scalar.

(** ** Floating point *)

Module Float.

Local Open Scope Z_scope.

(** [float]: binary32. *)
Definition f32 := spec_float.
(** [double]: binary64. *)
Definition f64 := spec_float.

Definition f32_of_Z (z : Z) : f32 := binary_normalize 24 128 z 0 false.
Definition f32_mul : f32 -> f32 -> f32 := SFmul 24 128.
Definition f32_div : f32 -> f32 -> f32 := SFdiv 24 128.
Definition f32_add : f32 -> f32 -> f32 := SFadd 24 128.

Definition f64_of_Z (z : Z) : f64 := binary_normalize 53 1024 z 0 false.
Definition f64_mul : f64 -> f64 -> f64 := SFmul 53 1024.
Definition f64_div : f64 -> f64 -> f64 := SFdiv 53 1024.
Definition f64_add : f64 -> f64 -> f64 := SFadd 53 1024.
Definition f64_sqrt : f64 -> f64 := SFsqrt 53 1024.

(** The comparison operators of C++ on floating-point values: every one
    of them is false when an operand is NaN. *)
Definition flt (a b : spec_float) : bool := SFltb a b.
Definition fle (a b : spec_float) : bool := SFleb a b.
Definition fgt (a b : spec_float) : bool := SFltb b a.
Definition fge (a b : spec_float) : bool := SFleb b a.

Definition is_nan (x : spec_float) : bool :=
  match x with S754_nan => true | _ => false end.

(** [static_cast<double>(float)]: exact, every binary32 value is a
    binary64 value. *)
Definition f64_of_f32 (x : f32) : f64 :=
  match x with
  | S754_finite s m e => binary_normalize 53 1024 (cond_Zopp s (Zpos m)) e s
  | _ => x
  end.

(** [static_cast<float>(double)]: rounds to binary32. *)
Definition f32_of_f64 (x : f64) : f32 :=
  match x with
  | S754_finite s m e => binary_normalize 24 128 (cond_Zopp s (Zpos m)) e s
  | _ => x
  end.

(** The integer part of a finite value, rounding toward zero. *)
Definition trunc (x : spec_float) : Z :=
  match x with
  | S754_finite s m e =>
      cond_Zopp s (match e with
                   | Z0 => Zpos m
                   | Zpos p => Zpos m * 2 ^ Zpos p
                   | Zneg p => Zpos m / 2 ^ Zpos p
                   end)
  | _ => 0
  end.

(** [static_cast<int64_t>(x)]: truncation. For NaN, the infinities and
    values outside the range the conversion is undefined in C++; the
    model gives what the x86-64 conversion instruction returns there,
    the smallest [int64_t]. *)
Definition to_i64 (x : spec_float) : Z :=
  match x with
  | S754_zero _ => 0
  | S754_finite _ _ _ =>
      let t := trunc x in
      if (- 2 ^ 63 <=? t) && (t <? 2 ^ 63) then t else - 2 ^ 63
  | _ => - 2 ^ 63
  end.

(** [std::lround(x)] before its conversion to [long]: nearest integer,
    halfway cases away from zero. *)
Definition lround (x : f64) : Z :=
  match x with
  | S754_finite s m e =>
      cond_Zopp s (match e with
                   | Z0 => Zpos m
                   | Zpos p => Zpos m * 2 ^ Zpos p
                   | Zneg p => (2 * Zpos m + 2 ^ Zpos p) / (2 * 2 ^ Zpos p)
                   end)
  | _ => 0
  end.

(** The value of a decimal literal [n/d] with [n] and [d] below 2^24:
    a correctly rounded quotient of two exact values. *)
Definition f32_ratio (n d : Z) : f32 := f32_div (f32_of_Z n) (f32_of_Z d).

End Float.

(** ** Exceptions *)

(** The exception classes the modelled code raises. Message texts are
    not modelled. *)
Inductive exn : Type :=
  | InvalidArgument   (* std::invalid_argument *)
  | AudioError        (* asr::AudioError *)
  | RuntimeError.     (* any other std::exception *)

(** ** Voice activity detector (src/vad.cpp) *)

Module Vad.

Import Scalar Float.
Local Open Scope Z_scope.

Record VadConfig := {
  model_path : string;
  threshold : f32;
  min_silence_duration : f32;
  min_speech_duration : f32;
  max_speech_duration : f32;
  sample_rate : Z;
  window_size : Z;
  context_size : Z }.

Record SpeechSegment := { samples : list f32 }.

(** The mutable members of [VoiceActivityDetector]. *)
Record VoiceActivityDetector := {
  config_ : VadConfig;
  state_ : list f32;
  input_buf_ : list f32;
  context_ : list f32;
  sr_tensor_ : Z;
  in_speech_ : bool;
  silence_samples_ : Z;
  speech_start_samples_ : Z;
  speech_buf_ : list f32;
  segments_ : list SpeechSegment }.

Definition kStateSize : nat := 2 * 1 * 128.

Definition set_infer (v : VoiceActivityDetector) (st inp ctx : list f32) :=
  {| config_ := config_ v; state_ := st; input_buf_ := inp; context_ := ctx;
     sr_tensor_ := sr_tensor_ v; in_speech_ := in_speech_ v;
     silence_samples_ := silence_samples_ v;
     speech_start_samples_ := speech_start_samples_ v;
     speech_buf_ := speech_buf_ v; segments_ := segments_ v |}.

(** Assignment to the four members of the segmentation state machine. *)
Definition set_machine (v : VoiceActivityDetector)
    (sp : bool) (sil start : Z) (buf : list f32) :=
  {| config_ := config_ v; state_ := state_ v; input_buf_ := input_buf_ v;
     context_ := context_ v; sr_tensor_ := sr_tensor_ v; in_speech_ := sp;
     silence_samples_ := sil; speech_start_samples_ := start;
     speech_buf_ := buf; segments_ := segments_ v |}.

Definition set_segments (v : VoiceActivityDetector) (q : list SpeechSegment) :=
  {| config_ := config_ v; state_ := state_ v; input_buf_ := input_buf_ v;
     context_ := context_ v; sr_tensor_ := sr_tensor_ v;
     in_speech_ := in_speech_ v; silence_samples_ := silence_samples_ v;
     speech_start_samples_ := speech_start_samples_ v;
     speech_buf_ := speech_buf_ v; segments_ := q |}.

Section Detector.

(** The Silero network run by [session_.Run]: from the input tensor
    [context | window], the recurrent state and the sample rate to the
    speech probability and the next recurrent state. *)
Variable vad_model : list f32 -> list f32 -> Z -> f32 * list f32.

(** The constructor, after the network has been loaded. *)
Definition make (config : VadConfig) : exn + VoiceActivityDetector :=
  if window_size config <=? 0 then inl InvalidArgument
  else if (context_size config <? 0) || (window_size config <=? context_size config)
  then inl InvalidArgument
  else if sample_rate config <=? 0 then inl InvalidArgument
  else if fle (threshold config) (f32_of_Z 0) || fge (threshold config) (f32_of_Z 1)
  then inl InvalidArgument
  else inr {| config_ := config;
              state_ := replicate kStateSize (f32_of_Z 0);
              input_buf_ := replicate (Z.to_nat (wrap_size (context_size config)
                                                 + wrap_size (window_size config)))
                                      (f32_of_Z 0);
              context_ := replicate (Z.to_nat (wrap_size (context_size config))) (f32_of_Z 0);
              sr_tensor_ := sample_rate config;
              in_speech_ := false;
              silence_samples_ := 0;
              speech_start_samples_ := 0;
              speech_buf_ := [];
              segments_ := [] |}.

Definition infer (v : VoiceActivityDetector) (smp : list f32)
    : exn + (f32 * VoiceActivityDetector) :=
  let cfg := config_ v in
  if negb (wrap_int (size smp) =? window_size cfg) then inl InvalidArgument
  else
    let cs := Z.to_nat (wrap_size (context_size cfg)) in
    let ws := Z.to_nat (wrap_size (window_size cfg)) in
    (* Build input: [context | samples] *)
    let inp := memcpy_into (input_buf_ v) 0 (context_ v) 0 cs in
    let inp := memcpy_into inp (Z.to_nat (context_size cfg)) smp 0 ws in
    (* Run inference *)
    let '(prob, new_state) := vad_model inp (state_ v) (sr_tensor_ v) in
    (* Update state from output *)
    let st := memcpy_into (state_ v) 0 new_state 0 kStateSize in
    (* Update context with last context_size samples from input *)
    let ctx := memcpy_into (context_ v) 0 smp
                 (Z.to_nat (window_size cfg - context_size cfg)) cs in
    inr (prob, set_infer v st inp ctx).

(** [static_cast<float>(speech_buf_.size()) / static_cast<float>(sample_rate)] *)
Definition duration_of (cfg : VadConfig) (buf : list f32) : f32 :=
  f32_div (f32_of_Z (size buf)) (f32_of_Z (sample_rate cfg)).

Definition finalize_segment (v : VoiceActivityDetector) : VoiceActivityDetector :=
  match speech_buf_ v with
  | [] => set_machine v false 0 0 (speech_buf_ v)
  | _ :: _ =>
      (* Check minimum speech duration *)
      if flt (duration_of (config_ v) (speech_buf_ v)) (min_speech_duration (config_ v))
      then set_machine v false 0 0 []
      else
        (* move the flat buffer into a segment; the moved-from vector is empty *)
        let segment := {| samples := speech_buf_ v |} in
        set_machine (set_segments v (segments_ v ++ [segment])) false 0 0 []
  end.

Definition accept_waveform (v : VoiceActivityDetector) (smp : list f32)
    : exn + VoiceActivityDetector :=
  if negb (wrap_int (size smp) =? window_size (config_ v)) then inl InvalidArgument
  else
    match infer v smp with
    | inl e => inl e
    | inr (prob, v) =>
        let cfg := config_ v in
        let window_samples := window_size cfg in
        let min_silence_samples :=
          to_i64 (f32_mul (min_silence_duration cfg) (f32_of_Z (sample_rate cfg))) in
        let max_speech_samples :=
          to_i64 (f32_mul (max_speech_duration cfg) (f32_of_Z (sample_rate cfg))) in
        if fge prob (threshold cfg) then
          (* Speech detected *)
          let v := if in_speech_ v then v
                   else set_machine v true (silence_samples_ v) 0 [] in
          let v := set_machine v (in_speech_ v) 0
                     (wrap_i64 (speech_start_samples_ v + window_samples))
                     (speech_buf_ v ++ smp) in
          (* Force-split if max speech duration exceeded *)
          if max_speech_samples <=? speech_start_samples_ v
          then inr (finalize_segment v)
          else inr v
        else
          (* Silence detected *)
          if in_speech_ v then
            let v := set_machine v (in_speech_ v)
                       (wrap_i64 (silence_samples_ v + window_samples))
                       (wrap_i64 (speech_start_samples_ v + window_samples))
                       (speech_buf_ v ++ smp) in
            if min_silence_samples <=? silence_samples_ v
            then inr (finalize_segment v)
            else inr v
          else inr v   (* If not in speech, just ignore silence *)
    end.

Definition empty (v : VoiceActivityDetector) : bool :=
  match segments_ v with [] => true | _ => false end.

Definition front (v : VoiceActivityDetector) : option SpeechSegment := head (segments_ v).

Definition pop (v : VoiceActivityDetector) : VoiceActivityDetector :=
  set_segments v (tail (segments_ v)).

Definition is_speech (v : VoiceActivityDetector) : bool := in_speech_ v.

Definition flush (v : VoiceActivityDetector) : VoiceActivityDetector :=
  if in_speech_ v && negb (bool_decide (speech_buf_ v = [])) then finalize_segment v else v.

Definition reset (v : VoiceActivityDetector) : VoiceActivityDetector :=
  {| config_ := config_ v;
     state_ := replicate (length (state_ v)) (f32_of_Z 0);
     input_buf_ := input_buf_ v;
     context_ := replicate (Z.to_nat (wrap_size (context_size (config_ v)))) (f32_of_Z 0);
     sr_tensor_ := sr_tensor_ v;
     in_speech_ := false; silence_samples_ := 0; speech_start_samples_ := 0;
     speech_buf_ := []; segments_ := [] |}.

(** The probability the network returns for the window [smp] in the
    state [v], as [infer] computes it. *)
Definition probability (v : VoiceActivityDetector) (smp : list f32) : f32 :=
  match infer v smp with
  | inr (prob, _) => prob
  | inl _ => S754_nan
  end.

(** The speech-run counter after the window of this call was counted. *)
Definition run_counter (v : VoiceActivityDetector) : Z :=
  wrap_i64 ((if in_speech_ v then speech_start_samples_ v else 0) + window_size (config_ v)).

(** The speech buffer after the window of this call was appended. *)
Definition run_buffer (v : VoiceActivityDetector) (smp : list f32) : list f32 :=
  (if in_speech_ v then speech_buf_ v else []) ++ smp.

Definition max_speech_samples (cfg : VadConfig) : Z :=
  to_i64 (f32_mul (max_speech_duration cfg) (f32_of_Z (sample_rate cfg))).

(** *** Sequences of calls *)

Inductive vad_call : Type :=
  | AcceptWaveform (smp : list f32)
  | Flush.

(** A call that raises leaves the detector as it was: the size check of
    [accept_waveform] precedes every assignment. *)
Definition vad_step (c : vad_call) (v : VoiceActivityDetector) : VoiceActivityDetector :=
  match c with
  | AcceptWaveform smp =>
      match accept_waveform v smp with inr v' => v' | inl _ => v end
  | Flush => flush v
  end.

Definition run_calls (cs : list vad_call) (v : VoiceActivityDetector) : VoiceActivityDetector :=
  fold_left (fun v c => vad_step c v) cs v.

End Detector.

(** A segment is long enough for [cfg]: its duration, computed as the
    code computes it, is not below [min_speech_duration]; where the
    comparison is defined (no NaN) it is at least that. *)
Definition long_enough (cfg : VadConfig) (seg : SpeechSegment) : Prop :=
  flt (duration_of cfg (samples seg)) (min_speech_duration cfg) = false /\
  (is_nan (min_speech_duration cfg) = false ->
   is_nan (duration_of cfg (samples seg)) = false ->
   fge (duration_of cfg (samples seg)) (min_speech_duration cfg) = true).

End Vad.

(** ** Configuration (include/asr/config.h) *)

Module Conf.

Import Float.

Record Config := {
  host : string;
  port : Z;
  threads : Z;
  model_dir : string;
  vad_model : string;
  provider : string;
  num_threads : Z;
  sample_rate : Z;
  feature_dim : Z;
  vad_threshold : f32;
  vad_min_silence : f32;
  vad_min_speech : f32;
  vad_max_speech : f32;
  vad_window_size : Z;
  vad_context_size : Z;
  recognizer_pool_size : Z;
  max_concurrent_requests : Z;
  silence_threshold : f32;
  min_audio_sec : f32;
  max_audio_sec : f32;
  max_upload_bytes : Z;
  max_ws_message_bytes : Z }.

(** The [VadConfig] the server derives from its configuration
    ([Server::Server], src/server.cpp). *)
Definition vad_config_of (config : Config) : Vad.VadConfig :=
  {| Vad.model_path := vad_model config;
     Vad.threshold := vad_threshold config;
     Vad.min_silence_duration := vad_min_silence config;
     Vad.min_speech_duration := vad_min_speech config;
     Vad.max_speech_duration := vad_max_speech config;
     Vad.sample_rate := sample_rate config;
     Vad.window_size := vad_window_size config;
     Vad.context_size := vad_context_size config |}.

(** *** [Config::validate] (src/config.cpp) *)

Local Open Scope Z_scope.

(** The checks of [validate] that raise [ConfigError], in the order of
    the source; the value reported in the message, where there is one. *)
Inductive ConfigError : Type :=
  | SampleRateNotPositive (got : Z)
  | VadWindowSizeNotPositive (got : Z)
  | VadContextSizeOutOfRange (got : Z)
  | FeatureDimNotPositive (got : Z)
  | MaxUploadBytesZero
  | PortZero
  | MaxWsMessageBytesZero.

(** [std::clamp(v, lo, hi)] on integers and on [float]. *)
Definition clamp (v lo hi : Z) : Z :=
  if v <? lo then lo else if hi <? v then hi else v.

Definition fclamp (v lo hi : f32) : f32 :=
  if flt v lo then lo else if flt hi v then hi else v.

(** [validate]: the configuration after the call, or the error raised.
    Each member assigned by the function is a local of the same name
    (primed); members that are not assigned keep their values. *)
Definition validate (c : Config) : ConfigError + Config :=
  if sample_rate c <=? 0 then inl (SampleRateNotPositive (sample_rate c)) else
  let sample_rate' :=
    if (sample_rate c <? 8000) || (48000 <? sample_rate c)
    then clamp (sample_rate c) 8000 48000 else sample_rate c in
  if vad_window_size c <=? 0 then inl (VadWindowSizeNotPositive (vad_window_size c)) else
  let vad_window_size' :=
    if (vad_window_size c <? 64) || (4096 <? vad_window_size c)
    then clamp (vad_window_size c) 64 4096 else vad_window_size c in
  if (vad_context_size c <? 0) || (vad_window_size' <=? vad_context_size c)
  then inl (VadContextSizeOutOfRange (vad_context_size c)) else
  let num_threads' :=
    if (num_threads c <? 1) || (128 <? num_threads c)
    then clamp (num_threads c) 1 128 else num_threads c in
  let threads' :=
    if (threads c <? 1) || (256 <? threads c)
    then clamp (threads c) 1 256 else threads c in
  let vad_threshold' :=
    if fle (vad_threshold c) (f32_of_Z 0) || fge (vad_threshold c) (f32_of_Z 1)
    then fclamp (vad_threshold c) (f32_ratio 1 100) (f32_ratio 99 100)
    else vad_threshold c in
  let min_audio_sec' :=
    if flt (min_audio_sec c) (f32_of_Z 0) then f32_of_Z 0 else min_audio_sec c in
  let max_audio_sec' :=
    if fle (max_audio_sec c) min_audio_sec'
    then f32_add min_audio_sec' (f32_of_Z 30) else max_audio_sec c in
  if feature_dim c <=? 0 then inl (FeatureDimNotPositive (feature_dim c)) else
  if max_upload_bytes c =? 0 then inl MaxUploadBytesZero else
  if port c =? 0 then inl PortZero else
  if max_ws_message_bytes c =? 0 then inl MaxWsMessageBytesZero else
  (* Pool size: 0 = auto (= threads) *)
  let recognizer_pool_size' :=
    if recognizer_pool_size c =? 0 then Scalar.wrap_int threads' else recognizer_pool_size c in
  let recognizer_pool_size' :=
    if (recognizer_pool_size' <? 1) || (256 <? recognizer_pool_size')
    then clamp recognizer_pool_size' 1 256 else recognizer_pool_size' in
  (* Max concurrent requests: 0 = auto (= threads * 2) *)
  let max_concurrent_requests' :=
    if max_concurrent_requests c =? 0 then Scalar.wrap_size (threads' * 2)
    else max_concurrent_requests c in
  (* Cross-validation: VAD durations *)
  let vad_min_silence' :=
    if fle (vad_min_silence c) (f32_of_Z 0) then f32_ratio 1 100 else vad_min_silence c in
  let vad_min_speech' :=
    if fle (vad_min_speech c) (f32_of_Z 0) then f32_ratio 1 100 else vad_min_speech c in
  let vad_max_speech' :=
    if fle (vad_max_speech c) vad_min_speech'
    then f32_add vad_min_speech' (f32_of_Z 10) else vad_max_speech c in
  inr {| host := host c; port := port c; threads := threads';
         model_dir := model_dir c; vad_model := vad_model c; provider := provider c;
         num_threads := num_threads'; sample_rate := sample_rate';
         feature_dim := feature_dim c;
         vad_threshold := vad_threshold'; vad_min_silence := vad_min_silence';
         vad_min_speech := vad_min_speech'; vad_max_speech := vad_max_speech';
         vad_window_size := vad_window_size'; vad_context_size := vad_context_size c;
         recognizer_pool_size := recognizer_pool_size';
         max_concurrent_requests := max_concurrent_requests';
         silence_threshold := silence_threshold c;
         min_audio_sec := min_audio_sec'; max_audio_sec := max_audio_sec';
         max_upload_bytes := max_upload_bytes c;
         max_ws_message_bytes := max_ws_message_bytes c |}.

End Conf.

(** ** Metrics sink (include/asr/metrics.h) *)

(** The calls made on the [ASRMetrics] singleton, in the order they are
    made. *)
Module Metrics.

Import Float.

Inductive MetricEvent : Type :=
  | ObserveTtfr (sec : f64) (mode : string)
  | ObserveSegment (audio_sec decode_sec : f64)
  | ObserveRequest (total_sec audio_sec decode_sec : f64) (chunk_count bytes_count : Z)
                   (preprocess_sec io_sec : f64) (mode status : string)
  | ObserveError (error_type : string)
  | ConnectionOpened
  | ConnectionClosed (reason : string) (duration_sec : f64)
  | SessionStarted
  | SessionEnded (duration_sec : f64)
  | RecordResult (text : string)
  | RecordAudioLevel (rms : f64)
  | RecordSilence
  | SetSpeechRatio (ratio : f64).

Definition is_session_ended (e : MetricEvent) : bool :=
  match e with SessionEnded _ => true | _ => false end.

End Metrics.

(** ** Audio helpers (src/audio.cpp) *)

Module Audio.

Import Scalar Float.
Local Open Scope Z_scope.

Definition compute_rms (samples : list f32) : f32 :=
  match samples with
  | [] => f32_of_Z 0
  | _ :: _ =>
      let sum := fold_left (fun acc s => f64_add acc (f64_mul (f64_of_f32 s) (f64_of_f32 s)))
                           samples (f64_of_Z 0) in
      f32_of_f64 (f64_sqrt (f64_div sum (f64_of_Z (size samples))))
  end.

End Audio.

(** ** Streaming session (src/handler.cpp) *)

Module Session.

Import Scalar Float Conf Metrics.
Local Open Scope Z_scope.

Inductive MsgType : Type := Interim | Final | Done.

#[global] Instance MsgType_eq_dec : EqDecision MsgType.
Proof. solve_decision. Defined.

Record OutMessage := { type : MsgType; json : string }.

(** A default-constructed [OutMessage]. *)
Definition OutMessage_default : OutMessage := {| type := Interim; json := EmptyString |}.

Record ASRSession := {
  out_messages_ : list OutMessage;
  out_size_ : Z;
  vad_ : Vad.VoiceActivityDetector;
  config_ : Config;
  pending_ : list f32;
  start_ts_ : Z;
  first_result_ts_ : Z;
  has_first_result_ : bool;
  segments_ : Z;
  silence_segments_ : Z;
  decode_sec_ : f64;
  preprocess_sec_ : f64;
  audio_samples_ : Z;
  total_samples_received_ : Z;
  session_active_ : bool;
  max_duration_exceeded_ : bool;
  chunks_ : Z;
  bytes_ : Z }.

Definition set_out_messages_ (x : list OutMessage) (s : ASRSession) : ASRSession :=
  {| out_messages_ := x; out_size_ := out_size_ s; vad_ := vad_ s; config_ := config_ s;
     pending_ := pending_ s; start_ts_ := start_ts_ s; first_result_ts_ :=
     first_result_ts_ s; has_first_result_ := has_first_result_ s; segments_ := segments_
     s; silence_segments_ := silence_segments_ s; decode_sec_ := decode_sec_ s;
     preprocess_sec_ := preprocess_sec_ s; audio_samples_ := audio_samples_ s;
     total_samples_received_ := total_samples_received_ s; session_active_ :=
     session_active_ s; max_duration_exceeded_ := max_duration_exceeded_ s; chunks_ :=
     chunks_ s; bytes_ := bytes_ s |}.
Definition set_out_size_ (x : Z) (s : ASRSession) : ASRSession :=
  {| out_messages_ := out_messages_ s; out_size_ := x; vad_ := vad_ s; config_ := config_
     s; pending_ := pending_ s; start_ts_ := start_ts_ s; first_result_ts_ :=
     first_result_ts_ s; has_first_result_ := has_first_result_ s; segments_ := segments_
     s; silence_segments_ := silence_segments_ s; decode_sec_ := decode_sec_ s;
     preprocess_sec_ := preprocess_sec_ s; audio_samples_ := audio_samples_ s;
     total_samples_received_ := total_samples_received_ s; session_active_ :=
     session_active_ s; max_duration_exceeded_ := max_duration_exceeded_ s; chunks_ :=
     chunks_ s; bytes_ := bytes_ s |}.
Definition set_vad_ (x : Vad.VoiceActivityDetector) (s : ASRSession) : ASRSession :=
  {| out_messages_ := out_messages_ s; out_size_ := out_size_ s; vad_ := x; config_ :=
     config_ s; pending_ := pending_ s; start_ts_ := start_ts_ s; first_result_ts_ :=
     first_result_ts_ s; has_first_result_ := has_first_result_ s; segments_ := segments_
     s; silence_segments_ := silence_segments_ s; decode_sec_ := decode_sec_ s;
     preprocess_sec_ := preprocess_sec_ s; audio_samples_ := audio_samples_ s;
     total_samples_received_ := total_samples_received_ s; session_active_ :=
     session_active_ s; max_duration_exceeded_ := max_duration_exceeded_ s; chunks_ :=
     chunks_ s; bytes_ := bytes_ s |}.
Definition set_pending_ (x : list f32) (s : ASRSession) : ASRSession :=
  {| out_messages_ := out_messages_ s; out_size_ := out_size_ s; vad_ := vad_ s; config_
     := config_ s; pending_ := x; start_ts_ := start_ts_ s; first_result_ts_ :=
     first_result_ts_ s; has_first_result_ := has_first_result_ s; segments_ := segments_
     s; silence_segments_ := silence_segments_ s; decode_sec_ := decode_sec_ s;
     preprocess_sec_ := preprocess_sec_ s; audio_samples_ := audio_samples_ s;
     total_samples_received_ := total_samples_received_ s; session_active_ :=
     session_active_ s; max_duration_exceeded_ := max_duration_exceeded_ s; chunks_ :=
     chunks_ s; bytes_ := bytes_ s |}.
Definition set_start_ts_ (x : Z) (s : ASRSession) : ASRSession :=
  {| out_messages_ := out_messages_ s; out_size_ := out_size_ s; vad_ := vad_ s; config_
     := config_ s; pending_ := pending_ s; start_ts_ := x; first_result_ts_ :=
     first_result_ts_ s; has_first_result_ := has_first_result_ s; segments_ := segments_
     s; silence_segments_ := silence_segments_ s; decode_sec_ := decode_sec_ s;
     preprocess_sec_ := preprocess_sec_ s; audio_samples_ := audio_samples_ s;
     total_samples_received_ := total_samples_received_ s; session_active_ :=
     session_active_ s; max_duration_exceeded_ := max_duration_exceeded_ s; chunks_ :=
     chunks_ s; bytes_ := bytes_ s |}.
Definition set_first_result_ts_ (x : Z) (s : ASRSession) : ASRSession :=
  {| out_messages_ := out_messages_ s; out_size_ := out_size_ s; vad_ := vad_ s; config_
     := config_ s; pending_ := pending_ s; start_ts_ := start_ts_ s; first_result_ts_ :=
     x; has_first_result_ := has_first_result_ s; segments_ := segments_ s;
     silence_segments_ := silence_segments_ s; decode_sec_ := decode_sec_ s;
     preprocess_sec_ := preprocess_sec_ s; audio_samples_ := audio_samples_ s;
     total_samples_received_ := total_samples_received_ s; session_active_ :=
     session_active_ s; max_duration_exceeded_ := max_duration_exceeded_ s; chunks_ :=
     chunks_ s; bytes_ := bytes_ s |}.
Definition set_has_first_result_ (x : bool) (s : ASRSession) : ASRSession :=
  {| out_messages_ := out_messages_ s; out_size_ := out_size_ s; vad_ := vad_ s; config_
     := config_ s; pending_ := pending_ s; start_ts_ := start_ts_ s; first_result_ts_ :=
     first_result_ts_ s; has_first_result_ := x; segments_ := segments_ s;
     silence_segments_ := silence_segments_ s; decode_sec_ := decode_sec_ s;
     preprocess_sec_ := preprocess_sec_ s; audio_samples_ := audio_samples_ s;
     total_samples_received_ := total_samples_received_ s; session_active_ :=
     session_active_ s; max_duration_exceeded_ := max_duration_exceeded_ s; chunks_ :=
     chunks_ s; bytes_ := bytes_ s |}.
Definition set_segments_ (x : Z) (s : ASRSession) : ASRSession :=
  {| out_messages_ := out_messages_ s; out_size_ := out_size_ s; vad_ := vad_ s; config_
     := config_ s; pending_ := pending_ s; start_ts_ := start_ts_ s; first_result_ts_ :=
     first_result_ts_ s; has_first_result_ := has_first_result_ s; segments_ := x;
     silence_segments_ := silence_segments_ s; decode_sec_ := decode_sec_ s;
     preprocess_sec_ := preprocess_sec_ s; audio_samples_ := audio_samples_ s;
     total_samples_received_ := total_samples_received_ s; session_active_ :=
     session_active_ s; max_duration_exceeded_ := max_duration_exceeded_ s; chunks_ :=
     chunks_ s; bytes_ := bytes_ s |}.
Definition set_silence_segments_ (x : Z) (s : ASRSession) : ASRSession :=
  {| out_messages_ := out_messages_ s; out_size_ := out_size_ s; vad_ := vad_ s; config_
     := config_ s; pending_ := pending_ s; start_ts_ := start_ts_ s; first_result_ts_ :=
     first_result_ts_ s; has_first_result_ := has_first_result_ s; segments_ := segments_
     s; silence_segments_ := x; decode_sec_ := decode_sec_ s; preprocess_sec_ :=
     preprocess_sec_ s; audio_samples_ := audio_samples_ s; total_samples_received_ :=
     total_samples_received_ s; session_active_ := session_active_ s;
     max_duration_exceeded_ := max_duration_exceeded_ s; chunks_ := chunks_ s; bytes_ :=
     bytes_ s |}.
Definition set_decode_sec_ (x : f64) (s : ASRSession) : ASRSession :=
  {| out_messages_ := out_messages_ s; out_size_ := out_size_ s; vad_ := vad_ s; config_
     := config_ s; pending_ := pending_ s; start_ts_ := start_ts_ s; first_result_ts_ :=
     first_result_ts_ s; has_first_result_ := has_first_result_ s; segments_ := segments_
     s; silence_segments_ := silence_segments_ s; decode_sec_ := x; preprocess_sec_ :=
     preprocess_sec_ s; audio_samples_ := audio_samples_ s; total_samples_received_ :=
     total_samples_received_ s; session_active_ := session_active_ s;
     max_duration_exceeded_ := max_duration_exceeded_ s; chunks_ := chunks_ s; bytes_ :=
     bytes_ s |}.
Definition set_preprocess_sec_ (x : f64) (s : ASRSession) : ASRSession :=
  {| out_messages_ := out_messages_ s; out_size_ := out_size_ s; vad_ := vad_ s; config_
     := config_ s; pending_ := pending_ s; start_ts_ := start_ts_ s; first_result_ts_ :=
     first_result_ts_ s; has_first_result_ := has_first_result_ s; segments_ := segments_
     s; silence_segments_ := silence_segments_ s; decode_sec_ := decode_sec_ s;
     preprocess_sec_ := x; audio_samples_ := audio_samples_ s; total_samples_received_ :=
     total_samples_received_ s; session_active_ := session_active_ s;
     max_duration_exceeded_ := max_duration_exceeded_ s; chunks_ := chunks_ s; bytes_ :=
     bytes_ s |}.
Definition set_audio_samples_ (x : Z) (s : ASRSession) : ASRSession :=
  {| out_messages_ := out_messages_ s; out_size_ := out_size_ s; vad_ := vad_ s; config_
     := config_ s; pending_ := pending_ s; start_ts_ := start_ts_ s; first_result_ts_ :=
     first_result_ts_ s; has_first_result_ := has_first_result_ s; segments_ := segments_
     s; silence_segments_ := silence_segments_ s; decode_sec_ := decode_sec_ s;
     preprocess_sec_ := preprocess_sec_ s; audio_samples_ := x; total_samples_received_
     := total_samples_received_ s; session_active_ := session_active_ s;
     max_duration_exceeded_ := max_duration_exceeded_ s; chunks_ := chunks_ s; bytes_ :=
     bytes_ s |}.
Definition set_total_samples_received_ (x : Z) (s : ASRSession) : ASRSession :=
  {| out_messages_ := out_messages_ s; out_size_ := out_size_ s; vad_ := vad_ s; config_
     := config_ s; pending_ := pending_ s; start_ts_ := start_ts_ s; first_result_ts_ :=
     first_result_ts_ s; has_first_result_ := has_first_result_ s; segments_ := segments_
     s; silence_segments_ := silence_segments_ s; decode_sec_ := decode_sec_ s;
     preprocess_sec_ := preprocess_sec_ s; audio_samples_ := audio_samples_ s;
     total_samples_received_ := x; session_active_ := session_active_ s;
     max_duration_exceeded_ := max_duration_exceeded_ s; chunks_ := chunks_ s; bytes_ :=
     bytes_ s |}.
Definition set_session_active_ (x : bool) (s : ASRSession) : ASRSession :=
  {| out_messages_ := out_messages_ s; out_size_ := out_size_ s; vad_ := vad_ s; config_
     := config_ s; pending_ := pending_ s; start_ts_ := start_ts_ s; first_result_ts_ :=
     first_result_ts_ s; has_first_result_ := has_first_result_ s; segments_ := segments_
     s; silence_segments_ := silence_segments_ s; decode_sec_ := decode_sec_ s;
     preprocess_sec_ := preprocess_sec_ s; audio_samples_ := audio_samples_ s;
     total_samples_received_ := total_samples_received_ s; session_active_ := x;
     max_duration_exceeded_ := max_duration_exceeded_ s; chunks_ := chunks_ s; bytes_ :=
     bytes_ s |}.
Definition set_max_duration_exceeded_ (x : bool) (s : ASRSession) : ASRSession :=
  {| out_messages_ := out_messages_ s; out_size_ := out_size_ s; vad_ := vad_ s; config_
     := config_ s; pending_ := pending_ s; start_ts_ := start_ts_ s; first_result_ts_ :=
     first_result_ts_ s; has_first_result_ := has_first_result_ s; segments_ := segments_
     s; silence_segments_ := silence_segments_ s; decode_sec_ := decode_sec_ s;
     preprocess_sec_ := preprocess_sec_ s; audio_samples_ := audio_samples_ s;
     total_samples_received_ := total_samples_received_ s; session_active_ :=
     session_active_ s; max_duration_exceeded_ := x; chunks_ := chunks_ s; bytes_ :=
     bytes_ s |}.
Definition set_chunks_ (x : Z) (s : ASRSession) : ASRSession :=
  {| out_messages_ := out_messages_ s; out_size_ := out_size_ s; vad_ := vad_ s; config_
     := config_ s; pending_ := pending_ s; start_ts_ := start_ts_ s; first_result_ts_ :=
     first_result_ts_ s; has_first_result_ := has_first_result_ s; segments_ := segments_
     s; silence_segments_ := silence_segments_ s; decode_sec_ := decode_sec_ s;
     preprocess_sec_ := preprocess_sec_ s; audio_samples_ := audio_samples_ s;
     total_samples_received_ := total_samples_received_ s; session_active_ :=
     session_active_ s; max_duration_exceeded_ := max_duration_exceeded_ s; chunks_ := x;
     bytes_ := bytes_ s |}.
Definition set_bytes_ (x : Z) (s : ASRSession) : ASRSession :=
  {| out_messages_ := out_messages_ s; out_size_ := out_size_ s; vad_ := vad_ s; config_
     := config_ s; pending_ := pending_ s; start_ts_ := start_ts_ s; first_result_ts_ :=
     first_result_ts_ s; has_first_result_ := has_first_result_ s; segments_ := segments_
     s; silence_segments_ := silence_segments_ s; decode_sec_ := decode_sec_ s;
     preprocess_sec_ := preprocess_sec_ s; audio_samples_ := audio_samples_ s;
     total_samples_received_ := total_samples_received_ s; session_active_ :=
     session_active_ s; max_duration_exceeded_ := max_duration_exceeded_ s; chunks_ :=
     chunks_ s; bytes_ := x |}.

(** The session object together with what its member functions act on
    outside of it: the metrics singleton (as the log of the calls made on
    it) and the monotonic clock (as the number of readings taken). *)
Record World := {
  sess : ASRSession;
  metrics : list MetricEvent;
  ticks : nat }.

Definition set_sess (x : ASRSession) (w : World) : World :=
  {| sess := x; metrics := metrics w; ticks := ticks w |}.
Definition set_metrics (x : list MetricEvent) (w : World) : World :=
  {| sess := sess w; metrics := x; ticks := ticks w |}.
Definition set_ticks (x : nat) (w : World) : World :=
  {| sess := sess w; metrics := metrics w; ticks := x |}.

(** How a call ends: it returns, it raises, or it does not come back. *)
Inductive outcome (A : Type) : Type :=
  | Ok (a : A)
  | Throw (e : exn)
  | Diverge.
Arguments Ok {A} a.
Arguments Throw {A} e.
Arguments Diverge {A}.

(** Member functions: state transformers that may raise; the state
    reached at the [throw] is kept. *)
Definition M (A : Type) : Type := World -> outcome A * World.

#[global] Instance M_ret : MRet M := fun A a w => (Ok a, w).
#[global] Instance M_bind : MBind M := fun A B f m w =>
  match m w with
  | (Ok a, w') => f a w'
  | (Throw e, w') => (Throw e, w')
  | (Diverge, w') => (Diverge, w')
  end.

Definition gets {A} (f : ASRSession -> A) : M A := fun w => (Ok (f (sess w)), w).
Definition modify (f : ASRSession -> ASRSession) : M unit :=
  fun w => (Ok tt, set_sess (f (sess w)) w).
Definition observe (e : MetricEvent) : M unit :=
  fun w => (Ok tt, set_metrics (metrics w ++ [e]) w).
Definition throw {A} (e : exn) : M A := fun w => (Throw e, w).
Definition diverge {A} : M A := fun w => (Diverge, w).
Definition when (b : bool) (m : M unit) : M unit := if b then m else mret tt.

(** [std::chrono::duration<double>(d).count()] for a difference [d] of
    two clock readings in nanoseconds. *)
Definition seconds (d : Z) : f64 := f64_div (f64_of_Z d) (f64_of_Z 1000000000).

(** [std::round] on [float]: nearest integer, halfway cases away from
    zero. *)
Definition fround (x : f32) : f32 :=
  match x with
  | S754_finite s _ _ => match lround x with 0 => S754_zero s | z => f32_of_Z z end
  | _ => x
  end.

(** [v.resize(n, x)] *)
Definition resize {A} (n : nat) (x : A) (v : list A) : list A :=
  take n v ++ replicate (n - length v) x.

Definition dq : string := String "034"%char EmptyString.

Definition hex_digit (n : nat) : string :=
  match n with
  | 0%nat => "0" | 1%nat => "1" | 2%nat => "2" | 3%nat => "3" | 4%nat => "4"
  | 5%nat => "5" | 6%nat => "6" | 7%nat => "7" | 8%nat => "8" | 9%nat => "9"
  | 10%nat => "a" | 11%nat => "b" | 12%nat => "c" | 13%nat => "d" | 14%nat => "e"
  | _ => "f"
  end.

Definition json_escape_char (c : ascii) : string :=
  let n := nat_of_ascii c in
  if (n =? 34)%nat then "\" +:+ dq
  else if (n =? 92)%nat then "\\"
  else if (n =? 8)%nat then "\b"
  else if (n =? 12)%nat then "\f"
  else if (n =? 10)%nat then "\n"
  else if (n =? 13)%nat then "\r"
  else if (n =? 9)%nat then "\t"
  else if (n <? 32)%nat then
    "\u" +:+ hex_digit (n / 4096) +:+ hex_digit (n / 256 mod 16)
         +:+ hex_digit (n / 16 mod 16) +:+ hex_digit (n mod 16)
  else String c EmptyString.

(** Escape a string for JSON output, appending to [out]. *)
Fixpoint json_escape_to (out : string) (s : string) : string :=
  match s with
  | EmptyString => out
  | String c s' => json_escape_to (out +:+ json_escape_char c) s'
  end.

Section Handler.

(** [session_.Run] of the VAD network, see [Vad]. *)
Variable vad_model : list f32 -> list f32 -> Z -> f32 * list f32.
(** [Recognizer::recognize] as this single-threaded object sees it. *)
Variable recognize : list f32 -> Z -> string.
(** [SteadyClock::now()]: the n-th reading of the clock, in nanoseconds. *)
Variable steady_clock : nat -> Z.
(** [fmt]'s rendering of a [float] with the given number of decimals. *)
Variable fmt_fixed : nat -> f32 -> string.

Definition now : M Z := fun w => (Ok (steady_clock (ticks w)), set_ticks (S (ticks w)) w).

(** *** Zero-alloc message buffer *)

Definition begin_messages : M unit := modify (set_out_size_ 0).

(** [next_message()] followed by the assignments to the slot it returns. *)
Definition next_message (msg : OutMessage) : M unit :=
  modify (fun s =>
    let buf := if size (out_messages_ s) <=? out_size_ s
               then out_messages_ s ++ [OutMessage_default] else out_messages_ s in
    set_out_size_ (out_size_ s + 1)
      (set_out_messages_ (<[Z.to_nat (out_size_ s) := msg]> buf) s)).

Definition current_messages : M (list OutMessage) :=
  gets (fun s => take (Z.to_nat (out_size_ s)) (out_messages_ s)).

Definition bool_text (b : bool) : string := if b then "true" else "false".

Definition write_interim (duration rms : f32) (is_speech : bool) : M unit :=
  next_message
    {| type := Interim;
       json := "{" +:+ dq +:+ "type" +:+ dq +:+ ":" +:+ dq +:+ "interim" +:+ dq +:+ ","
               +:+ dq +:+ "duration" +:+ dq +:+ ":"
               +:+ fmt_fixed 1 (f32_div (fround (f32_mul duration (f32_of_Z 10))) (f32_of_Z 10))
               +:+ "," +:+ dq +:+ "rms" +:+ dq +:+ ":"
               +:+ fmt_fixed 4 (f32_div (fround (f32_mul rms (f32_of_Z 10000))) (f32_of_Z 10000))
               +:+ "," +:+ dq +:+ "is_speech" +:+ dq +:+ ":" +:+ bool_text is_speech +:+ "}" |}.

Definition write_final (text : string) (duration : f32) : M unit :=
  next_message
    {| type := Final;
       json := json_escape_to ("{" +:+ dq +:+ "type" +:+ dq +:+ ":" +:+ dq +:+ "final" +:+ dq
                               +:+ "," +:+ dq +:+ "text" +:+ dq +:+ ":" +:+ dq) text
               +:+ dq +:+ "," +:+ dq +:+ "duration" +:+ dq +:+ ":"
               +:+ fmt_fixed 3 (f32_div (fround (f32_mul duration (f32_of_Z 1000))) (f32_of_Z 1000))
               +:+ "}" |}.

Definition write_done : M unit :=
  next_message
    {| type := Done;
       json := "{" +:+ dq +:+ "type" +:+ dq +:+ ":" +:+ dq +:+ "done" +:+ dq +:+ "}" |}.

(** *** Session lifecycle *)

Definition reset_session : M unit :=
  t ← now;
  modify (set_start_ts_ t);;
  modify (set_first_result_ts_ 0);;
  modify (set_has_first_result_ false);;
  modify (set_segments_ 0);;
  modify (set_silence_segments_ 0);;
  modify (set_decode_sec_ (f64_of_Z 0));;
  modify (set_preprocess_sec_ (f64_of_Z 0));;
  modify (set_audio_samples_ 0);;
  modify (set_chunks_ 0);;
  modify (set_bytes_ 0);;
  modify (set_total_samples_received_ 0);;
  modify (set_max_duration_exceeded_ false).

Definition vad_pop : M unit := modify (fun s => set_vad_ (Vad.pop (vad_ s)) s).

(** The body of the loop of [process_vad_segments] for the segment at
    the front of the queue. *)
Definition process_segment (segment : Vad.SpeechSegment) : M unit :=
  cfg ← gets config_;
  let audio_sec :=
    f32_div (f32_of_Z (size (Vad.samples segment))) (f32_of_Z (sample_rate cfg)) in
  if flt audio_sec (min_audio_sec cfg) then
    modify (fun s => set_silence_segments_ (wrap_int (silence_segments_ s + 1)) s);;
    observe RecordSilence;;
    vad_pop
  else
    (* Recognize *)
    t0 ← now;
    let text := recognize (Vad.samples segment) (sample_rate cfg) in
    t1 ← now;
    let seg_decode_sec := seconds (t1 - t0) in
    modify (fun s => set_decode_sec_ (f64_add (decode_sec_ s) seg_decode_sec) s);;
    modify (fun s => set_audio_samples_
                       (wrap_size (audio_samples_ s + size (Vad.samples segment))) s);;
    (* TTFR tracking *)
    has ← gets has_first_result_;
    when (negb has)
         (t ← now;
          modify (set_first_result_ts_ t);;
          modify (set_has_first_result_ true);;
          start ← gets start_ts_;
          observe (ObserveTtfr (seconds (t - start)) "websocket"));;
    (* Metrics *)
    observe (ObserveSegment (f64_of_f32 audio_sec) seg_decode_sec);;
    (if bool_decide (text = EmptyString) then
       modify (fun s => set_silence_segments_ (wrap_int (silence_segments_ s + 1)) s);;
       observe RecordSilence
     else
       modify (fun s => set_segments_ (wrap_int (segments_ s + 1)) s);;
       observe (RecordResult text);;
       write_final text audio_sec);;
    vad_pop.

(** [while (!vad_.empty())]: an iteration removes exactly one segment
    and none is added, so the number of iterations is the length of the
    queue on entry. *)
Fixpoint process_vad_segments_loop (n : nat) : M unit :=
  match n with
  | O => mret tt
  | S n' =>
      front ← gets (fun s => Vad.front (vad_ s));
      match front with
      | None => mret tt
      | Some segment => process_segment segment;; process_vad_segments_loop n'
      end
  end.

Definition process_vad_segments : M unit :=
  n ← gets (fun s => length (Vad.segments_ (vad_ s)));
  process_vad_segments_loop n.

(** [vad_.accept_waveform(pending_)] *)
Definition vad_accept_pending : M unit := fun w =>
  match Vad.accept_waveform vad_model (vad_ (sess w)) (pending_ (sess w)) with
  | inl e => (Throw e, w)
  | inr v => (Ok tt, set_sess (set_vad_ v (sess w)) w)
  end.

Definition flush_pending : M unit :=
  p ← gets pending_;
  when (negb (bool_decide (p = [])))
       (modify (fun s => set_pending_
                  (resize (Z.to_nat (wrap_size (vad_window_size (config_ s))))
                          (f32_of_Z 0) (pending_ s)) s);;
        vad_accept_pending;;
        modify (set_pending_ []));;
  modify (fun s => set_vad_ (Vad.flush (vad_ s)) s).

Definition finalize_session : M unit :=
  (* Record request-level metrics *)
  t ← now;
  s ← gets id;
  let total_sec := seconds (t - start_ts_ s) in
  let audio_sec := f64_div (f64_of_Z (audio_samples_ s)) (f64_of_Z (sample_rate (config_ s))) in
  observe (ObserveRequest total_sec audio_sec (decode_sec_ s) (chunks_ s) (bytes_ s)
             (preprocess_sec_ s) (f64_of_Z 0) "websocket" "success");;
  (* Speech ratio *)
  let total_segments := wrap_int (segments_ s + silence_segments_ s) in
  when (0 <? total_segments)
       (observe (SetSpeechRatio (f64_div (f64_of_Z (segments_ s)) (f64_of_Z total_segments))));;
  (* Done message *)
  write_done;;
  (* End session metrics *)
  when (session_active_ s)
       (observe (SessionEnded total_sec);; modify (set_session_active_ false));;
  (* Reset for next session *)
  modify (fun s => set_vad_ (Vad.reset (vad_ s)) s);;
  modify (set_pending_ []);;
  reset_session.

(** *** Public API *)

(** The windowing loop of [on_audio]. [fuel] bounds the number of
    iterations; running out of it is [Diverge]. *)
Fixpoint feed_windows (fuel : nat) (samples : list f32) (offset : Z) : M unit :=
  if negb (offset <? size samples) then (mret tt : M unit)
  else match fuel with
  | O => diverge
  | S fuel' =>
      s ← gets id;
      let remaining_in_window :=
        wrap_size (wrap_size (vad_window_size (config_ s)) - size (pending_ s)) in
      let to_copy := Z.min remaining_in_window (size samples - offset) in
      modify (set_pending_
                (pending_ s ++ take (Z.to_nat to_copy) (drop (Z.to_nat offset) samples)));;
      let offset := offset + to_copy in
      s ← gets id;
      when (wrap_int (size (pending_ s)) =? vad_window_size (config_ s))
           (vad_accept_pending;; modify (set_pending_ []));;
      feed_windows fuel' samples offset
  end.

(** [received_sec]: the seconds of audio received so far, as [float]. *)
Definition received_sec (s : ASRSession) : f32 :=
  f32_div (f32_of_Z (total_samples_received_ s)) (f32_of_Z (sample_rate (config_ s))).

Definition on_audio (samples : list f32) : M (list OutMessage) :=
  begin_messages;;
  exceeded ← gets max_duration_exceeded_;
  if (exceeded : bool) then current_messages
  else
    preprocess_start ← now;
    (* Lazy session start: only count when audio actually arrives *)
    active ← gets session_active_;
    when (negb active) (modify (set_session_active_ true);; observe SessionStarted);;
    modify (fun s => set_chunks_ (wrap_int (chunks_ s + 1)) s);;
    modify (fun s => set_total_samples_received_
                       (wrap_size (total_samples_received_ s + size samples)) s);;
    modify (fun s => set_bytes_ (wrap_size (bytes_ s + size samples * 4)) s);;
    (* Compute RMS for the chunk *)
    let rms := Audio.compute_rms samples in
    observe (RecordAudioLevel (f64_of_f32 rms));;
    (* Accumulate samples and feed to VAD in window-sized chunks; two
       iterations more than there are samples always suffice when the
       loop terminates *)
    feed_windows (S (S (length samples))) samples 0;;
    preprocess_end ← now;
    modify (fun s => set_preprocess_sec_
                       (f64_add (preprocess_sec_ s) (seconds (preprocess_end - preprocess_start))) s);;
    (* Process any finalized VAD segments *)
    process_vad_segments;;
    (* If no segments were finalized, send interim status *)
    s ← gets id;
    when (out_size_ s =? 0)
         (write_interim (received_sec s) rms (Vad.is_speech (vad_ s)));;
    (* Auto-finalize if max audio duration exceeded (DoS protection) *)
    s ← gets id;
    when (fgt (received_sec s) (max_audio_sec (config_ s)))
         (flush_pending;;
          process_vad_segments;;
          finalize_session;;
          modify (set_max_duration_exceeded_ true));;
    current_messages.

Definition on_recognize : M (list OutMessage) :=
  begin_messages;;
  (* If auto-finalize already fired (max_audio_sec), don't finalize again *)
  exceeded ← gets max_duration_exceeded_;
  if (exceeded : bool) then
    modify (set_max_duration_exceeded_ false);;
    current_messages
  else
    flush_pending;;
    process_vad_segments;;
    finalize_session;;
    current_messages.

Definition on_reset : M unit :=
  modify (set_max_duration_exceeded_ false);;
  active ← gets session_active_;
  when active (observe (SessionEnded (f64_of_Z 0));; modify (set_session_active_ false));;
  modify (fun s => set_vad_ (Vad.reset (vad_ s)) s);;
  modify (set_pending_ []);;
  reset_session.

Definition on_close : M unit :=
  active ← gets session_active_;
  when active
       (t ← now;
        start ← gets start_ts_;
        observe (SessionEnded (seconds (t - start)));;
        modify (set_session_active_ false)).

(** The constructor: the members' initial values, then [reset_session]. *)
Definition construct (vad_config : Vad.VadConfig) (config : Config)
    (log : list MetricEvent) (t : nat) : exn + World :=
  match Vad.make vad_config with
  | inl e => inl e
  | inr v =>
      let s := {| out_messages_ := []; out_size_ := 0; vad_ := v; config_ := config;
                  pending_ := []; start_ts_ := 0; first_result_ts_ := 0;
                  has_first_result_ := false; segments_ := 0; silence_segments_ := 0;
                  decode_sec_ := f64_of_Z 0; preprocess_sec_ := f64_of_Z 0;
                  audio_samples_ := 0; total_samples_received_ := 0;
                  session_active_ := false; max_duration_exceeded_ := false;
                  chunks_ := 0; bytes_ := 0 |} in
      inr (snd (reset_session {| sess := s; metrics := log; ticks := t |}))
  end.

(** *** Sequences of calls *)

Inductive call : Type :=
  | OnAudio (samples : list f32)
  | OnRecognize
  | OnReset
  | OnClose.

(** One public call: how it ended and the messages it returned (none for
    the [void] member functions). *)
Definition step (c : call) (w : World) : outcome (list OutMessage) * World :=
  match c with
  | OnAudio samples => on_audio samples w
  | OnRecognize => on_recognize w
  | OnReset => (_ ← on_reset; mret []) w
  | OnClose => (_ ← on_close; mret []) w
  end.

(** The calls of a list in order, each on the state the previous one
    left (also when it raised): the outcomes, and the final state. *)
Fixpoint run (cs : list call) (w : World) : list (outcome (list OutMessage)) * World :=
  match cs with
  | [] => ([], w)
  | c :: cs' =>
      let '(o, w1) := step c w in
      let '(os, w2) := run cs' w1 in
      (o :: os, w2)
  end.

(** The messages returned over a sequence of calls, in order. *)
Definition emitted (os : list (outcome (list OutMessage))) : list OutMessage :=
  concat (map (fun o => match o with Ok ms => ms | _ => [] end) os).

Definition all_ok {A} (os : list (outcome A)) : Prop :=
  Forall (fun o => match o with Ok _ => True | _ => False end) os.

End Handler.

(** *** The session invariant *)

(** The messages a call returns: the populated prefix of the buffer. *)
Definition view (s : ASRSession) : list OutMessage :=
  take (Z.to_nat (out_size_ s)) (out_messages_ s).

(** The cursor of the message buffer is within the buffer. *)
Definition buffer_ok (s : ASRSession) : Prop :=
  0 <= out_size_ s <= size (out_messages_ s).

(** The detector works on the windows the session cuts (the server
    derives the detector's configuration from the session's,
    [Conf.vad_config_of]), and the window size is a positive [int]. *)
Definition coherent (s : ASRSession) : Prop :=
  Vad.window_size (Vad.config_ (vad_ s)) = vad_window_size (config_ s) /\
  0 < vad_window_size (config_ s) < 2 ^ 31.

Definition well_formed (s : ASRSession) : Prop :=
  coherent s /\ buffer_ok s /\ size (pending_ s) < vad_window_size (config_ s).

Definition is_done (m : OutMessage) : Prop := type m = Done.

(** [ms] ends with a [Done] message and holds no other. *)
Definition ends_with_single_done (ms : list OutMessage) : Prop :=
  exists pre d, ms = pre ++ [d] /\ is_done d /\ Forall (fun m => ~ is_done m) pre.

End Session.

(** ** Recognizer pool (src/recognizer.cpp) *)

Module Recognizer.

Import Scalar Float Conf.
Local Open Scope Z_scope.

(** An opaque pointer of the inference library; [None] is [nullptr]. *)
Definition handle_t : Type := Z.
Definition stream_t : Type := Z.

Record Slot := { handle : option handle_t; in_use : bool }.

Definition set_in_use (b : bool) (s : Slot) : Slot :=
  {| handle := handle s; in_use := b |}.

Definition is_space (c : ascii) : bool :=
  let n := nat_of_ascii c in
  (n =? 32)%nat || (n =? 9)%nat || (n =? 10)%nat || (n =? 13)%nat.

(** [text.erase(end + 1)] for the last character that is not white
    space, [text.clear()] when there is none. *)
Fixpoint erase_trailing (text : string) : string :=
  match text with
  | EmptyString => EmptyString
  | String c rest =>
      match erase_trailing rest with
      | EmptyString => if is_space c then EmptyString else String c EmptyString
      | kept => String c kept
      end
  end.

(** [text.erase(0, start)] for the first character that is not white
    space; nothing is erased when there is none. *)
Fixpoint first_not_space (text : string) : option string :=
  match text with
  | EmptyString => None
  | String c rest => if is_space c then first_not_space rest else Some text
  end.

Definition erase_leading (text : string) : string :=
  match first_not_space text with
  | Some kept => kept
  | None => text
  end.

Definition trim (text : string) : string := erase_leading (erase_trailing text).

(** How a call of [recognize] ends in a run without other threads: it
    returns, or it waits on the condition variable for a slot that no
    one will release. *)
Inductive result : Type :=
  | Returned (text : string) (slots : list Slot)
  | Waits (slots : list Slot).

(** The predicate of [pool_cv_.wait]: the index of the first slot that
    is not in use. *)
Fixpoint first_free (slots : list Slot) : option nat :=
  match slots with
  | [] => None
  | s :: rest => if in_use s then S <$> first_free rest else Some 0%nat
  end.

(** The critical section that takes a slot: its index, its handle and
    the pool with the slot marked. *)
Definition acquire (slots : list Slot) : option (nat * option handle_t * list Slot) :=
  match first_free slots with
  | None => None
  | Some slot_idx =>
      let slots := alter (set_in_use true) slot_idx slots in
      Some (slot_idx, from_option handle None (slots !! slot_idx), slots)
  end.

(** The critical section that gives the slot back. *)
Definition release (slot_idx : nat) (slots : list Slot) : list Slot :=
  alter (set_in_use false) slot_idx slots.

Section Pool.

(** [SherpaOnnxCreateOfflineRecognizer] for the i-th slot. *)
Variable create_recognizer : nat -> Z -> option handle_t.
(** [SherpaOnnxCreateOfflineStream]; [None] is a null stream. *)
Variable create_stream : option handle_t -> option stream_t.
(** Feeding the waveform, decoding and reading the result: [None] is a
    null result, [Some None] a result with a null text. *)
Variable decode : option handle_t -> stream_t -> Z -> list f32 -> option (option string).

(** The slots the constructor fills, for slot indices from [i]. *)
Fixpoint make_slots (threads_per_slot : Z) (i n : nat) : option (list Slot) :=
  match n with
  | O => Some []
  | S n' =>
      match create_recognizer i threads_per_slot with
      | None => None
      | Some h =>
          match make_slots threads_per_slot (S i) n' with
          | None => None
          | Some rest => Some ({| handle := Some h; in_use := false |} :: rest)
          end
      end
  end.

(** The constructor: all slots, or [std::runtime_error] (the slots made
    so far are destroyed; no partial pool exists). *)
Definition make (cfg : Config) : exn + list Slot :=
  let pool_size := if 0 <? recognizer_pool_size cfg then recognizer_pool_size cfg else 1 in
  let threads_per_slot := Z.max 1 (Z.quot (num_threads cfg) pool_size) in
  match make_slots threads_per_slot 0 (Z.to_nat (wrap_size pool_size)) with
  | Some slots => inr slots
  | None => inl RuntimeError
  end.

Definition recognize (slots : list Slot) (audio : list f32) (sample_rate : Z) : result :=
  match audio with
  | [] => Returned EmptyString slots
  | _ :: _ =>
      (* Acquire a free slot from the pool *)
      match acquire slots with
      | None => Waits slots
      | Some (slot_idx, handle, slots) =>
          (* Decode (no mutex held) *)
          match create_stream handle with
          | None =>
              let slots := release slot_idx slots in
              Returned EmptyString slots
          | Some stream =>
              let text :=
                match decode handle stream sample_rate audio with
                | Some (Some text) => trim text
                | _ => EmptyString
                end in
              (* Release slot *)
              let slots := release slot_idx slots in
              Returned text slots
          end
      end
  end.

End Pool.

End Recognizer.

(** ** Stream resampler and WAV decoding (src/audio.cpp) *)

Module Resampler.

Import Scalar Float.
Local Open Scope Z_scope.

Section Kernel.

(** The converter state behind [SRC_STATE*]. *)
Variable src_state : Type.
(** [src_new(SRC_SINC_MEDIUM_QUALITY, 1, &error)]; [None] is a null
    state. *)
Variable src_new : option src_state.
(** [src_process]: from the state, the ratio, the input frames, the
    capacity [output_frames] and [end_of_input] to the error code, the
    number of input frames used, the frames generated and the next
    state. *)
Variable src_process :
  src_state -> f64 -> list f32 -> Z -> bool -> Z * Z * list f32 * src_state.
Variable src_reset : src_state -> src_state.

Record StreamResampler := {
  state_ : src_state;
  ratio_ : f64;
  output_buf_ : list f32 }.

Definition make (input_rate output_rate : Z) : exn + StreamResampler :=
  match src_new with
  | None => inl AudioError
  | Some st =>
      inr {| state_ := st;
             ratio_ := f64_div (f64_of_Z output_rate) (f64_of_Z input_rate);
             output_buf_ := [] |}
  end.

(** The buffer size [process] asks for:
    [static_cast<size_t>(std::lround(input.size() * ratio_)) + 16]. *)
Definition needed (r : StreamResampler) (input : list f32) : Z :=
  wrap_size (wrap_size (lround (f64_mul (f64_of_Z (size input)) (ratio_ r))) + 16).

(** [output_buf_.resize(n)] when the buffer is smaller: new elements
    are zero. *)
Definition grow (n : Z) (buf : list f32) : list f32 :=
  if size buf <? n then buf ++ replicate (Z.to_nat n - length buf) (f32_of_Z 0) else buf.

(** One [src_process] call that writes into [output_buf_]: the frames
    generated (at most the capacity) overwrite the front of the buffer. *)
Definition run_kernel (r : StreamResampler) (input : list f32) (end_of_input : bool)
    : Z * Z * list f32 * StreamResampler :=
  let '(error, used, generated, st) :=
    src_process (state_ r) (ratio_ r) input (size (output_buf_ r)) end_of_input in
  let generated := take (length (output_buf_ r)) generated in
  (error, used, generated,
   {| state_ := st; ratio_ := ratio_ r;
      output_buf_ := generated ++ drop (length generated) (output_buf_ r) |}).

(** [process]: the view returned, and the resampler after the call
    (also when it raises). *)
Definition process (r : StreamResampler) (input : list f32)
    : (exn + list f32) * StreamResampler :=
  (* Grow buffer to high-water mark only, never shrink *)
  let r := {| state_ := state_ r; ratio_ := ratio_ r;
              output_buf_ := grow (needed r input) (output_buf_ r) |} in
  let '(error, used, generated, r) := run_kernel r input false in
  if negb (error =? 0) then (inl AudioError, r)
  else (inr (take (length generated) (output_buf_ r)), r).

Definition flush (r : StreamResampler) : (exn + list f32) * StreamResampler :=
  let r := {| state_ := state_ r; ratio_ := ratio_ r;
              output_buf_ := match output_buf_ r with
                             | [] => replicate 64 (f32_of_Z 0)
                             | _ => output_buf_ r
                             end |} in
  let '(error, used, generated, r) := run_kernel r [] true in
  if negb (error =? 0) then (inl AudioError, r)
  else
    (* Reset internal state so the resampler can be reused *)
    (inr (take (length generated) (output_buf_ r)),
     {| state_ := src_reset (state_ r); ratio_ := ratio_ r; output_buf_ := output_buf_ r |}).

End Kernel.

(** ⌈n / d⌉ for a positive [d]. *)
Definition ceil_div (n d : Z) : Z := (n + d - 1) / d.

End Resampler.

Module Wav.

Import Scalar Float.
Local Open Scope Z_scope.

Record AudioData := { samples : list f32; duration_sec : f32 }.

(** What [drwav_init_memory] reads from the header. *)
Record drwav := { channels : Z; sampleRate : Z; totalPCMFrameCount : Z }.

(** The longest input [decode_wav] accepts, in frames: one hour at
    48 kHz. *)
Definition max_frames : Z := 48000 * 3600.

Section Decoder.

(** [drwav_init_memory]; [None] is failure. *)
Variable drwav_init_memory : list Z -> option drwav.
(** [drwav_read_pcm_frames_f32] of up to the given number of frames:
    the frames read. *)
Variable drwav_read_pcm_frames_f32 : list Z -> Z -> list f32.
(** [src_simple] with the best sinc converter: the error code and the
    frames generated for the given ratio and capacity. *)
Variable src_simple : list f32 -> f64 -> Z -> Z * list f32.

Definition decode_wav (data : list Z) (target_rate : Z) : exn + AudioData :=
  match data with
  | [] => inl AudioError
  | _ :: _ =>
      match drwav_init_memory data with
      | None => inl AudioError
      | Some wav =>
          if negb (channels wav =? 1) then inl AudioError
          else
            let total_frames := wrap_size (totalPCMFrameCount wav) in
            if total_frames =? 0 then inl AudioError
            (* Guard against absurdly long audio *)
            else if max_frames <? total_frames then inl AudioError
            else
              (* Read all frames as float32 *)
              let read := take (Z.to_nat total_frames)
                               (drwav_read_pcm_frames_f32 data total_frames) in
              let input_rate := wrap_int (sampleRate wav) in
              match read with
              | [] => inl AudioError
              | _ :: _ =>
                  let resampled :=
                    if negb (input_rate =? target_rate) then
                      (* Resample if needed *)
                      let ratio := f64_div (f64_of_Z target_rate) (f64_of_Z input_rate) in
                      let output_frames :=
                        wrap_size (lround (f64_mul (f64_of_Z (size read)) ratio)) in
                      let '(error, generated) := src_simple read ratio output_frames in
                      if negb (error =? 0) then inl AudioError
                      else inr (take (Z.to_nat output_frames) generated)
                    else inr read in
                  match resampled with
                  | inl e => inl e
                  | inr smp =>
                      inr {| samples := smp;
                             duration_sec := f32_div (f32_of_Z (size smp)) (f32_of_Z target_rate) |}
                  end
              end
      end
  end.

End Decoder.

End Wav.

(** ** WebSocket controller (src/server.cpp) *)

Module Ws.

Import Scalar Float Conf Metrics.
Local Open Scope Z_scope.

Inductive CloseCode : Type := kViolation | kUnexpectedCondition.

(** A message delivered by the transport: binary, text, or of another
    type (ping, pong, close). *)
Inductive ws_message : Type :=
  | Binary (msg : list Z)
  | Text (msg : string)
  | Other.

(** The [float] with the given IEEE-754 binary32 bit pattern. *)
Definition f32_of_bits (b : Z) : f32 :=
  let s := Z.testbit b 31 in
  let e := Z.land (Z.shiftr b 23) 255 in
  let m := Z.land b (2 ^ 23 - 1) in
  if e =? 0 then
    match m with Zpos p => S754_finite s p (-149) | _ => S754_zero s end
  else if e =? 255 then (if m =? 0 then S754_infinity s else S754_nan)
  else match m + 2 ^ 23 with Zpos p => S754_finite s p (e - 150) | _ => S754_nan end.

(** [std::memcpy] of a little-endian byte string into [float]s. *)
Fixpoint floats_of_bytes (bytes : list Z) : list f32 :=
  match bytes with
  | b0 :: b1 :: b2 :: b3 :: rest =>
      f32_of_bits (b0 + 2 ^ 8 * b1 + 2 ^ 16 * b2 + 2 ^ 24 * b3) :: floats_of_bytes rest
  | _ => []
  end.

(** What the handler learns from [nlohmann::json] about a text: [parse]
    raises, the value has no [sample_rate] member, [get<int>] raises, or
    the member converts to the [int] given. *)
Inductive json_probe : Type :=
  | JsonParseError
  | JsonWithoutRate
  | JsonRateNotNumber
  | JsonRate (input_rate : Z).

Definition starts_with_brace (msg : string) : bool :=
  match msg with
  | String c _ => bool_decide (c = "{"%char)
  | EmptyString => false
  end.

Section Controller.

Variable src_state : Type.
Variable src_new : option src_state.
Variable src_process :
  src_state -> f64 -> list f32 -> Z -> bool -> Z * Z * list f32 * src_state.
Variable src_reset : src_state -> src_state.
Variable vad_model : list f32 -> list f32 -> Z -> f32 * list f32.
Variable recognize : list f32 -> Z -> string.
Variable steady_clock : nat -> Z.
Variable fmt_fixed : nat -> f32 -> string.
(** [nlohmann::json::parse], [contains] and [get<int>] on a text. *)
Variable probe : string -> json_probe.
(** [g_ws_state.config] *)
Variable config : Config.

(** [WsConnectionContext], and what the handler acts on outside of it:
    the metrics singleton, the clock, the frames sent on the connection,
    the close it asked for, and the [StreamResampler] objects that were
    constructed (input and output rate), in order. *)
Record Conn := {
  session : Session.ASRSession;
  connected_at : Z;
  audio_buf : list f32;
  close_reason : string;
  resampler : option (Resampler.StreamResampler src_state);
  sample_rate_received : bool;
  metrics : list MetricEvent;
  ticks : nat;
  sent : list string;
  shutdown : option (CloseCode * string);
  resamplers_made : list (Z * Z) }.

Definition set_session (x : Session.ASRSession) (c : Conn) : Conn :=
  {| session := x; connected_at := connected_at c; audio_buf := audio_buf c; close_reason
     := close_reason c; resampler := resampler c; sample_rate_received :=
     sample_rate_received c; metrics := metrics c; ticks := ticks c; sent := sent c;
     shutdown := shutdown c; resamplers_made := resamplers_made c |}.
Definition set_audio_buf (x : list f32) (c : Conn) : Conn :=
  {| session := session c; connected_at := connected_at c; audio_buf := x; close_reason
     := close_reason c; resampler := resampler c; sample_rate_received :=
     sample_rate_received c; metrics := metrics c; ticks := ticks c; sent := sent c;
     shutdown := shutdown c; resamplers_made := resamplers_made c |}.
Definition set_close_reason (x : string) (c : Conn) : Conn :=
  {| session := session c; connected_at := connected_at c; audio_buf := audio_buf c;
     close_reason := x; resampler := resampler c; sample_rate_received :=
     sample_rate_received c; metrics := metrics c; ticks := ticks c; sent := sent c;
     shutdown := shutdown c; resamplers_made := resamplers_made c |}.
Definition set_resampler (x : option (Resampler.StreamResampler src_state)) (c : Conn) : Conn :=
  {| session := session c; connected_at := connected_at c; audio_buf := audio_buf c;
     close_reason := close_reason c; resampler := x; sample_rate_received :=
     sample_rate_received c; metrics := metrics c; ticks := ticks c; sent := sent c;
     shutdown := shutdown c; resamplers_made := resamplers_made c |}.
Definition set_sample_rate_received (x : bool) (c : Conn) : Conn :=
  {| session := session c; connected_at := connected_at c; audio_buf := audio_buf c;
     close_reason := close_reason c; resampler := resampler c; sample_rate_received := x;
     metrics := metrics c; ticks := ticks c; sent := sent c; shutdown := shutdown c;
     resamplers_made := resamplers_made c |}.
Definition set_metrics (x : list MetricEvent) (c : Conn) : Conn :=
  {| session := session c; connected_at := connected_at c; audio_buf := audio_buf c;
     close_reason := close_reason c; resampler := resampler c; sample_rate_received :=
     sample_rate_received c; metrics := x; ticks := ticks c; sent := sent c; shutdown :=
     shutdown c; resamplers_made := resamplers_made c |}.
Definition set_ticks (x : nat) (c : Conn) : Conn :=
  {| session := session c; connected_at := connected_at c; audio_buf := audio_buf c;
     close_reason := close_reason c; resampler := resampler c; sample_rate_received :=
     sample_rate_received c; metrics := metrics c; ticks := x; sent := sent c; shutdown
     := shutdown c; resamplers_made := resamplers_made c |}.
Definition set_sent (x : list string) (c : Conn) : Conn :=
  {| session := session c; connected_at := connected_at c; audio_buf := audio_buf c;
     close_reason := close_reason c; resampler := resampler c; sample_rate_received :=
     sample_rate_received c; metrics := metrics c; ticks := ticks c; sent := x; shutdown
     := shutdown c; resamplers_made := resamplers_made c |}.
Definition set_shutdown (x : option (CloseCode * string)) (c : Conn) : Conn :=
  {| session := session c; connected_at := connected_at c; audio_buf := audio_buf c;
     close_reason := close_reason c; resampler := resampler c; sample_rate_received :=
     sample_rate_received c; metrics := metrics c; ticks := ticks c; sent := sent c;
     shutdown := x; resamplers_made := resamplers_made c |}.
Definition set_resamplers_made (x : list (Z * Z)) (c : Conn) : Conn :=
  {| session := session c; connected_at := connected_at c; audio_buf := audio_buf c;
     close_reason := close_reason c; resampler := resampler c; sample_rate_received :=
     sample_rate_received c; metrics := metrics c; ticks := ticks c; sent := sent c;
     shutdown := shutdown c; resamplers_made := x |}.

Definition world_of (c : Conn) : Session.World :=
  {| Session.sess := session c; Session.metrics := metrics c; Session.ticks := ticks c |}.

Definition with_world (w : Session.World) (c : Conn) : Conn :=
  set_ticks (Session.ticks w) (set_metrics (Session.metrics w) (set_session (Session.sess w) c)).

(** A member function of the session run on the connection's session. *)
Definition session_call {A} (m : Session.M A) (c : Conn) : Session.outcome A * Conn :=
  let '(o, w) := m (world_of c) in (o, with_world w c).

(** [conn->send(r.json, Text)] for each message. *)
Definition send_all (rs : list Session.OutMessage) (c : Conn) : Conn :=
  set_sent (sent c ++ map Session.json rs) c.

(** A session call whose messages are sent. *)
Definition respond (m : Session.M (list Session.OutMessage)) (c : Conn)
    : Session.outcome unit * Conn :=
  match session_call m c with
  | (Session.Ok rs, c) => (Session.Ok tt, send_all rs c)
  | (Session.Throw e, c) => (Session.Throw e, c)
  | (Session.Diverge, c) => (Session.Diverge, c)
  end.

Definition on_audio := Session.on_audio vad_model recognize steady_clock fmt_fixed.
Definition on_recognize := Session.on_recognize vad_model recognize steady_clock fmt_fixed.
Definition on_reset := Session.on_reset steady_clock.

Definition handle_binary (msg : list Z) (c : Conn) : Session.outcome unit * Conn :=
  (* Guard against oversized messages *)
  if wrap_size (max_ws_message_bytes config) <? size msg then
    (Session.Ok tt,
     set_shutdown (Some (kViolation, "Message too large"))
       (set_close_reason "message_too_large" c))
  else if (size msg <? 4) || negb (size msg mod 4 =? 0) then (Session.Ok tt, c)
  else
    let c := set_audio_buf (floats_of_bytes msg) c in
    match resampler c with
    | Some r =>
        let '(res, r) := Resampler.process src_state src_process r (audio_buf c) in
        let c := set_resampler (Some r) c in
        match res with
        | inl e => (Session.Throw e, c)
        | inr resampled => respond (on_audio resampled) c
        end
    | None => respond (on_audio (audio_buf c)) c
    end.

(** The announcement block of a text message. [None]: control falls
    through to command handling. *)
Definition handle_announcement (msg : string) (c : Conn)
    : option (Session.outcome unit * Conn) :=
  if negb (sample_rate_received c) && negb (bool_decide (msg = EmptyString))
     && starts_with_brace msg then
    match probe msg with
    | JsonRate input_rate =>
        if (input_rate <? 8000) || (192000 <? input_rate) then Some (Session.Ok tt, c)
        else
          let c := set_sample_rate_received true c in
          if negb (input_rate =? sample_rate config) then
            match Resampler.make src_state src_new input_rate (sample_rate config) with
            | inl e => Some (Session.Throw e, c)
            | inr r =>
                Some (Session.Ok tt,
                      set_resamplers_made
                        (resamplers_made c ++ [(input_rate, sample_rate config)])
                        (set_resampler (Some r) c))
            end
          else Some (Session.Ok tt, c)
    | JsonParseError | JsonWithoutRate | JsonRateNotNumber => None
    end
  else None.

(** [ctx->resampler->flush()] when there is a resampler: the tail. *)
Definition flush_resampler (c : Conn) : (exn + list f32) * Conn :=
  match resampler c with
  | Some r =>
      let '(res, r) := Resampler.flush src_state src_process src_reset r in
      (res, set_resampler (Some r) c)
  | None => (inr [], c)
  end.

Definition handle_command (msg : string) (c : Conn) : Session.outcome unit * Conn :=
  if bool_decide (msg = "RECOGNIZE") then
    (* Flush resampler filter tail before finalizing *)
    match flush_resampler c with
    | (inl e, c) => (Session.Throw e, c)
    | (inr tail, c) =>
        match (match tail with
               | [] => (Session.Ok tt, c)
               | _ :: _ => respond (on_audio tail) c
               end) with
        | (Session.Ok _, c) => respond on_recognize c
        | r => r
        end
    end
  else if bool_decide (msg = "RESET") then
    match session_call on_reset c with
    | (Session.Ok _, c) =>
        (* Reset resampler state so it can be reused for next session *)
        match flush_resampler c with
        | (inl e, c) => (Session.Throw e, c)
        | (inr _, c) => (Session.Ok tt, c)
        end
    | r => r
    end
  else (Session.Ok tt, c).

Definition handle_text (msg : string) (c : Conn) : Session.outcome unit * Conn :=
  match handle_announcement msg c with
  | Some r => r
  | None => handle_command msg c
  end.

(** How the handler ends: it returns, or it does not come back. *)
Inductive handled : Type :=
  | Handled (c : Conn)
  | Hung (c : Conn).

Definition conn_of (h : handled) : Conn :=
  match h with Handled c | Hung c => c end.

(** The end of the [try] block: the body returned, or raised into the
    [catch] clause, which counts the error and closes the connection. *)
Definition try_end (r : Session.outcome unit * Conn) : handled :=
  match r with
  | (Session.Ok _, c) => Handled c
  | (Session.Throw _, c) =>
      Handled (set_shutdown (Some (kUnexpectedCondition, "Internal error"))
                 (set_close_reason "internal_error"
                    (set_metrics (metrics c ++ [ObserveError "ws_handler_exception"]) c)))
  | (Session.Diverge, c) => Hung c
  end.

(** [handleNewMessage] on a connection that has its context. *)
Definition handleNewMessage (m : ws_message) (c : Conn) : handled :=
  try_end match m with
          | Binary msg => handle_binary msg c
          | Text msg => handle_text msg c
          | Other => (Session.Ok tt, c)
          end.

(** The messages of a list in order; after a handler that does not come
    back nothing more is handled. *)
Fixpoint handle_all (ms : list ws_message) (c : Conn) : handled :=
  match ms with
  | [] => Handled c
  | m :: ms' =>
      match handleNewMessage m c with
      | Handled c' => handle_all ms' c'
      | Hung c' => Hung c'
      end
  end.

(** [handleNewConnection]: the context of a new connection around a new
    session. *)
Definition open_connection (s : Session.ASRSession) (log : list MetricEvent) (t : nat) : Conn :=
  {| session := s; connected_at := steady_clock t; audio_buf := [];
     close_reason := "normal"; resampler := None; sample_rate_received := false;
     metrics := log ++ [ConnectionOpened]; ticks := S t; sent := []; shutdown := None;
     resamplers_made := [] |}.

(** The rate conversion the connection is set up for. *)
Definition conversion (c : Conn) : option f64 :=
  Resampler.ratio_ src_state <$> resampler c.

(** [handleNewConnection] on an initialized server: the session is
    constructed with the detector configuration that [Server::Server]
    derived from the configuration; an exception of the constructor
    leaves the handler. *)
Definition handleNewConnection (log : list MetricEvent) (t : nat) : exn + Conn :=
  match Session.construct steady_clock (vad_config_of config) config log t with
  | inl e => inl e
  | inr w => inr (open_connection (Session.sess w) (Session.metrics w) (Session.ticks w))
  end.

(** [handleConnectionClosed] on a connection that has its context. *)
Definition handleConnectionClosed (c : Conn) : Conn :=
  let c := snd (session_call (Session.on_close steady_clock) c) in
  let duration := Session.seconds (steady_clock (ticks c) - connected_at c) in
  set_ticks (S (ticks c))
    (set_metrics (metrics c ++ [ConnectionClosed (close_reason c) duration]) c).

End Controller.

End Ws.

(** ** HTTP recognition endpoint (src/server.cpp) *)

Module Http.

Import Scalar Float Conf Metrics.
Local Open Scope Z_scope.

(** [RequestSemaphore]: the concurrent-request limiter of POST
    /recognize. *)
Record RequestSemaphore := { max_count : Z; count : Z }.

Definition try_acquire (s : RequestSemaphore) : bool * RequestSemaphore :=
  if max_count s <=? count s then (false, s)
  else (true, {| max_count := max_count s; count := wrap_size (count s + 1) |}).

Definition release (s : RequestSemaphore) : RequestSemaphore :=
  {| max_count := max_count s; count := wrap_size (count s - 1) |}.

Inductive HttpStatusCode : Type :=
  | k200OK
  | k400BadRequest
  | k413RequestEntityTooLarge
  | k500InternalServerError
  | k503ServiceUnavailable.

(** The JSON body of a response: an error with the detail text the
    handler wrote, an error whose detail is the message of the exception
    caught (the message is not modelled), or the serialised result. *)
Inductive Body : Type :=
  | Detail (detail : string)
  | What (e : exn)
  | Result (json : string).

Record Response := { status : HttpStatusCode; body : Body }.

(** What the handler acts on: the semaphore [g_request_sem], the slots
    of [recognizer_], the metrics singleton, the clock, and the
    responses passed to [callback], in order. *)
Record Server := {
  sem : RequestSemaphore;
  pool : list Recognizer.Slot;
  metrics : list MetricEvent;
  ticks : nat;
  responses : list Response }.

Definition set_sem (x : RequestSemaphore) (s : Server) : Server :=
  {| sem := x; pool := pool s; metrics := metrics s; ticks := ticks s;
     responses := responses s |}.
Definition set_pool (x : list Recognizer.Slot) (s : Server) : Server :=
  {| sem := sem s; pool := x; metrics := metrics s; ticks := ticks s;
     responses := responses s |}.
Definition observe (e : MetricEvent) (s : Server) : Server :=
  {| sem := sem s; pool := pool s; metrics := metrics s ++ [e]; ticks := ticks s;
     responses := responses s |}.
Definition callback (r : Response) (s : Server) : Server :=
  {| sem := sem s; pool := pool s; metrics := metrics s; ticks := ticks s;
     responses := responses s ++ [r] |}.

(** How the [try] block ends: at its last statement, by an exception,
    or never, in [Recognizer::recognize] waiting for a slot. *)
Inductive attempt : Type :=
  | Completed (s : Server)
  | Raised (e : exn) (s : Server)
  | Blocked.

Section Handler.

Variable config : Config.
Variable steady_clock : nat -> Z.
Variable drwav_init_memory : list Z -> option Wav.drwav.
Variable drwav_read_pcm_frames_f32 : list Z -> Z -> list f32.
Variable src_simple : list f32 -> f64 -> Z -> Z * list f32.
Variable create_stream : option Recognizer.handle_t -> option Recognizer.stream_t.
Variable decode :
  option Recognizer.handle_t -> Recognizer.stream_t -> Z -> list f32 -> option (option string).
(** [j.dump()] of the result object; [None] when it raises (a text that
    is not UTF-8). *)
Variable dump : string -> f32 -> option string.

Definition now (s : Server) : Z * Server :=
  (steady_clock (ticks s),
   {| sem := sem s; pool := pool s; metrics := metrics s; ticks := S (ticks s);
      responses := responses s |}).

Definition zero : f64 := f64_of_Z 0.

(** The lambda [make_error]: the response, after the error was counted. *)
Definition make_error (status : HttpStatusCode) (detail : Body) (error_type : string)
    (s : Server) : Response * Server :=
  ({| status := status; body := detail |}, observe (ObserveError error_type) s).

(** The lambda [make_error_and_release] of a request that started at
    [start_ts]. *)
Definition make_error_and_release (start_ts : Z) (status : HttpStatusCode) (detail : Body)
    (error_type : string) (s : Server) : Response * Server :=
  let '(resp, s) := make_error status detail error_type s in
  let '(end_ts, s) := now s in
  let s := observe (ObserveRequest (Session.seconds (end_ts - start_ts)) zero zero 0 0
                                   zero zero "http" "failed") s in
  let s := observe (SessionEnded zero) s in
  let s := set_sem (release (sem s)) s in
  (resp, s).

(** [callback(make_error_and_release(...))]. *)
Definition answer_error (start_ts : Z) (status : HttpStatusCode) (detail : Body)
    (error_type : string) (s : Server) : Server :=
  let '(resp, s) := make_error_and_release start_ts status detail error_type s in
  callback resp s.

(** The [try] block of the handler. *)
Definition try_recognize (start_ts : Z) (file_data : list Z) (s : Server) : attempt :=
  (* Decode WAV *)
  let '(preprocess_start, s) := now s in
  match Wav.decode_wav drwav_init_memory drwav_read_pcm_frames_f32 src_simple
                       file_data (sample_rate config) with
  | inl e => Raised e s
  | inr audio =>
      let '(preprocess_end, s) := now s in
      let preprocess_sec := Session.seconds (preprocess_end - preprocess_start) in
      (* Recognize *)
      let '(decode_start, s) := now s in
      match Recognizer.recognize create_stream decode (pool s)
                                 (Wav.samples audio) (sample_rate config) with
      | Recognizer.Waits _ => Blocked
      | Recognizer.Returned text slots =>
          let s := set_pool slots s in
          let '(decode_end, s) := now s in
          let decode_sec := Session.seconds (decode_end - decode_start) in
          let '(end_ts, s) := now s in
          let total_sec := Session.seconds (end_ts - start_ts) in
          (* Record metrics *)
          let audio_sec := f64_of_f32 (Wav.duration_sec audio) in
          let s := observe (ObserveTtfr decode_sec "http") s in
          let s := observe (ObserveSegment audio_sec decode_sec) s in
          let s := observe (ObserveRequest total_sec audio_sec decode_sec 1
                                           (size file_data) preprocess_sec zero
                                           "http" "success") s in
          let s := observe (RecordResult text) s in
          let s := observe (SessionEnded total_sec) s in
          let s := set_sem (release (sem s)) s in
          (* Response *)
          match dump text (Wav.duration_sec audio) with
          | None => Raised RuntimeError s
          | Some json => Completed (callback {| status := k200OK; body := Result json |} s)
          end
      end
  end.

(** The handler of POST /recognize. [upload] is what [MultiPartParser]
    makes of the request: [None] when [parse] fails, else the contents
    of the files. [None] as the result: the handler does not return. *)
Definition recognize_handler (upload : option (list (list Z))) (s : Server) : option Server :=
  (* Concurrent request limiting *)
  let '(acquired, sem') := try_acquire (sem s) in
  let s := set_sem sem' s in
  if negb acquired then
    let '(resp, s) := make_error k503ServiceUnavailable
                        (Detail "Server at capacity, try again later")
                        "capacity_exceeded" s in
    let s := callback resp s in
    Some (observe (ObserveRequest zero zero zero 0 0 zero zero "http" "failed") s)
  else
    let s := observe SessionStarted s in
    let '(start_ts, s) := now s in
    (* Get uploaded file *)
    match upload with
    | None | Some [] =>
        Some (answer_error start_ts k400BadRequest (Detail "No file uploaded") "empty_file" s)
    | Some (file_data :: _) =>
        (* Check upload size limit *)
        if wrap_size (max_upload_bytes config) <? size file_data then
          Some (answer_error start_ts k413RequestEntityTooLarge (Detail "File too large")
                             "file_too_large" s)
        else if bool_decide (file_data = []) then
          Some (answer_error start_ts k400BadRequest (Detail "Empty file") "empty_file" s)
        else
          match try_recognize start_ts file_data s with
          | Completed s => Some s
          | Raised AudioError s =>
              Some (answer_error start_ts k400BadRequest (What AudioError) "invalid_audio" s)
          | Raised e s =>
              Some (answer_error start_ts k500InternalServerError (What e) "internal_error" s)
          | Blocked => None
          end
    end.

(** Requests handled one after the other; [None] when a handler does
    not return. *)
Fixpoint serve (uploads : list (option (list (list Z)))) (s : Server) : option Server :=
  match uploads with
  | [] => Some s
  | upload :: rest =>
      match recognize_handler upload s with
      | Some s => serve rest s
      | None => None
      end
  end.

End Handler.

(** The part of [Server::Server] that sets up the request limiter, for
    the pool of [recognizer] and the metrics and the clock as they
    are; no request was answered yet. *)
Definition make (config : Config) (recognizer : list Recognizer.Slot)
    (log : list MetricEvent) (t : nat) : Server :=
  {| sem := {| max_count := max_concurrent_requests config; count := 0 |};
     pool := recognizer;
     metrics := log;
     ticks := t;
     responses := [] |}.

End Http.

(** ** Result statistics (src/metrics.cpp) *)

Module ResultStats.

Import Scalar.
Local Open Scope Z_scope.

(** The characters [record_result] takes to separate words. *)
Definition is_separator (c : ascii) : bool :=
  let n := nat_of_ascii c in
  (n =? 32)%nat || (n =? 9)%nat || (n =? 10)%nat.

(** The body of the loop of [record_result], on [word_count] and
    [in_word]. *)
Definition scan (st : Z * bool) (c : ascii) : Z * bool :=
  let '(word_count, in_word) := st in
  if is_separator c then (word_count, false)
  else if negb in_word then (wrap_int (word_count + 1), true)
  else (word_count, in_word).

Definition word_count (text : string) : Z :=
  fst (fold_left scan (list_ascii_of_string text) (0, false)).

(** What a call of [record_result] does to the instruments: nothing,
    an increment of [empty_results_total_], or [word_count] added to
    [words_total_] and observed by [words_per_request_] and the size of
    the text added to [characters_total_]. *)
Inductive recorded : Type :=
  | Nothing
  | EmptyResult
  | Words (word_count : Z) (characters : Z).

Definition record_result (initialized_ : bool) (text : string) : recorded :=
  if negb initialized_ then Nothing
  else
    match text with
    | EmptyString => EmptyResult
    | _ => Words (word_count text) (Z.of_nat (String.length text))
    end.

End ResultStats.

(** ** Concrete configurations and oracles used by the examples *)

Module Fixture.

Import Scalar Float.
Local Open Scope Z_scope.

Definition zero : f32 := f32_of_Z 0.
Definition one : f32 := f32_of_Z 1.

(** A stand-in for the VAD network: the probability is the last sample
    of the window, the recurrent state is returned as it is. *)
Definition toy_model (inp st : list f32) (sr : Z) : f32 * list f32 :=
  (List.last inp zero, st).

(** Windows of four samples at 8 Hz: a speech run is force-split after
    one second (8 samples), closed by 0.75 s of silence (6 samples) and
    kept from 0.25 s (2 samples). *)
Definition small_vad_config : Vad.VadConfig :=
  {| Vad.model_path := "silero_vad.onnx";
     Vad.threshold := f32_ratio 1 2;
     Vad.min_silence_duration := f32_ratio 3 4;
     Vad.min_speech_duration := f32_ratio 1 4;
     Vad.max_speech_duration := f32_of_Z 1;
     Vad.sample_rate := 8;
     Vad.window_size := 4;
     Vad.context_size := 1 |}.

(** The default windows (512 samples at 16 kHz, 64 of context) with a
    speech run force-split after 0.064 s (1024 samples, two windows),
    closed by 0.5 s of silence and kept from 0.01 s. *)
Definition short_max_vad_config : Vad.VadConfig :=
  {| Vad.model_path := "silero_vad.onnx";
     Vad.threshold := f32_ratio 1 2;
     Vad.min_silence_duration := f32_ratio 1 2;
     Vad.min_speech_duration := f32_ratio 1 100;
     Vad.max_speech_duration := f32_ratio 64 1000;
     Vad.sample_rate := 16000;
     Vad.window_size := 512;
     Vad.context_size := 64 |}.

(** Windows of 4000 samples at 8 kHz with [max_speech_duration]
    1.0001 s just above [min_speech_duration] 1.00005 s. *)
Definition tight_vad_config : Vad.VadConfig :=
  {| Vad.model_path := "silero_vad.onnx";
     Vad.threshold := f32_ratio 1 2;
     Vad.min_silence_duration := f32_ratio 1 2;
     Vad.min_speech_duration := f32_ratio 100005 100000;
     Vad.max_speech_duration := f32_ratio 10001 10000;
     Vad.sample_rate := 8000;
     Vad.window_size := 4000;
     Vad.context_size := 64 |}.

Definition speech_window (n : nat) : list f32 := replicate n one.
Definition silence_window (n : nat) : list f32 := replicate n zero.

(** A detector as its constructor leaves it. *)
Definition fresh_vad (cfg : Vad.VadConfig) : Vad.VoiceActivityDetector :=
  match Vad.make cfg with
  | inr v => v
  | inl _ => {| Vad.config_ := cfg; Vad.state_ := []; Vad.input_buf_ := [];
                Vad.context_ := []; Vad.sr_tensor_ := 0; Vad.in_speech_ := false;
                Vad.silence_samples_ := 0; Vad.speech_start_samples_ := 0;
                Vad.speech_buf_ := []; Vad.segments_ := [] |}
  end.

(** A stand-in for the recognizer: every segment is heard as the same
    word. *)
Definition toy_recognize (audio : list f32) (sr : Z) : string := "da".

(** A clock that advances one millisecond per reading. *)
Definition toy_clock (n : nat) : Z := 1000000 * Z.of_nat n.

(** A stand-in for [fmt]: digits are not rendered. *)
Definition toy_fmt (decimals : nat) (x : f32) : string := "#".

(** The server configuration matching [small_vad_config]; a session is
    auto-finalized after more than three seconds (24 samples). *)
Definition small_config : Conf.Config :=
  {| Conf.host := "0.0.0.0"; Conf.port := 8081; Conf.threads := 1;
     Conf.model_dir := "models"; Conf.vad_model := "silero_vad.onnx";
     Conf.provider := "cpu"; Conf.num_threads := 1;
     Conf.sample_rate := 8; Conf.feature_dim := 64;
     Conf.vad_threshold := f32_ratio 1 2;
     Conf.vad_min_silence := f32_ratio 3 4;
     Conf.vad_min_speech := f32_ratio 1 4;
     Conf.vad_max_speech := f32_of_Z 1;
     Conf.vad_window_size := 4; Conf.vad_context_size := 1;
     Conf.recognizer_pool_size := 1; Conf.max_concurrent_requests := 2;
     Conf.silence_threshold := f32_ratio 8 1000;
     Conf.min_audio_sec := f32_ratio 1 2;
     Conf.max_audio_sec := f32_of_Z 3;
     Conf.max_upload_bytes := 104857600;
     Conf.max_ws_message_bytes := 4194304 |}.

(** A session as its constructor leaves it, with an empty metrics log
    and an unread clock. *)
Definition fresh_world : Session.World :=
  match Session.construct toy_clock (Conf.vad_config_of small_config) small_config [] 0 with
  | inr w => w
  | inl _ =>
      {| Session.sess :=
           {| Session.out_messages_ := []; Session.out_size_ := 0;
              Session.vad_ := fresh_vad small_vad_config;
              Session.config_ := small_config; Session.pending_ := [];
              Session.start_ts_ := 0; Session.first_result_ts_ := 0;
              Session.has_first_result_ := false; Session.segments_ := 0;
              Session.silence_segments_ := 0; Session.decode_sec_ := zero;
              Session.preprocess_sec_ := zero; Session.audio_samples_ := 0;
              Session.total_samples_received_ := 0; Session.session_active_ := false;
              Session.max_duration_exceeded_ := false; Session.chunks_ := 0;
              Session.bytes_ := 0 |};
         Session.metrics := []; Session.ticks := 0 |}
  end.

Definition toy_run := Session.run toy_model toy_recognize toy_clock toy_fmt.
Definition toy_step := Session.step toy_model toy_recognize toy_clock toy_fmt.

(** A pool of two slots, the first one busy. *)
Definition busy_free_pool : list Recognizer.Slot :=
  [ {| Recognizer.handle := Some 1; Recognizer.in_use := true |};
    {| Recognizer.handle := Some 2; Recognizer.in_use := false |} ].

(** An inference library that cannot create a stream for handle 2. *)
Definition no_stream_for_2 (h : option Recognizer.handle_t) : option Recognizer.stream_t :=
  match h with
  | Some 2 => None
  | Some h => Some (100 + h)
  | None => None
  end.

Definition toy_decode (h : option Recognizer.handle_t) (st : Recognizer.stream_t)
    (sr : Z) (audio : list f32) : option (option string) := Some (Some " da ").

(** A converter without memory that yields the rounded number of
    frames, all zero, as far as the capacity allows. *)
Definition toy_src_process (st : unit) (ratio : f64) (input : list f32) (capacity : Z)
    (end_of_input : bool) : Z * Z * list f32 * unit :=
  (0, size input,
   replicate (Z.to_nat (Z.min capacity (lround (f64_mul (f64_of_Z (size input)) ratio)))) zero,
   st).

(** The resampler the server inserts for a client at 48 kHz. *)
Definition resampler_48k : Resampler.StreamResampler unit :=
  {| Resampler.state_ := tt;
     Resampler.ratio_ := f64_div (f64_of_Z 16000) (f64_of_Z 48000);
     Resampler.output_buf_ := [] |}.

(** A container parser that reports a mono file of one frame more than
    an hour at 48 kHz. *)
Definition long_wav (data : list Z) : option Wav.drwav :=
  Some {| Wav.channels := 1; Wav.sampleRate := 48000;
          Wav.totalPCMFrameCount := 48000 * 3600 + 1 |}.

Definition toy_read_frames (data : list Z) (n : Z) : list f32 := [].
Definition toy_src_simple (input : list f32) (ratio : f64) (capacity : Z) : Z * list f32 :=
  (0, []).

(** A converter library whose [src_new] succeeds. *)
Definition toy_src_new : option unit := Some tt.
Definition toy_src_reset (st : unit) : unit := st.

(** A stand-in for the JSON parser, on texts written without quotes. *)
Definition toy_probe (msg : string) : Ws.json_probe :=
  if bool_decide (msg = "{sample_rate:48000}") then Ws.JsonRate 48000
  else if bool_decide (msg = "{sample_rate:44100}") then Ws.JsonRate 44100
  else if bool_decide (msg = "{sample_rate:100}") then Ws.JsonRate 100
  else if bool_decide (msg = "{}") then Ws.JsonWithoutRate
  else Ws.JsonParseError.

Definition toy_handle_all :=
  Ws.handle_all unit toy_src_new toy_src_process toy_src_reset toy_model toy_recognize
                toy_clock toy_fmt toy_probe small_config.

(** A new connection around the fresh session. *)
Definition fresh_conn : Ws.Conn unit :=
  Ws.open_connection unit toy_clock (Session.sess fresh_world) [] 1.

(** The defaults of include/asr/config.h on a machine with eight
    hardware threads. *)
Definition default_config : Conf.Config :=
  {| Conf.host := "0.0.0.0"; Conf.port := 8081; Conf.threads := 8;
     Conf.model_dir := "models/sherpa-onnx-nemo-transducer-punct-giga-am-v3-russian-2025-12-16";
     Conf.vad_model := "models/silero_vad.onnx";
     Conf.provider := "cpu"; Conf.num_threads := 4;
     Conf.sample_rate := 16000; Conf.feature_dim := 64;
     Conf.vad_threshold := f32_ratio 1 2;
     Conf.vad_min_silence := f32_ratio 1 2;
     Conf.vad_min_speech := f32_ratio 1 4;
     Conf.vad_max_speech := f32_of_Z 20;
     Conf.vad_window_size := 512; Conf.vad_context_size := 64;
     Conf.recognizer_pool_size := 0; Conf.max_concurrent_requests := 0;
     Conf.silence_threshold := f32_ratio 8 1000;
     Conf.min_audio_sec := f32_ratio 1 2;
     Conf.max_audio_sec := f32_of_Z 30;
     Conf.max_upload_bytes := 100 * 1024 * 1024;
     Conf.max_ws_message_bytes := 4 * 1024 * 1024 |}.

(** [default_config] after [validate]: the pool and the request limit
    are derived from the thread count. *)
Definition default_validated : Conf.Config :=
  match Conf.validate default_config with
  | inr c => c
  | inl _ => default_config
  end.

(** A run of speech closed by silence on the small detector: one segment
    of three windows is queued. *)
Definition spoken : list Vad.vad_call :=
  [Vad.AcceptWaveform (speech_window 4); Vad.AcceptWaveform (silence_window 4);
   Vad.AcceptWaveform (silence_window 4)].

(** A connection as [handleNewConnection] opens it. *)
Definition new_conn : Ws.Conn unit :=
  match Ws.handleNewConnection unit toy_clock small_config [] 0 with
  | inr c => c
  | inl _ => fresh_conn
  end.

(** Two samples of audio (0.0 and 1.0, little-endian), a reset, three
    bytes that are no sample, and the end of the utterance. *)
Definition chatter : list Ws.ws_message :=
  [Ws.Binary [0; 0; 0; 0; 0; 0; 128; 63]; Ws.Text "RESET"; Ws.Binary [1; 2; 3];
   Ws.Text "RECOGNIZE"].


(** A container parser that reports one mono frame at 16 kHz, and the
    reader that yields it. *)
Definition one_frame_wav (data : list Z) : option Wav.drwav :=
  Some {| Wav.channels := 1; Wav.sampleRate := 16000; Wav.totalPCMFrameCount := 1 |}.
Definition read_one_frame (data : list Z) (n : Z) : list f32 := [one].

(** A serialiser that never fails. *)
Definition toy_dump (text : string) (duration : f32) : option string := Some text.

(** A server with room for two requests, one of them under way, and a
    pool of one slot. *)
Definition small_server : Http.Server :=
  {| Http.sem := {| Http.max_count := 2; Http.count := 1 |};
     Http.pool := [ {| Recognizer.handle := Some 1; Recognizer.in_use := false |} ];
     Http.metrics := [];
     Http.ticks := 0;
     Http.responses := [] |}.

Definition toy_recognize_handler :=
  Http.recognize_handler small_config toy_clock one_frame_wav read_one_frame toy_src_simple
                         no_stream_for_2 toy_decode toy_dump.


(** An upload of one file, and the server after the request for it. *)
Definition one_file : option (list (list Z)) := Some [[82; 73; 70; 70]].
Definition served : Http.Server :=
  match toy_recognize_handler one_file small_server with
  | Some s => s
  | None => small_server
  end.


(** A serialiser that always fails, and the server started for
    [default_validated] around a pool of one slot. *)
Definition failing_dump (text : string) (duration : f32) : option string := None.
Definition idle_server : Http.Server :=
  Http.make default_validated
            [ {| Recognizer.handle := Some 1; Recognizer.in_use := false |} ] [] 0.
Definition unlucky : Http.Server :=
  match Http.recognize_handler default_validated toy_clock one_frame_wav read_one_frame
                               toy_src_simple no_stream_for_2 toy_decode failing_dump
                               one_file idle_server with
  | Some s => s
  | None => idle_server
  end.

End Fixture.

(** * Specification vocabulary *)

(** The predicates and relations in which the properties below are
    stated and proved. *)

Module VadSpec.

Import Scalar Float Vad.
Local Open Scope Z_scope.

(** What [finalize_segment] does, by cases on the buffer. *)
Inductive finalized (v : VoiceActivityDetector) : VoiceActivityDetector -> Prop :=
  | finalized_empty :
      speech_buf_ v = [] ->
      finalized v (set_machine v false 0 0 [])
  | finalized_short :
      speech_buf_ v <> [] ->
      flt (duration_of (config_ v) (speech_buf_ v)) (min_speech_duration (config_ v)) = true ->
      finalized v (set_machine v false 0 0 [])
  | finalized_kept :
      speech_buf_ v <> [] ->
      flt (duration_of (config_ v) (speech_buf_ v)) (min_speech_duration (config_ v)) = false ->
      finalized v (set_machine (set_segments v (segments_ v ++ [{| samples := speech_buf_ v |}]))
                               false 0 0 []).

(** [w] extends the queue of [v] by segments that are long enough and
    has the configuration of [v]. *)
Definition extends (v w : VoiceActivityDetector) : Prop :=
  config_ w = config_ v /\
  exists added, segments_ w = segments_ v ++ added /\
                Forall (long_enough (config_ v)) added.

End VadSpec.

Module SessionSpec.

Import Scalar Float Conf Metrics Session.
Local Open Scope Z_scope.

(** [post m w Q]: run from [w], [m] returns and [Q] holds of its result
    and of the state it leaves. *)
Definition post {A} (m : M A) (w : World) (Q : A -> World -> Prop) : Prop :=
  match m w with
  | (Ok a, w') => Q a w'
  | _ => False
  end.

(** [s] has the configuration, the detector configuration and the flag
    of [s0], and its view extends the view of [s0] by a list in [L]. *)
Definition evolves (L : list OutMessage -> Prop) (s0 s : ASRSession) : Prop :=
  config_ s = config_ s0 /\
  Vad.config_ (vad_ s) = Vad.config_ (vad_ s0) /\
  max_duration_exceeded_ s = max_duration_exceeded_ s0 /\
  buffer_ok s /\
  exists ms, view s = view s0 ++ ms /\ L ms.

(** [s'] has the message buffer of [s]. *)
Definition same_buffer (s s' : ASRSession) : Prop :=
  out_messages_ s' = out_messages_ s /\ out_size_ s' = out_size_ s.

(** An assignment [f] to members other than the buffer, the
    configuration, the detector's configuration and the flag. *)
Definition silent (f : ASRSession -> ASRSession) : Prop :=
  forall s, same_buffer s (f s) /\ config_ (f s) = config_ s /\
            Vad.config_ (vad_ (f s)) = Vad.config_ (vad_ s) /\
            max_duration_exceeded_ (f s) = max_duration_exceeded_ s.

(** A [silent] assignment that leaves the pending samples too. *)
Definition quiet (f : ASRSession -> ASRSession) : Prop :=
  silent f /\ forall s, pending_ (f s) = pending_ s.

(** The append of a message [m] to the view. *)
Definition write (m : OutMessage) (s : ASRSession) : ASRSession :=
  set_out_size_ (out_size_ s + 1)
    (set_out_messages_
       (<[Z.to_nat (out_size_ s) := m]>
          (if size (out_messages_ s) <=? out_size_ s
           then out_messages_ s ++ [OutMessage_default] else out_messages_ s)) s).

Definition has_type (t : MsgType) (m : OutMessage) : Prop := type m = t.

(** Total-correctness triples over the session object. *)
Definition hoare {A} (P : ASRSession -> Prop) (m : M A) (Q : A -> ASRSession -> Prop) : Prop :=
  forall w, P (sess w) -> post m w (fun a w' => Q a (sess w')).

(** [m] returns and keeps [R] of the session. *)
Definition preserves {A} (R : ASRSession -> Prop) (m : M A) : Prop :=
  hoare R m (fun _ => R).

(** [s] is [s0] after messages that satisfy [P] were written and
    members other than the buffer, the configuration, the flag and the
    pending samples were assigned. *)
Definition wrote (P : OutMessage -> Prop) (s0 s : ASRSession) : Prop :=
  evolves (Forall P) s0 s /\ pending_ s = pending_ s0.

(** The session is in step with [s0]: it evolved from it by [L], its
    detector takes the windows it cuts, the flag is clear, and fewer
    samples than a window are pending. *)
Definition live (L : list OutMessage -> Prop) (s0 s : ASRSession) : Prop :=
  evolves L s0 s /\ coherent s /\ max_duration_exceeded_ s = false /\
  size (pending_ s) < vad_window_size (config_ s).

(** As [live], with exactly one window pending. *)
Definition armed (L : list OutMessage -> Prop) (s0 s : ASRSession) : Prop :=
  evolves L s0 s /\ coherent s /\ max_duration_exceeded_ s = false /\
  size (pending_ s) = vad_window_size (config_ s).

Definition not_done (m : OutMessage) : Prop := ~ is_done m.

(** The session was closed out: its view is the view of [s0] followed
    by messages that end with the only [Done]. *)
Definition closed (flag : bool) (s0 s : ASRSession) : Prop :=
  config_ s = config_ s0 /\ buffer_ok s /\
  (exists ms, view s = view s0 ++ ms /\ ends_with_single_done ms) /\
  coherent s /\ max_duration_exceeded_ s = flag.

(** What a call of [on_audio] or [on_recognize] that started from [s0]
    with the flag clear returned and left. *)
Definition returned (s0 : ASRSession) (ms : list OutMessage) (s : ASRSession) : Prop :=
  ms = view s /\ well_formed s /\ config_ s = config_ s0.

(** The assignments of [reset_session] for the clock reading [t]. *)
Definition reset_fields (t : Z) (s : ASRSession) : ASRSession :=
  set_max_duration_exceeded_ false
    (set_total_samples_received_ 0
       (set_bytes_ 0
          (set_chunks_ 0
             (set_audio_samples_ 0
                (set_preprocess_sec_ (f64_of_Z 0)
                   (set_decode_sec_ (f64_of_Z 0)
                      (set_silence_segments_ 0
                         (set_segments_ 0
                            (set_has_first_result_ false
                               (set_first_result_ts_ 0 (set_start_ts_ t s))))))))))).

(** The session part of [on_reset]: what is assigned before
    [reset_session]. *)
Definition cleared (s : ASRSession) : ASRSession :=
  set_pending_ [] (set_vad_ (Vad.reset (vad_ s))
    (set_session_active_ false (set_max_duration_exceeded_ false s))).

End SessionSpec.

Module WsSpec.

Import Scalar Float Ws.
Local Open Scope Z_scope.

Section Controller.

Variable src_state : Type.

(** What an announcement fixes for the connection: the flag, the rate
    conversion, and the resamplers constructed. *)
Definition locked (c : Conn src_state) : bool * option f64 * list (Z * Z) :=
  (sample_rate_received src_state c, conversion src_state c, resamplers_made src_state c).

(** At most one resampler has been constructed, and none before an
    announcement was received. *)
Definition at_most_one (c : Conn src_state) : Prop :=
  (sample_rate_received src_state c = false -> resamplers_made src_state c = []) /\
  (length (resamplers_made src_state c) <= 1)%nat.

End Controller.

End WsSpec.

Module ConfSpec.

Import Scalar Float Conf.
Local Open Scope Z_scope.

(** The threshold test shared by [Config::validate] and the detector's
    constructor: at most 0 or at least 1. *)
Definition threshold_outside (t : f32) : bool :=
  fle t (f32_of_Z 0) || fge t (f32_of_Z 1).

(** [hi] was raised above [lo] by [validate], or already compared
    above it: the state of a pair (minimum, maximum) after the call. *)
Definition lifted (lo hi step : f32) : Prop :=
  fle hi lo = false \/ hi = f32_add lo step.

(** What [validate] establishes. *)
Definition settled (c : Config) : Prop :=
  8000 <= sample_rate c <= 48000 /\
  64 <= vad_window_size c <= 4096 /\
  0 <= vad_context_size c < vad_window_size c /\
  1 <= num_threads c <= 128 /\
  1 <= threads c <= 256 /\
  1 <= recognizer_pool_size c <= 256 /\
  max_concurrent_requests c <> 0 /\
  0 < feature_dim c /\ port c <> 0 /\
  max_upload_bytes c <> 0 /\ max_ws_message_bytes c <> 0 /\
  threshold_outside (vad_threshold c) = false /\
  flt (min_audio_sec c) (f32_of_Z 0) = false /\
  fle (vad_min_silence c) (f32_of_Z 0) = false /\
  fle (vad_min_speech c) (f32_of_Z 0) = false /\
  lifted (min_audio_sec c) (max_audio_sec c) (f32_of_Z 30) /\
  lifted (vad_min_speech c) (vad_max_speech c) (f32_of_Z 10).

End ConfSpec.

Module JsonSpec.

Local Open Scope nat_scope.

(** The value of a hexadecimal digit. *)
Definition hex_value (c : ascii) : option nat :=
  let n := nat_of_ascii c in
  if (48 <=? n) && (n <=? 57) then Some (n - 48)
  else if (97 <=? n) && (n <=? 102) then Some (n - 87)
  else if (65 <=? n) && (n <=? 70) then Some (n - 55)
  else None.

(** The character an escape letter stands for (RFC 8259, section 7). *)
Definition simple_escape (e : ascii) : option ascii :=
  let n := nat_of_ascii e in
  if n =? 34 then Some (ascii_of_nat 34)          (* quotation mark *)
  else if n =? 92 then Some (ascii_of_nat 92)     (* reverse solidus *)
  else if n =? 47 then Some (ascii_of_nat 47)     (* solidus *)
  else if n =? 98 then Some (ascii_of_nat 8)      (* b *)
  else if n =? 102 then Some (ascii_of_nat 12)    (* f *)
  else if n =? 110 then Some (ascii_of_nat 10)    (* n *)
  else if n =? 114 then Some (ascii_of_nat 13)    (* r *)
  else if n =? 116 then Some (ascii_of_nat 9)     (* t *)
  else None.

(** A reader of the inside of a JSON string, byte by byte: [None] when
    the text is not the inside of a JSON string (a bare quotation mark,
    a bare control character, a broken escape), or when it escapes a
    code point above 255. *)
Fixpoint json_unescape (s : string) : option string :=
  match s with
  | EmptyString => Some EmptyString
  | String c rest =>
      let n := nat_of_ascii c in
      if n =? 34 then None
      else if n <? 32 then None
      else if n =? 92 then
        match rest with
        | String e rest' =>
            if nat_of_ascii e =? 117 then
              match rest' with
              | String h1 (String h2 (String h3 (String h4 rest''))) =>
                  match hex_value h1, hex_value h2, hex_value h3, hex_value h4 with
                  | Some d1, Some d2, Some d3, Some d4 =>
                      let code := d1 * 4096 + d2 * 256 + d3 * 16 + d4 in
                      if code <? 256
                      then String (ascii_of_nat code) <$> json_unescape rest''
                      else None
                  | _, _, _, _ => None
                  end
              | _ => None
              end
            else
              match simple_escape e with
              | Some x => String x <$> json_unescape rest'
              | None => None
              end
        | EmptyString => None
        end
      else String c <$> json_unescape rest
  end.

End JsonSpec.

Module RecognizerSpec.

Import Recognizer.

(** Every character of [s] is one of the four that [recognize] trims. *)
Fixpoint all_space (s : string) : bool :=
  match s with
  | EmptyString => true
  | String c rest => is_space c && all_space rest
  end.

Definition first_char (s : string) : option ascii :=
  match s with
  | EmptyString => None
  | String c _ => Some c
  end.

Fixpoint last_char (s : string) : option ascii :=
  match s with
  | EmptyString => None
  | String c EmptyString => Some c
  | String _ rest => last_char rest
  end.

(** [s] neither starts nor ends with a trimmed character. *)
Definition trimmed (s : string) : Prop :=
  (forall c, first_char s = Some c -> is_space c = false) /\
  (forall c, last_char s = Some c -> is_space c = false).

(** The number of slots the constructor makes for a configuration. *)
Definition pool_size_of (cfg : Conf.Config) : Z :=
  if (0 <? Conf.recognizer_pool_size cfg)%Z then Conf.recognizer_pool_size cfg else 1%Z.

(** The inference threads the constructor gives each slot. *)
Definition threads_per_slot_of (cfg : Conf.Config) : Z :=
  Z.max 1 (Z.quot (Conf.num_threads cfg) (pool_size_of cfg)).

End RecognizerSpec.

Module DetectorSpec.

Import Scalar Float Vad.
Local Open Scope Z_scope.

Definition min_silence_samples (cfg : VadConfig) : Z :=
  to_i64 (f32_mul (min_silence_duration cfg) (f32_of_Z (sample_rate cfg))).

(** The members of the segmentation state machine, the queue and the
    configuration. *)
Definition machine (v : VoiceActivityDetector) :=
  (in_speech_ v, silence_samples_ v, speech_start_samples_ v, speech_buf_ v,
   segments_ v, config_ v).

(** The silence counter after the window of this call was counted. *)
Definition pause_counter (v : VoiceActivityDetector) : Z :=
  wrap_i64 (silence_samples_ v + window_size (config_ v)).

(** What a call of [accept_waveform] that returns does to the state
    machine, by the branch taken: a speech window that continues or
    starts a run, one that force-splits it, a silence window inside a run
    that continues it, one that closes it, and a silence window outside
    of a run. *)
Inductive accepted (v : VoiceActivityDetector) (smp : list f32)
    : VoiceActivityDetector -> Prop :=
  | accepted_speech u :
      machine u = (true, 0, run_counter v, run_buffer v smp, segments_ v, config_ v) ->
      run_counter v < max_speech_samples (config_ v) ->
      accepted v smp u
  | accepted_split u :
      machine u = (true, 0, run_counter v, run_buffer v smp, segments_ v, config_ v) ->
      max_speech_samples (config_ v) <= run_counter v ->
      accepted v smp (finalize_segment u)
  | accepted_pause u :
      in_speech_ v = true ->
      machine u = (true, pause_counter v, run_counter v, run_buffer v smp,
                   segments_ v, config_ v) ->
      pause_counter v < min_silence_samples (config_ v) ->
      accepted v smp u
  | accepted_close u :
      in_speech_ v = true ->
      machine u = (true, pause_counter v, run_counter v, run_buffer v smp,
                   segments_ v, config_ v) ->
      min_silence_samples (config_ v) <= pause_counter v ->
      accepted v smp (finalize_segment u)
  | accepted_ignored u :
      in_speech_ v = false ->
      machine u = machine v ->
      accepted v smp u.

(** The samples of a call that the detector takes in: those of an
    [accept_waveform] whose size passes the check. *)
Definition heard (cfg : VadConfig) (c : vad_call) : list f32 :=
  match c with
  | AcceptWaveform smp => if wrap_int (size smp) =? window_size cfg then smp else []
  | Flush => []
  end.

(** The audio taken in over a sequence of calls. *)
Definition taken (cfg : VadConfig) (cs : list vad_call) : list f32 :=
  concat (map (heard cfg) cs).

(** [s] is a contiguous part of [l]. *)
Definition infix {A} (s l : list A) : Prop := exists pre post, l = pre ++ s ++ post.

(** Every window offered holds fewer than 2^32 samples. *)
Definition windows_bounded (cs : list vad_call) : Prop :=
  Forall (fun c => match c with
                   | AcceptWaveform smp => size smp < 2 ^ 32
                   | Flush => True
                   end) cs.

(** The longest run the detector enqueues: the force-split limit, the
    silence that closes a run, and one window. *)
Definition longest_run (cfg : VadConfig) : Z :=
  Z.max (max_speech_samples cfg) 0 + Z.max (min_silence_samples cfg) 0 + window_size cfg.

(** The detector is outside of a run, with nothing buffered. *)
Definition idle (v : VoiceActivityDetector) : Prop :=
  in_speech_ v = false /\ silence_samples_ v = 0 /\ speech_start_samples_ v = 0 /\
  speech_buf_ v = [].

(** The buffers have the sizes the constructor gives them, and the
    sample-rate tensor holds the configured rate. *)
Definition shaped (v : VoiceActivityDetector) : Prop :=
  0 <= context_size (config_ v) < window_size (config_ v) /\
  window_size (config_ v) < 2 ^ 31 /\
  sr_tensor_ v = sample_rate (config_ v) /\
  length (state_ v) = kStateSize /\
  length (context_ v) = Z.to_nat (context_size (config_ v)) /\
  length (input_buf_ v) = Z.to_nat (context_size (config_ v) + window_size (config_ v)).

(** [v] with the scratch tensor [input_buf_] holding [b]. *)
Definition with_scratch (b : list f32) (v : VoiceActivityDetector) : VoiceActivityDetector :=
  {| config_ := config_ v; state_ := state_ v; input_buf_ := b; context_ := context_ v;
     sr_tensor_ := sr_tensor_ v; in_speech_ := in_speech_ v;
     silence_samples_ := silence_samples_ v;
     speech_start_samples_ := speech_start_samples_ v;
     speech_buf_ := speech_buf_ v; segments_ := segments_ v |}.

(** [w] is [v] but for the contents of the scratch tensor, which
    [infer] overwrites before the network reads it. *)
Definition same_but_scratch (v w : VoiceActivityDetector) : Prop :=
  exists b, length b = length (input_buf_ v) /\ w = with_scratch b v.

(** The network returns a recurrent state of the size of the state
    tensor, as the copy in [infer] assumes. *)
Definition keeps_state_size (vad_model : list f32 -> list f32 -> Z -> f32 * list f32) : Prop :=
  forall inp st sr, length st = kStateSize -> length (snd (vad_model inp st sr)) = kStateSize.

End DetectorSpec.

Module DetectorInv.

Import Scalar Float Vad DetectorSpec.
Local Open Scope Z_scope.

(** The buffer is the end of the audio taken in, it is empty outside of
    a run, and every queued segment is a contiguous part of that audio. *)
Definition runs_of (cfg : VadConfig) (inp : list f32) (v : VoiceActivityDetector) : Prop :=
  config_ v = cfg /\
  (exists pre, inp = pre ++ speech_buf_ v) /\
  (in_speech_ v = false -> speech_buf_ v = []) /\
  Forall (fun seg => infix (samples seg) inp) (segments_ v).

(** [n] samples are [k] windows, with [k] at least [least]. *)
Definition windows (cfg : VadConfig) (least n : Z) : Prop :=
  exists k, least <= k /\ n = k * window_size cfg.

(** The buffer holds whole windows and every queued segment at least
    one. *)
Definition windowed (cfg : VadConfig) (inp : list f32) (v : VoiceActivityDetector) : Prop :=
  config_ v = cfg /\ 0 < window_size cfg /\
  windows cfg 0 (size (speech_buf_ v)) /\
  Forall (fun seg => windows cfg 1 (size (samples seg))) (segments_ v).

(** Inside a run the counters count the buffer (the silence counter its
    tail of silence), the run before that silence is below the
    force-split limit and the silence below what closes a run; every
    queued segment is at most [longest_run]. *)
Definition bounded_runs (cfg : VadConfig) (inp : list f32) (v : VoiceActivityDetector) : Prop :=
  config_ v = cfg /\ 0 < window_size cfg /\ longest_run cfg < 2 ^ 63 /\
  (in_speech_ v = true ->
   speech_start_samples_ v = size (speech_buf_ v) /\
   0 <= silence_samples_ v <= speech_start_samples_ v /\
   (silence_samples_ v = 0 \/ silence_samples_ v < min_silence_samples cfg) /\
   speech_start_samples_ v - silence_samples_ v < max_speech_samples cfg) /\
  Forall (fun seg => size (samples seg) <= longest_run cfg) (segments_ v).

End DetectorInv.

Module DetectorTidy.

Import Scalar Float Vad DetectorSpec.
Local Open Scope Z_scope.

(** Outside of a run the state machine is at rest; inside of one the
    buffer holds audio. *)
Definition tidy (cfg : VadConfig) (inp : list f32) (v : VoiceActivityDetector) : Prop :=
  config_ v = cfg /\ 0 < window_size cfg /\
  (in_speech_ v = false -> idle v) /\
  (in_speech_ v = true -> speech_buf_ v <> []).

End DetectorTidy.

Module LedgerSpec.

Import Scalar Float Conf Metrics Session.
Local Open Scope Z_scope.

Definition is_session_started (e : MetricEvent) : bool :=
  match e with SessionStarted => true | _ => false end.

(** The number of events of a kind in a log. *)
Definition count (kind : MetricEvent -> bool) (log : list MetricEvent) : Z :=
  Z.of_nat (length (filter (fun e => kind e = true) log)).

(** The sessions the metrics hold as active: [session_started] calls
    less [session_ended] calls (the gauge [active_sessions]). *)
Definition open_sessions (w : World) : Z :=
  count is_session_started (metrics w) - count is_session_ended (metrics w).

(** This session's contribution to that gauge. *)
Definition active (w : World) : Z := if session_active_ (sess w) then 1 else 0.

(** What the accounting below depends on. *)
Definition ledger (w : World) : bool * Z * Z * Z :=
  (session_active_ (sess w), bytes_ (sess w), total_samples_received_ (sess w),
   open_sessions w).

(** The session is counted as active exactly while [session_active_] is
    set ([others] sessions are open besides), and [bytes_] is four times
    [total_samples_received_], as a [size_t]. *)
Definition accounted (others : Z) (w : World) : Prop :=
  open_sessions w = others + active w /\
  bytes_ (sess w) = wrap_size (4 * total_samples_received_ (sess w)).

(** [m] leaves the ledger as it is, however it ends. *)
Definition quietly {A} (m : M A) : Prop := forall w, ledger (snd (m w)) = ledger w.

(** [ensures R m w Q]: run from [w], [m] returns with [Q], or it ends
    otherwise in a state of [R]. *)
Definition ensures {A} (R : World -> Prop) (m : M A) (w : World)
    (Q : A -> World -> Prop) : Prop :=
  match m w with
  | (Ok a, w') => Q a w'
  | (_, w') => R w'
  end.

End LedgerSpec.

Module LedgerInv.

Import Session LedgerSpec.

(** [m] keeps the accounting, however it ends. *)
Definition stable {A} (others : Z) (m : M A) : Prop :=
  forall w, accounted others w ->
            ensures (accounted others) m w (fun _ w' => accounted others w').

End LedgerInv.

Module ConnSpec.

Import Scalar Float Conf Metrics Ws.
Local Open Scope Z_scope.

Section Controller.

Variable src_state : Type.

(** The close reason the connection will report and the close the
    handler asked for go together. *)
Definition verdict_ok (c : Conn src_state) : Prop :=
  (close_reason src_state c = "normal" /\ shutdown src_state c = None) \/
  (close_reason src_state c = "message_too_large" /\
   shutdown src_state c = Some (kViolation, "Message too large")) \/
  (close_reason src_state c = "internal_error" /\
   shutdown src_state c = Some (kUnexpectedCondition, "Internal error")).

(** The invariant of a connection: its session satisfies the session
    invariant and the session accounting, and the close reason goes with
    the close asked for. *)
Definition sound (others : Z) (c : Conn src_state) : Prop :=
  Session.well_formed (session src_state c) /\
  LedgerSpec.accounted others (world_of src_state c) /\
  verdict_ok c.

(** The body of the handler returned or raised, and left a sound
    connection. *)
Definition fine (others : Z) (r : Session.outcome unit * Conn src_state) : Prop :=
  fst r <> Session.Diverge /\ sound others (snd r).

(** A binary message that [handleNewMessage] hands to the session. *)
Definition is_audio (config : Config) (m : ws_message) : bool :=
  match m with
  | Binary msg =>
      negb (wrap_size (max_ws_message_bytes config) <? size msg)
      && negb ((size msg <? 4) || negb (size msg mod 4 =? 0))
  | _ => false
  end.

Definition is_recognize (m : ws_message) : bool :=
  match m with
  | Text msg => bool_decide (msg = "RECOGNIZE")
  | _ => false
  end.

End Controller.

End ConnSpec.

Module HttpSpec.

Import Scalar Float Conf Metrics Http.
Local Open Scope Z_scope.

Definition is_request (e : MetricEvent) : bool :=
  match e with ObserveRequest _ _ _ _ _ _ _ _ _ => true | _ => false end.

Definition is_success (e : MetricEvent) : bool :=
  match e with ObserveRequest _ _ _ _ _ _ _ _ "success" => true | _ => false end.

Definition is_error (e : MetricEvent) : bool :=
  match e with ObserveError _ => true | _ => false end.

(** The statuses told apart below. *)
Definition refused (r : Response) : bool :=
  match status r with k503ServiceUnavailable => true | _ => false end.

Definition internal_error (r : Response) : bool :=
  match status r with k500InternalServerError => true | _ => false end.

Definition succeeded (r : Response) : bool :=
  match status r with k200OK => true | _ => false end.

(** The gauge [active_sessions] after the calls of a log. *)
Definition open_sessions (log : list MetricEvent) : Z :=
  LedgerSpec.count LedgerSpec.is_session_started log - LedgerSpec.count is_session_ended log.

(** A semaphore as the server sets it up and [size_t] holds it. *)
Definition well_formed (x : RequestSemaphore) : Prop :=
  0 <= count x < 2 ^ 64.

End HttpSpec.

Module HttpOutcome.

Import Scalar Float Conf Metrics Http.
Local Open Scope Z_scope.

Section Handler.

Variable config : Config.
Variable drwav_init_memory : list Z -> option Wav.drwav.
Variable drwav_read_pcm_frames_f32 : list Z -> Z -> list f32.
Variable src_simple : list f32 -> f64 -> Z -> Z * list f32.
Variable create_stream : option Recognizer.handle_t -> option Recognizer.stream_t.
Variable decode :
  option Recognizer.handle_t -> Recognizer.stream_t -> Z -> list f32 -> option (option string).

(** The semaphore has room for the request. *)
Definition admitted (s : Server) : Prop := count (sem s) < max_count (sem s).

(** The first file of the upload is larger than the limit. *)
Definition oversized (upload : option (list (list Z))) : Prop :=
  exists file rest,
    upload = Some (file :: rest) /\ wrap_size (max_upload_bytes config) < size file.

(** The first file of the upload is within the limit and not empty, it
    decodes to [audio], and the recognizer returns [text] for it. *)
Definition transcribed (upload : option (list (list Z))) (s : Server)
    (audio : Wav.AudioData) (text : string) : Prop :=
  exists file rest slots,
    upload = Some (file :: rest) /\
    file <> [] /\
    size file <= wrap_size (max_upload_bytes config) /\
    Wav.decode_wav drwav_init_memory drwav_read_pcm_frames_f32 src_simple
                   file (sample_rate config) = inr audio /\
    Recognizer.recognize create_stream decode (pool s) (Wav.samples audio) (sample_rate config)
      = Recognizer.Returned text slots.

End Handler.

End HttpOutcome.

Module ReplySpec.

Import Session SessionSpec.

(** Messages of segments recognized. *)
Definition finals (ms : list OutMessage) : Prop := Forall (has_type Final) ms.

(** What a chunk of audio is answered with: the finals of the segments
    it completed, at least one, or else one interim. *)
Definition progress (ms : list OutMessage) : Prop :=
  (ms <> [] /\ finals ms) \/ (exists m, ms = [m] /\ has_type Interim m).

(** What closes a session: the finals of the segments left, and done. *)
Definition closing (ms : list OutMessage) : Prop :=
  exists fs d, ms = fs ++ [d] /\ finals fs /\ has_type Done d.

(** [L1], then [L2]. *)
Definition followed (L1 L2 : list OutMessage -> Prop) (ms : list OutMessage) : Prop :=
  exists a b, ms = a ++ b /\ L1 a /\ L2 b.

(** The view of [s] is the view of [s0] and a list in [L]. *)
Definition said (L : list OutMessage -> Prop) (s0 s : ASRSession) : Prop :=
  exists ms, view s = view s0 ++ ms /\ L ms.

End ReplySpec.

Module LevelSpec.

Import Float.

(** Not below zero: a NaN, a zero of either sign, or a value with the
    sign bit clear. *)
Definition not_negative (x : spec_float) : bool :=
  match x with
  | S754_finite true _ _ | S754_infinity true => false
  | _ => true
  end.

End LevelSpec.

Module ResultStatsSpec.

Import ResultStats.
Local Open Scope Z_scope.

(** The words that start in [text], read after a character in a word
    ([in_word]) or not: the characters that are no separator and follow
    one, or the start. *)
Fixpoint starts (in_word : bool) (text : list ascii) : Z :=
  match text with
  | [] => 0
  | c :: rest =>
      if is_separator c then starts false rest
      else (if in_word then 0 else 1) + starts true rest
  end.

(** Whether the scan of [text] ends in a word. *)
Fixpoint ends_in_word (in_word : bool) (text : list ascii) : bool :=
  match text with
  | [] => in_word
  | c :: rest => ends_in_word (negb (is_separator c)) rest
  end.

(** A text short enough for the [int] counter. *)
Definition countable (text : string) : Prop := Z.of_nat (String.length text) < 2 ^ 31.

End ResultStatsSpec.

(** * Properties *)

(** ** Scalars *)

Module ScalarFacts.

Import Scalar.
Local Open Scope Z_scope.

Lemma wrap_size_small z : 0 <= z < 2 ^ 64 -> wrap_size z = z.
Proof. intros H. unfold wrap_size. now apply Z.mod_small. Qed.

Lemma wrap_int_small z : - 2 ^ 31 <= z < 2 ^ 31 -> wrap_int z = z.
Proof. intros H. unfold wrap_int. rewrite Z.mod_small; lia. Qed.

Lemma size_nonneg {A} (v : list A) : 0 <= size v.
Proof. unfold size. lia. Qed.

Lemma size_app {A} (u v : list A) : size (u ++ v) = size u + size v.
Proof. unfold size. rewrite length_app. lia. Qed.

Lemma size_nil_iff {A} (v : list A) : size v = 0 <-> v = [].
Proof. unfold size. destruct v; simpl; split; intros; try done; lia. Qed.

End ScalarFacts.

(** ** Floating point *)

Module FloatFacts.

Import Float.

Lemma SFcompare_antisym a b c :
  SFcompare a b = Some c -> SFcompare b a = Some (CompOpp c).
Proof.
  destruct a as [sa|sa| |sa ma ea], b as [sb|sb| |sb mb eb]; simpl;
    try discriminate; try (destruct sa); try (destruct sb);
    intros [= <-]; simpl; try reflexivity.
  - rewrite (Z.compare_antisym ea eb).
    destruct (ea ?= eb)%Z; simpl; try reflexivity.
    f_equal. rewrite CompOpp_involutive.
    exact (Pos.compare_cont_antisym mb ma Eq).
  - rewrite (Z.compare_antisym ea eb).
    destruct (ea ?= eb)%Z; simpl; try reflexivity.
    f_equal. symmetry. exact (Pos.compare_cont_antisym ma mb Eq).
Qed.

Lemma SFcompare_defined a b :
  is_nan a = false -> is_nan b = false -> exists c, SFcompare a b = Some c.
Proof.
  destruct a, b; simpl; try discriminate; intros _ _; eauto.
Qed.

(** Where neither operand is NaN, "not less than" is "at least". *)
Lemma fge_of_not_flt a b :
  is_nan a = false -> is_nan b = false -> flt a b = false -> fge a b = true.
Proof.
  intros Ha Hb. destruct (SFcompare_defined a b Ha Hb) as [c Hc].
  unfold flt, fge, SFltb, SFleb. rewrite Hc, (SFcompare_antisym _ _ _ Hc).
  destruct c; simpl; congruence.
Qed.

End FloatFacts.

(** ** Voice activity detector *)

Module VadFacts.

Import Scalar Float Vad VadSpec.
Local Open Scope Z_scope.

Lemma long_enough_of_not_short cfg buf :
  flt (duration_of cfg buf) (min_speech_duration cfg) = false ->
  long_enough cfg {| samples := buf |}.
Proof.
  intros H. split; [exact H|]. simpl. intros Hm Hd.
  now apply FloatFacts.fge_of_not_flt.
Qed.

Lemma finalize_segment_cases v : finalized v (finalize_segment v).
Proof.
  unfold finalize_segment.
  destruct (speech_buf_ v) as [|x buf] eqn:Hbuf.
  - now apply finalized_empty.
  - rewrite <- Hbuf.
    assert (Hne : speech_buf_ v <> []) by (rewrite Hbuf; discriminate).
    destruct (flt _ _) eqn:Hd.
    + now apply finalized_short.
    + now apply finalized_kept.
Qed.

Lemma extends_refl v : extends v v.
Proof. split; [reflexivity|]. exists []. now rewrite app_nil_r. Qed.

Lemma extends_trans u v w : extends u v -> extends v w -> extends u w.
Proof.
  intros [Hc1 (a1 & H1 & F1)] [Hc2 (a2 & H2 & F2)]. split; [congruence|].
  exists (a1 ++ a2). split.
  - rewrite H2, H1. now rewrite app_assoc.
  - apply Forall_app. split; [exact F1|]. now rewrite <- Hc1.
Qed.

Lemma finalize_segment_extends v : extends v (finalize_segment v).
Proof.
  destruct (finalize_segment_cases v) as [Hb|Hb Hd|Hb Hd].
  - split; [reflexivity|]. exists []. now rewrite app_nil_r.
  - split; [reflexivity|]. exists []. now rewrite app_nil_r.
  - split; [reflexivity|]. eexists. split; [reflexivity|].
    constructor; [|constructor]. now apply long_enough_of_not_short.
Qed.

Lemma set_machine_extends v sp sil start buf : extends v (set_machine v sp sil start buf).
Proof. split; [reflexivity|]. exists []. now rewrite app_nil_r. Qed.

Section Detector.

Variable vad_model : list f32 -> list f32 -> Z -> f32 * list f32.

Lemma infer_frame v smp prob v' :
  infer vad_model v smp = inr (prob, v') ->
  config_ v' = config_ v /\ segments_ v' = segments_ v /\
  in_speech_ v' = in_speech_ v /\ silence_samples_ v' = silence_samples_ v /\
  speech_start_samples_ v' = speech_start_samples_ v /\ speech_buf_ v' = speech_buf_ v.
Proof.
  unfold infer. destruct (negb _); [discriminate|].
  destruct (vad_model _ _ _) as [p st]. intros [= <- <-]. simpl. tauto.
Qed.

Lemma accept_waveform_extends v smp v' :
  accept_waveform vad_model v smp = inr v' -> extends v v'.
Proof.
  unfold accept_waveform. destruct (negb _); [discriminate|].
  destruct (infer vad_model v smp) as [e|[prob v1]] eqn:Hinf; [discriminate|].
  destruct (infer_frame _ _ _ _ Hinf) as (Hc & Hs & _).
  assert (H1 : extends v v1) by (split; [exact Hc|]; exists []; now rewrite app_nil_r).
  intros H. apply (extends_trans _ _ _ H1). clear H1 Hinf Hc Hs.
  destruct (fge prob _).
  - destruct (_ <=? _); injection H as <-.
    + eapply extends_trans; [|apply finalize_segment_extends].
      eapply extends_trans; [|apply set_machine_extends].
      destruct (in_speech_ v1); [apply extends_refl|apply set_machine_extends].
    + eapply extends_trans; [|apply set_machine_extends].
      destruct (in_speech_ v1); [apply extends_refl|apply set_machine_extends].
  - destruct (in_speech_ v1); [|injection H as <-; apply extends_refl].
    destruct (_ <=? _); injection H as <-.
    + eapply extends_trans; [|apply finalize_segment_extends]. apply set_machine_extends.
    + apply set_machine_extends.
Qed.

Lemma flush_extends v : extends v (flush v).
Proof.
  unfold flush. destruct (_ && _); [apply finalize_segment_extends|apply extends_refl].
Qed.

Lemma vad_step_extends c v : extends v (vad_step vad_model c v).
Proof.
  destruct c as [smp|]; simpl; [|apply flush_extends].
  destruct (accept_waveform vad_model v smp) eqn:H; [apply extends_refl|].
  now apply accept_waveform_extends in H.
Qed.

Lemma run_calls_extends cs v : extends v (run_calls vad_model cs v).
Proof.
  revert v. induction cs as [|c cs IH]; intros v; simpl; [apply extends_refl|].
  eapply extends_trans; [apply vad_step_extends|apply IH].
Qed.

(** C3. Over every sequence of [accept_waveform] and [flush] calls the
    ready queue only grows, and every segment appended to it has a
    duration (sample count over sample rate, in the code's [float]
    arithmetic) that is not below [min_speech_duration] -- at least
    [min_speech_duration] wherever the comparison is defined; a
    non-empty accumulated run that is shorter is dropped by
    [finalize_segment] without being enqueued. *)
Theorem vad_min_speech_duration (cs : list vad_call) (v : VoiceActivityDetector) :
  (exists added,
      segments_ (run_calls vad_model cs v) = segments_ v ++ added /\
      Forall (long_enough (config_ v)) added) /\
  (speech_buf_ v <> [] ->
   flt (duration_of (config_ v) (speech_buf_ v)) (min_speech_duration (config_ v)) = true ->
   segments_ (finalize_segment v) = segments_ v /\
   speech_buf_ (finalize_segment v) = [] /\
   in_speech_ (finalize_segment v) = false).
Proof.
  split; [apply run_calls_extends|].
  intros Hb Hd. destruct (finalize_segment_cases v) as [Hb'|Hb' Hd'|Hb' Hd']; simpl; try tauto.
  congruence.
Qed.

Lemma infer_probability v smp prob v' :
  infer vad_model v smp = inr (prob, v') -> probability vad_model v smp = prob.
Proof. unfold probability. now intros ->. Qed.

(** C4, as the code has it. In an [accept_waveform] call whose window is
    classified as speech (probability at least the threshold) and whose
    speech-run counter reaches [max_speech_samples], [finalize_segment]
    runs in that call: on return [in_speech] is false and counter and
    buffer are cleared; the accumulated run, with the window of this
    call, is appended to the ready queue as one segment unless its
    duration is below [min_speech_duration], in which case it is dropped
    and the queue is as before. *)
Theorem force_split_on_speech_window
    (v : VoiceActivityDetector) (smp : list f32) (v' : VoiceActivityDetector) :
  0 < window_size (config_ v) ->
  accept_waveform vad_model v smp = inr v' ->
  fge (probability vad_model v smp) (threshold (config_ v)) = true ->
  max_speech_samples (config_ v) <= run_counter v ->
  in_speech_ v' = false /\ speech_start_samples_ v' = 0 /\ speech_buf_ v' = [] /\
  (flt (duration_of (config_ v) (run_buffer v smp)) (min_speech_duration (config_ v)) = false ->
   segments_ v' = segments_ v ++ [{| samples := run_buffer v smp |}]) /\
  (flt (duration_of (config_ v) (run_buffer v smp)) (min_speech_duration (config_ v)) = true ->
   segments_ v' = segments_ v).
Proof.
  intros Hw. unfold accept_waveform.
  destruct (negb _) eqn:Hsz; [discriminate|].
  destruct (infer vad_model v smp) as [e|[prob v1]] eqn:Hinf; [discriminate|].
  rewrite (infer_probability _ _ _ _ Hinf).
  destruct (infer_frame _ _ _ _ Hinf) as (Hc & Hs & Hsp & Hsil & Hst & Hbuf).
  rewrite Hc. intros H Hp Hmax. rewrite Hp in H.
  assert (Hne : smp <> []).
  { intros ->. apply negb_false_iff, Z.eqb_eq in Hsz.
    change (wrap_int (size (@nil f32))) with 0 in Hsz. lia. }
  set (v2 := set_machine _ _ 0 _ _) in H.
  assert (Hcnt : speech_start_samples_ v2 = run_counter v).
  { unfold v2, run_counter. rewrite <- Hsp, <- Hst. now destruct (in_speech_ v1). }
  assert (Hrb : speech_buf_ v2 = run_buffer v smp).
  { unfold v2, run_buffer. rewrite <- Hsp, <- Hbuf. now destruct (in_speech_ v1). }
  assert (Hc2 : config_ v2 = config_ v) by (unfold v2; now destruct (in_speech_ v1)).
  assert (Hs2 : segments_ v2 = segments_ v) by (unfold v2; now destruct (in_speech_ v1)).
  unfold max_speech_samples in Hmax. rewrite <- Hcnt in Hmax.
  apply Z.leb_le in Hmax. rewrite Hmax in H. injection H as <-.
  assert (Hne2 : speech_buf_ v2 <> []).
  { rewrite Hrb. unfold run_buffer. intros Happ. apply app_eq_nil in Happ. tauto. }
  rewrite <- Hrb, <- Hc2, <- Hs2. clearbody v2.
  destruct (finalize_segment_cases v2) as [Hb|Hb Hd|Hb Hd]; simpl;
    repeat split; try reflexivity; try congruence.
Qed.

End Detector.

Import Fixture.

(** Two speech windows on a fresh detector: the second one reaches the
    eight samples of [max_speech_duration] and the run is enqueued. *)
Lemma force_split_on_speech_window_witness :
  let v := vad_step toy_model (AcceptWaveform (speech_window 4)) (fresh_vad small_vad_config) in
  let v' := vad_step toy_model (AcceptWaveform (speech_window 4)) v in
  in_speech_ v' = false /\ speech_start_samples_ v' = 0 /\ speech_buf_ v' = [] /\
  segments_ v' = segments_ v ++ [{| samples := speech_window 8 |}].
Proof.
  intros v v'.
  assert (A1 : 0 < window_size (config_ v)) by (vm_compute; reflexivity).
  assert (A2 : accept_waveform toy_model v (speech_window 4) = inr v')
    by (vm_compute; reflexivity).
  assert (A3 : fge (probability toy_model v (speech_window 4)) (threshold (config_ v)) = true)
    by (vm_compute; reflexivity).
  assert (A4 : max_speech_samples (config_ v) <= run_counter v)
    by (vm_compute; discriminate).
  destruct (force_split_on_speech_window toy_model v (speech_window 4) v' A1 A2 A3 A4)
    as (H1 & H2 & H3 & H4 & _).
  split; [exact H1|]. split; [exact H2|]. split; [exact H3|].
  rewrite H4; [reflexivity | vm_compute; reflexivity].
Defined.

(** A run of calls in which a segment is enqueued: speech, then two
    windows of silence. *)
Lemma vad_min_speech_duration_witness :
  exists added,
    segments_ (run_calls toy_model
                 [AcceptWaveform (speech_window 4); AcceptWaveform (silence_window 4);
                  AcceptWaveform (silence_window 4)] (fresh_vad small_vad_config))
    = segments_ (fresh_vad small_vad_config) ++ added /\
    Forall (long_enough (config_ (fresh_vad small_vad_config))) added.
Proof.
  exact (proj1 (vad_min_speech_duration toy_model
                  [AcceptWaveform (speech_window 4); AcceptWaveform (silence_window 4);
                   AcceptWaveform (silence_window 4)] (fresh_vad small_vad_config))).
Defined.

(** C4 does not hold as stated, for two reasons.
    (1) The force-split test is made on speech windows only. With the
    default windows of 512 samples at 16 kHz and [max_speech_duration]
    0.064 s (1024 samples), a speech window followed by a silence window
    leaves the detector in speech with its counter at 1024 and nothing
    enqueued (512 samples of silence are short of the 8000 of
    [min_silence_duration]).
    (2) [max_speech_samples] is rounded down. With windows of 4000
    samples at 8 kHz, [max_speech_duration] 1.0001 s (8000 samples) and
    [min_speech_duration] 1.00005 s below it, the second speech window
    reaches the limit, and the run of 8000 samples (1.0 s) is dropped as
    too short: nothing is enqueued. *)
Lemma force_split_counterexample :
  (let v0 := fresh_vad short_max_vad_config in
   let v := vad_step toy_model (AcceptWaveform (speech_window 512)) v0 in
   let v' := vad_step toy_model (AcceptWaveform (silence_window 512)) v in
   Vad.make short_max_vad_config = inr v0 /\
   accept_waveform toy_model v (silence_window 512) = inr v' /\
   in_speech_ v = true /\
   flt (min_speech_duration short_max_vad_config)
       (max_speech_duration short_max_vad_config) = true /\
   max_speech_samples short_max_vad_config = 1024 /\ run_counter v = 1024 /\
   segments_ v' = segments_ v /\ in_speech_ v' = true) /\
  (let v0 := fresh_vad tight_vad_config in
   let v := vad_step toy_model (AcceptWaveform (speech_window 4000)) v0 in
   let v' := vad_step toy_model (AcceptWaveform (speech_window 4000)) v in
   Vad.make tight_vad_config = inr v0 /\
   accept_waveform toy_model v (speech_window 4000) = inr v' /\
   in_speech_ v = true /\
   fge (probability toy_model v (speech_window 4000)) (threshold tight_vad_config) = true /\
   flt (min_speech_duration tight_vad_config) (max_speech_duration tight_vad_config) = true /\
   max_speech_samples tight_vad_config = 8000 /\ run_counter v = 8000 /\
   segments_ v' = segments_ v /\ segments_ v' = []).
Proof. vm_compute. repeat split. Qed.

End VadFacts.

(** ** Streaming session *)

Module SessionFacts.

Import Scalar ScalarFacts Float Conf Metrics Session SessionSpec.
Local Open Scope Z_scope.

Ltac sess_simpl :=
  cbn [sess metrics ticks set_sess set_metrics set_ticks
       out_messages_ out_size_ vad_ config_ pending_ start_ts_ first_result_ts_
       has_first_result_ segments_ silence_segments_ decode_sec_ preprocess_sec_
       audio_samples_ total_samples_received_ session_active_ max_duration_exceeded_
       chunks_ bytes_
       set_out_messages_ set_out_size_ set_vad_ set_pending_ set_start_ts_
       set_first_result_ts_ set_has_first_result_ set_segments_ set_silence_segments_
       set_decode_sec_ set_preprocess_sec_ set_audio_samples_
       set_total_samples_received_ set_session_active_ set_max_duration_exceeded_
       set_chunks_ set_bytes_] in *.


(** *** Total-correctness reasoning for member functions *)

Lemma post_ret {A} (a : A) w (Q : A -> World -> Prop) : Q a w -> post (mret a) w Q.
Proof. exact (fun H => H). Qed.

Lemma post_bind {A B} (m : M A) (f : A -> M B) w (Q : B -> World -> Prop) :
  post m w (fun a w' => post (f a) w' Q) -> post (m ≫= f) w Q.
Proof.
  unfold post, mbind, M_bind. destruct (m w) as [[a| |] w']; tauto.
Qed.

Lemma post_mono {A} (m : M A) w (Q Q' : A -> World -> Prop) :
  post m w Q -> (forall a w', Q a w' -> Q' a w') -> post m w Q'.
Proof. unfold post. destruct (m w) as [[a| |] w']; auto. Qed.

Lemma post_gets {A} (f : ASRSession -> A) w (Q : A -> World -> Prop) :
  Q (f (sess w)) w -> post (gets f) w Q.
Proof. exact (fun H => H). Qed.

Lemma post_modify f w (Q : unit -> World -> Prop) :
  Q tt (set_sess (f (sess w)) w) -> post (modify f) w Q.
Proof. exact (fun H => H). Qed.

Lemma post_observe e w (Q : unit -> World -> Prop) :
  Q tt (set_metrics (metrics w ++ [e]) w) -> post (observe e) w Q.
Proof. exact (fun H => H). Qed.

Lemma post_when (b : bool) m w (Q : unit -> World -> Prop) :
  (b = true -> post m w Q) -> (b = false -> Q tt w) -> post (when b m) w Q.
Proof.
  destruct b; intros H1 H2; [now apply H1 | now apply post_ret, H2].
Qed.

Lemma post_run {A} (m : M A) w (Q : A -> World -> Prop) :
  post m w Q -> exists a w', m w = (Ok a, w') /\ Q a w'.
Proof. unfold post. destruct (m w) as [[a| |] w']; try tauto. eauto. Qed.

Lemma post_now clock w (Q : Z -> World -> Prop) :
  Q (clock (ticks w)) (set_ticks (S (ticks w)) w) -> post (now clock) w Q.
Proof. exact (fun H => H). Qed.

(** One step of symbolic execution of a straight-line member function. *)
Ltac mstep :=
  lazymatch goal with
  | |- post (mbind _ _) _ _ => apply post_bind
  | |- post (mret _) _ _ => apply post_ret; cbv beta
  | |- post (gets _) _ _ => apply post_gets; cbv beta
  | |- post (modify _) _ _ => apply post_modify; cbv beta
  | |- post (observe _) _ _ => apply post_observe; cbv beta
  | |- post (now _) _ _ => apply post_now; cbv beta
  end.

(** *** The message buffer *)

(** Two sessions with the same members are the same session. *)
Lemma session_ext (s s' : ASRSession) :
  out_messages_ s = out_messages_ s' -> out_size_ s = out_size_ s' ->
  vad_ s = vad_ s' -> config_ s = config_ s' -> pending_ s = pending_ s' ->
  start_ts_ s = start_ts_ s' -> first_result_ts_ s = first_result_ts_ s' ->
  has_first_result_ s = has_first_result_ s' -> segments_ s = segments_ s' ->
  silence_segments_ s = silence_segments_ s' -> decode_sec_ s = decode_sec_ s' ->
  preprocess_sec_ s = preprocess_sec_ s' -> audio_samples_ s = audio_samples_ s' ->
  total_samples_received_ s = total_samples_received_ s' ->
  session_active_ s = session_active_ s' ->
  max_duration_exceeded_ s = max_duration_exceeded_ s' ->
  chunks_ s = chunks_ s' -> bytes_ s = bytes_ s' ->
  s = s'.
Proof. destruct s, s'. simpl. intros. subst. reflexivity. Qed.

Lemma world_ext (w w' : World) :
  sess w = sess w' -> metrics w = metrics w' -> ticks w = ticks w' -> w = w'.
Proof. destruct w, w'. simpl. intros. subst. reflexivity. Qed.

(** Writing [m] into the next slot appends it to the view. *)
Lemma view_write s m :
  buffer_ok s ->
  let buf := if size (out_messages_ s) <=? out_size_ s
             then out_messages_ s ++ [OutMessage_default] else out_messages_ s in
  let s' := set_out_size_ (out_size_ s + 1)
              (set_out_messages_ (<[Z.to_nat (out_size_ s) := m]> buf) s) in
  buffer_ok s' /\ view s' = view s ++ [m].
Proof.
  intros Hb buf s'. subst s'. unfold buffer_ok, view, size in *.
  destruct Hb as [H0 H1]. sess_simpl.
  rewrite length_insert.
  replace (Z.to_nat (out_size_ s + 1)) with (S (Z.to_nat (out_size_ s))) by lia.
  assert (Hlen : (Z.to_nat (out_size_ s) < length buf)%nat).
  { subst buf. destruct (Z.leb_spec (Z.of_nat (length (out_messages_ s))) (out_size_ s)).
    - rewrite length_app. simpl. lia.
    - lia. }
  split; [lia|].
  rewrite (take_S_r _ _ m) by (now apply list_lookup_insert_eq).
  rewrite take_insert_ge by lia. f_equal.
  subst buf. destruct (Z.leb_spec (Z.of_nat (length (out_messages_ s))) (out_size_ s)).
  - rewrite take_app_le by lia. reflexivity.
  - reflexivity.
Qed.

Lemma evolves_refl (L : list OutMessage -> Prop) s : L [] -> buffer_ok s -> evolves L s s.
Proof.
  intros HL H. repeat split; try apply H. exists []. now rewrite app_nil_r.
Qed.

Lemma evolves_trans (L1 L2 L3 : list OutMessage -> Prop) s1 s2 s3 :
  (forall a b, L1 a -> L2 b -> L3 (a ++ b)) ->
  evolves L1 s1 s2 -> evolves L2 s2 s3 -> evolves L3 s1 s3.
Proof.
  intros HL (A1 & A2 & A3 & A4 & ms1 & A5 & A6) (B1 & B2 & B3 & B4 & ms2 & B5 & B6).
  repeat split; try congruence; try apply B4.
  exists (ms1 ++ ms2). split; [rewrite B5, A5; now rewrite app_assoc|]. now apply HL.
Qed.

Lemma evolves_mono (L L' : list OutMessage -> Prop) s s' :
  (forall ms, L ms -> L' ms) -> evolves L s s' -> evolves L' s s'.
Proof.
  intros H (A1 & A2 & A3 & A4 & ms & A5 & A6). repeat split; try assumption; try apply A4.
  exists ms. split; [assumption|]. now apply H.
Qed.

Lemma evolves_silent L f s0 s : silent f -> evolves L s0 s -> evolves L s0 (f s).
Proof.
  intros Hq (A1 & A2 & A3 & A4 & ms & A5 & A6).
  destruct (Hq s) as ([Hb1 Hb2] & Hc & Hv & Hf).
  unfold evolves, buffer_ok, view in *. rewrite Hb1, Hb2, Hc, Hv, Hf.
  repeat split; try assumption; try apply A4. eauto.
Qed.

Lemma coherent_silent f s : silent f -> coherent s -> coherent (f s).
Proof.
  intros Hq Hc. destruct (Hq s) as (_ & H1 & H2 & _). unfold coherent in *.
  now rewrite H1, H2.
Qed.

Lemma evolves_write (L L' : list OutMessage -> Prop) m s0 s :
  (forall ms, L ms -> L' (ms ++ [m])) -> evolves L s0 s -> evolves L' s0 (write m s).
Proof.
  intros HL (A1 & A2 & A3 & A4 & ms & A5 & A6).
  destruct (view_write s m A4) as [H1 H2]. fold (write m s) in H1, H2.
  repeat split; try assumption; try apply H1.
  exists (ms ++ [m]). split; [|now apply HL]. rewrite H2, A5. now rewrite app_assoc.
Qed.

(** *** The calls that do nothing *)

Lemma vad_reset_idem v : Vad.reset (Vad.reset v) = Vad.reset v.
Proof. unfold Vad.reset. simpl. now rewrite length_replicate. Qed.

Section Handler.

Variable vad_model : list f32 -> list f32 -> Z -> f32 * list f32.
Variable recognize : list f32 -> Z -> string.
Variable steady_clock : nat -> Z.
Variable fmt_fixed : nat -> f32 -> string.

Local Abbreviation on_audio := (Session.on_audio vad_model recognize steady_clock fmt_fixed).
Local Abbreviation on_recognize := (Session.on_recognize vad_model recognize steady_clock fmt_fixed).
Local Abbreviation on_reset := (Session.on_reset steady_clock).
Local Abbreviation on_close := (Session.on_close steady_clock).
Local Abbreviation step := (Session.step vad_model recognize steady_clock fmt_fixed).
Local Abbreviation run := (Session.run vad_model recognize steady_clock fmt_fixed).

Lemma accept_waveform_returns (v : Vad.VoiceActivityDetector) (smp : list f32) :
  wrap_int (size smp) = Vad.window_size (Vad.config_ v) ->
  exists v', Vad.accept_waveform vad_model v smp = inr v' /\
             Vad.config_ v' = Vad.config_ v.
Proof.
  intros Hsz.
  destruct (Vad.accept_waveform vad_model v smp) as [e|v'] eqn:E.
  - exfalso. revert E. unfold Vad.accept_waveform, Vad.infer.
    rewrite Hsz, Z.eqb_refl. simpl negb. cbv iota.
    destruct (vad_model _ _ _) as [prob st].
    repeat match goal with
           | |- context [if ?b then _ else _] => destruct b
           end; discriminate.
  - exists v'. split; [reflexivity|].
    now destruct (VadFacts.accept_waveform_extends vad_model v smp v' E).
Qed.

(** *** What the private member functions do *)

Lemma hoare_bind {A B} P (m : M A) Q (f : A -> M B) R :
  hoare P m Q -> (forall a, hoare (Q a) (f a) R) -> hoare P (m ≫= f) R.
Proof.
  intros Hm Hf w Hw. apply post_bind. eapply post_mono; [now apply Hm|].
  intros a w' Hw'. now apply Hf.
Qed.

Lemma hoare_conseq {A} (P P' : ASRSession -> Prop) (m : M A) (Q Q' : A -> ASRSession -> Prop) :
  hoare P m Q -> (forall s, P' s -> P s) -> (forall a s, Q a s -> Q' a s) -> hoare P' m Q'.
Proof.
  intros H HP HQ w Hw. eapply post_mono; [apply H, HP, Hw|]. intros a w'. apply HQ.
Qed.

Lemma hoare_gets {A} P (f : ASRSession -> A) :
  hoare P (gets f) (fun a s => P s /\ a = f s).
Proof. now intros w Hw. Qed.

Lemma hoare_modify (P Q : ASRSession -> Prop) f :
  (forall s, P s -> Q (f s)) -> hoare P (modify f) (fun _ => Q).
Proof. intros H w Hw. now apply H. Qed.

Lemma hoare_when (P Q : ASRSession -> Prop) (b : bool) m :
  (b = true -> hoare P m (fun _ => Q)) -> (b = false -> forall s, P s -> Q s) ->
  hoare P (when b m) (fun _ => Q).
Proof.
  destruct b; intros H1 H2; [now apply H1|]. intros w Hw. now apply H2.
Qed.

Lemma preserves_bind {A B} R (m : M A) (f : A -> M B) :
  preserves R m -> (forall a, preserves R (f a)) -> preserves R (m ≫= f).
Proof. intros Hm Hf. eapply hoare_bind; [exact Hm|exact Hf]. Qed.

Lemma preserves_ret {A} R (a : A) : preserves R (mret a).
Proof. now intros w Hw. Qed.

Lemma preserves_gets {A} R (f : ASRSession -> A) : preserves R (gets f).
Proof. now intros w Hw. Qed.

Lemma preserves_observe R e : preserves R (observe e).
Proof. now intros w Hw. Qed.

Lemma preserves_now R clock : preserves R (now clock).
Proof. now intros w Hw. Qed.

Lemma preserves_modify (R : ASRSession -> Prop) f :
  (forall s, R s -> R (f s)) -> preserves R (modify f).
Proof. intros H w Hw. now apply H. Qed.

Lemma preserves_when R (b : bool) m : preserves R m -> preserves R (when b m).
Proof. intros H. destruct b; [exact H|apply preserves_ret]. Qed.

Lemma preserves_if {A} R (b : bool) (m1 m2 : M A) :
  preserves R m1 -> preserves R m2 -> preserves R (if b then m1 else m2).
Proof. now destruct b. Qed.

Lemma wrote_refl P s : buffer_ok s -> wrote P s s.
Proof. intros H. split; [now apply evolves_refl|reflexivity]. Qed.

Lemma wrote_mono (P Q : OutMessage -> Prop) s s' :
  (forall m, P m -> Q m) -> wrote P s s' -> wrote Q s s'.
Proof.
  intros H [A B]. split; [|exact B]. eapply evolves_mono; [|exact A].
  intros ms Hms. eapply Forall_impl; [exact Hms|exact H].
Qed.

Lemma preserves_quiet P s0 f : quiet f -> preserves (wrote P s0) (modify f).
Proof.
  intros [Hs Hp]. apply preserves_modify. intros s [H1 H2].
  split; [now apply evolves_silent|]. now rewrite Hp.
Qed.

Lemma preserves_next_message (P : OutMessage -> Prop) s0 m :
  P m -> preserves (wrote P s0) (next_message m).
Proof.
  intros HP. apply preserves_modify. intros s [H1 H2]. fold (write m s).
  split; [|exact H2]. eapply evolves_write; [|exact H1].
  intros ms Hms. apply Forall_app. split; [exact Hms|]. now constructor.
Qed.

(** Structural decomposition of a member function built from quiet
    assignments, clock readings, metric calls and message writes. *)
Ltac quiet_tac := split; intros ?s; repeat split; reflexivity.
Ltac preserve :=
  repeat first
    [ apply preserves_bind; [|intros ?a]
    | apply preserves_ret
    | apply preserves_gets
    | apply preserves_observe
    | apply preserves_now
    | apply preserves_when
    | apply preserves_if
    | apply preserves_quiet; quiet_tac
    | apply preserves_next_message; reflexivity ].

Lemma process_segment_wrote segment s0 :
  preserves (wrote (has_type Final) s0)
            (process_segment recognize steady_clock fmt_fixed segment).
Proof. unfold process_segment, vad_pop, write_final. preserve. Qed.

Lemma process_vad_segments_loop_wrote n s0 :
  preserves (wrote (has_type Final) s0)
            (process_vad_segments_loop recognize steady_clock fmt_fixed n).
Proof.
  induction n as [|n IH]; simpl; [apply preserves_ret|].
  apply preserves_bind; [apply preserves_gets|]. intros [segment|]; [|apply preserves_ret].
  apply preserves_bind; [apply process_segment_wrote|]. intros _. exact IH.
Qed.

Lemma process_vad_segments_wrote s0 :
  preserves (wrote (has_type Final) s0)
            (process_vad_segments recognize steady_clock fmt_fixed).
Proof.
  unfold process_vad_segments. apply preserves_bind; [apply preserves_gets|].
  intros n. apply process_vad_segments_loop_wrote.
Qed.

(** *** Windowing *)

Lemma evolves_step L s0 s s' :
  evolves L s0 s -> same_buffer s s' -> config_ s' = config_ s ->
  Vad.config_ (vad_ s') = Vad.config_ (vad_ s) ->
  max_duration_exceeded_ s' = max_duration_exceeded_ s ->
  evolves L s0 s'.
Proof.
  intros (A1 & A2 & A3 & A4 & ms & A5 & A6) [Hb1 Hb2] Hc Hv Hf.
  unfold evolves, buffer_ok, view in *. rewrite Hb1, Hb2, Hc, Hv, Hf.
  repeat split; try assumption; try apply A4. eauto.
Qed.

Lemma coherent_step s s' :
  coherent s -> config_ s' = config_ s ->
  Vad.config_ (vad_ s') = Vad.config_ (vad_ s) -> coherent s'.
Proof. unfold coherent. now intros H -> ->. Qed.

Lemma live_wrote P s0 s s' : live (Forall P) s0 s -> wrote P s s' -> live (Forall P) s0 s'.
Proof.
  intros (He & Hc & Hf & Hp) [He' Hp'].
  assert (He2 := He'). destruct He2 as (B1 & B2 & B3 & _).
  split; [|split; [|split]].
  - eapply evolves_trans; [|exact He|exact He']. intros a b Ha Hb. now apply Forall_app.
  - now apply (coherent_step s).
  - congruence.
  - now rewrite Hp', B1.
Qed.

Lemma live_mono (L L' : list OutMessage -> Prop) s0 s :
  (forall ms, L ms -> L' ms) -> live L s0 s -> live L' s0 s.
Proof. intros H (He & Hr). split; [now apply (evolves_mono L)|exact Hr]. Qed.

(** A member function that only writes [P]-messages keeps the session
    live. *)
Lemma lift_wrote {A} (P Q : OutMessage -> Prop) (m : M A) s0 :
  (forall m, P m -> Q m) ->
  (forall s1, preserves (wrote P s1) m) -> preserves (live (Forall Q) s0) m.
Proof.
  intros HPQ H w Hw. eapply post_mono.
  - apply (H (sess w)). apply wrote_refl. apply Hw.
  - intros a w' Hw'. cbv beta in *. eapply live_wrote; [exact Hw|].
    now apply (wrote_mono P).
Qed.

Lemma preserves_live_quiet L s0 f : quiet f -> preserves (live L s0) (modify f).
Proof.
  intros [Hs Hp]. apply preserves_modify. intros s (He & Hc & Hf & Hlt).
  destruct (Hs s) as (_ & H1 & H2 & H3).
  split; [now apply evolves_silent|]. split; [now apply coherent_silent|].
  rewrite H3, Hp, H1. tauto.
Qed.

(** A full window is handed to the detector and the buffer is cleared. *)
Lemma accept_window L s0 :
  hoare (armed L s0)
        (vad_accept_pending vad_model ≫= fun _ => modify (set_pending_ []))
        (fun _ s => live L s0 s /\ pending_ s = []).
Proof.
  intros w (He & Hc & Hf & Hp). apply post_bind. unfold post at 1, vad_accept_pending.
  destruct (accept_waveform_returns (vad_ (sess w)) (pending_ (sess w))) as (v' & E & Hcfg).
  { destruct Hc as [Hc1 Hc2]. rewrite Hp, Hc1. apply ScalarFacts.wrap_int_small. lia. }
  rewrite E. apply post_modify. sess_simpl.
  split; [|reflexivity]. split; [|split; [|split]]; sess_simpl.
  - eapply evolves_step; [exact He|split; reflexivity|reflexivity|exact Hcfg|reflexivity].
  - eapply coherent_step; [exact Hc|reflexivity|exact Hcfg].
  - exact Hf.
  - destruct Hc as [_ Hc2]. change (size (@nil f32)) with 0. lia.
Qed.

Lemma feed_windows_unfold fuel samples offset :
  feed_windows vad_model (S fuel) samples offset =
  if negb (offset <? size samples) then mret tt
  else
    s ← gets id;
    let remaining_in_window :=
      wrap_size (wrap_size (vad_window_size (config_ s)) - size (pending_ s)) in
    let to_copy := Z.min remaining_in_window (size samples - offset) in
    modify (set_pending_
              (pending_ s ++ take (Z.to_nat to_copy) (drop (Z.to_nat offset) samples)));;
    let offset := offset + to_copy in
    s ← gets id;
    when (wrap_int (size (pending_ s)) =? vad_window_size (config_ s))
         (vad_accept_pending vad_model;; modify (set_pending_ []));;
    feed_windows vad_model fuel samples offset.
Proof. reflexivity. Qed.

Lemma feed_windows_live L s0 fuel :
  forall samples offset,
    0 <= offset <= size samples ->
    (Z.to_nat (size samples - offset) < fuel)%nat ->
    preserves (live L s0) (feed_windows vad_model fuel samples offset).
Proof.
  induction fuel as [|fuel IH]; intros samples offset Hoff Hfuel; [lia|].
  rewrite feed_windows_unfold.
  destruct (Z.ltb_spec offset (size samples)) as [Hlt|Hge]; [|apply preserves_ret].
  cbn [negb]. intros w (He & Hc & Hf & Hp).
  assert (Hc' := Hc). destruct Hc' as [Hc1 Hc2].
  assert (Hsz := size_nonneg (pending_ (sess w))).
  mstep. mstep. cbv zeta. unfold id.
  rewrite (ScalarFacts.wrap_size_small (vad_window_size _)) by lia.
  rewrite ScalarFacts.wrap_size_small by lia.
  set (to_copy := Z.min _ _).
  assert (Hcopy : 1 <= to_copy <= size samples - offset /\
                  to_copy <= vad_window_size (config_ (sess w)) - size (pending_ (sess w)))
    by (subst to_copy; lia).
  mstep. mstep. mstep. mstep. unfold id. sess_simpl.
  set (p' := pending_ (sess w) ++ _).
  assert (Hp' : size p' = size (pending_ (sess w)) + to_copy).
  { subst p'. rewrite size_app. f_equal. unfold size in *.
    rewrite length_take, length_drop. lia. }
  set (w1 := set_sess _ w).
  assert (He1 : evolves L s0 (sess w1))
    by (eapply evolves_step; [exact He|split; reflexivity|reflexivity..]).
  assert (Hc1' : coherent (sess w1)) by exact Hc.
  assert (Hnext : forall w2, live L s0 (sess w2) ->
            post (feed_windows vad_model fuel samples (offset + to_copy)) w2
                 (fun _ w' => live L s0 (sess w'))).
  { intros w2 Hw2. apply IH; [lia|lia|exact Hw2]. }
  mstep. apply post_when.
  - intros Hfull. apply Z.eqb_eq in Hfull.
    rewrite ScalarFacts.wrap_int_small in Hfull by lia.
    eapply post_mono.
    + apply accept_window. split; [exact He1|]. split; [exact Hc1'|].
      split; [exact Hf|]. subst w1. sess_simpl. exact Hfull.
    + intros a w2 [Hw2 _]. now apply Hnext.
  - intros Hnot. apply Z.eqb_neq in Hnot.
    rewrite ScalarFacts.wrap_int_small in Hnot by lia.
    apply Hnext. split; [exact He1|]. split; [exact Hc1'|]. split; [exact Hf|].
    subst w1. sess_simpl. lia.
Qed.

(** *** Flushing and closing *)

Lemma size_resize {A} (n : nat) (x : A) (v : list A) :
  (length v <= n)%nat -> size (resize n x v) = Z.of_nat n.
Proof.
  intros H. unfold size, resize. rewrite length_app, length_take, length_replicate. lia.
Qed.

Lemma flush_pending_live L s0 :
  hoare (live L s0) (flush_pending vad_model) (fun _ s => live L s0 s /\ pending_ s = []).
Proof.
  intros w Hw. unfold flush_pending. mstep. mstep. mstep.
  assert (Hfl : forall w1, live L s0 (sess w1) /\ pending_ (sess w1) = [] ->
            post (modify (fun s => set_vad_ (Vad.flush (vad_ s)) s)) w1
                 (fun _ w' => live L s0 (sess w') /\ pending_ (sess w') = [])).
  { intros w1 [(He & Hc & Hf & Hp) Hnil]. mstep. sess_simpl.
    assert (Hcfg : Vad.config_ (Vad.flush (vad_ (sess w1))) = Vad.config_ (vad_ (sess w1)))
      by apply VadFacts.flush_extends.
    split; [|exact Hnil]. split; [|split; [|split]]; sess_simpl.
    - eapply evolves_step; [exact He|split; reflexivity|reflexivity|exact Hcfg|reflexivity].
    - eapply coherent_step; [exact Hc|reflexivity|exact Hcfg].
    - exact Hf.
    - exact Hp. }
  apply post_when.
  - intros Hne. destruct Hw as (He & Hc & Hf & Hp). mstep. mstep.
    set (w1 := set_sess _ w).
    assert (Harmed : armed L s0 (sess w1)).
    { assert (Hc' := Hc). destruct Hc' as [Hc1 Hc2].
      subst w1. split; [|split; [|split]]; sess_simpl.
      - eapply evolves_step; [exact He|split; reflexivity|reflexivity..].
      - exact Hc.
      - exact Hf.
      - rewrite ScalarFacts.wrap_size_small by lia.
        rewrite size_resize; unfold size in *; lia. }
    eapply post_mono; [apply (accept_window L s0); exact Harmed|].
    intros a w2 Hw2. now apply Hfl.
  - intros Hnil. apply negb_false_iff, bool_decide_eq_true in Hnil. now apply Hfl.
Qed.

Lemma closed_step flag flag' s0 s s' :
  closed flag s0 s -> same_buffer s s' -> config_ s' = config_ s ->
  Vad.config_ (vad_ s') = Vad.config_ (vad_ s) ->
  max_duration_exceeded_ s' = flag' ->
  closed flag' s0 s'.
Proof.
  intros (A1 & A2 & A3 & A4 & A5) [Hb1 Hb2] Hc Hv Hf.
  unfold closed, buffer_ok, view in *. rewrite Hb1, Hb2, Hc.
  split; [exact A1|]. split; [exact A2|]. split; [exact A3|].
  split; [now apply (coherent_step s)|exact Hf].
Qed.

Lemma preserves_closed_silent flag s0 f :
  silent f -> preserves (closed flag s0) (modify f).
Proof.
  intros Hs. apply preserves_modify. intros s Hc. destruct (Hs s) as (H1 & H2 & H3 & H4).
  eapply closed_step; [exact Hc|exact H1|exact H2|exact H3|].
  rewrite H4. apply Hc.
Qed.

Ltac silent_tac := intros ?s; repeat split; reflexivity.

Lemma reset_session_closed s0 :
  preserves (fun s => closed false s0 s /\ pending_ s = []) (reset_session steady_clock).
Proof.
  unfold reset_session.
  repeat first
    [ apply preserves_bind; [|intros ?a]
    | apply preserves_now ].
  all: apply preserves_modify; intros s [Hc Hp]; (split; [|exact Hp]).
  all: assert (Hflag : max_duration_exceeded_ s = false) by apply Hc.
  all: eapply closed_step;
         [exact Hc|split; reflexivity|reflexivity|reflexivity
         |first [reflexivity|exact Hflag]].
Qed.

Lemma finalize_session_closed s0 :
  hoare (live (Forall not_done) s0) (finalize_session steady_clock)
        (fun _ s => closed false s0 s /\ pending_ s = []).
Proof.
  unfold finalize_session, write_done.
  eapply hoare_bind; [apply preserves_now|intros t].
  eapply hoare_bind; [apply preserves_gets|intros s].
  eapply hoare_bind; [apply preserves_observe|intros ?].
  eapply hoare_bind; [apply preserves_when, preserves_observe|intros ?].
  eapply hoare_bind.
  { apply (hoare_modify _ (closed false s0)). intros s1 (He & Hc & Hf & Hp).
    fold (write {| type := Done; json := "{" +:+ dq +:+ "type" +:+ dq +:+ ":" +:+ dq
                                          +:+ "done" +:+ dq +:+ "}" |} s1).
    set (d := {| type := Done; json := _ |}).
    assert (He' : evolves ends_with_single_done s0 (write d s1)).
    { eapply evolves_write; [|exact He]. intros ms Hms. now exists ms, d. }
    destruct He' as (B1 & B2 & B3 & B4 & B5).
    split; [exact B1|]. split; [exact B4|]. split; [exact B5|].
    split; [exact Hc|exact Hf]. }
  intros ?.
  eapply hoare_bind.
  { apply preserves_when. apply preserves_bind; [apply preserves_observe|intros ?].
    apply preserves_closed_silent. silent_tac. }
  intros ?.
  eapply hoare_bind; [apply preserves_closed_silent; silent_tac|intros ?].
  eapply hoare_bind.
  { apply (hoare_modify _ (fun s => closed false s0 s /\ pending_ s = [])).
    intros s1 Hc. split; [|reflexivity].
    eapply closed_step; [exact Hc|split; reflexivity|reflexivity..|apply Hc]. }
  intros ?. apply reset_session_closed.
Qed.

(** *** The public member functions *)

Lemma final_not_done m : has_type Final m -> not_done m.
Proof. unfold has_type, not_done, is_done. intros H1 H2. rewrite H1 in H2. discriminate. Qed.

Lemma interim_not_done m : has_type Interim m -> not_done m.
Proof. unfold has_type, not_done, is_done. intros H1 H2. rewrite H1 in H2. discriminate. Qed.

Lemma process_vad_segments_live s0 :
  preserves (live (Forall not_done) s0) (process_vad_segments recognize steady_clock fmt_fixed).
Proof.
  apply (lift_wrote (has_type Final)); [exact final_not_done|].
  intros s1. apply process_vad_segments_wrote.
Qed.

Lemma write_interim_live d r b s0 :
  preserves (live (Forall not_done) s0) (write_interim fmt_fixed d r b).
Proof.
  apply (lift_wrote (has_type Interim)); [exact interim_not_done|].
  intros s1. unfold write_interim. now apply preserves_next_message.
Qed.

Lemma live_returned s0 s :
  view s0 = [] -> live (Forall not_done) s0 s ->
  returned s0 (view s) s /\ max_duration_exceeded_ s = false /\ Forall not_done (view s).
Proof.
  intros Hv ((A1 & A2 & A3 & A4 & ms & A5 & A6) & Hc & Hf & Hp).
  rewrite Hv in A5. simpl in A5.
  split; [|split; [exact Hf|now rewrite A5]].
  split; [reflexivity|]. split; [|exact A1]. now split.
Qed.

Lemma closed_returned flag s0 s :
  view s0 = [] -> closed flag s0 s -> pending_ s = [] ->
  returned s0 (view s) s /\ max_duration_exceeded_ s = flag /\ ends_with_single_done (view s).
Proof.
  intros Hv (A1 & A2 & (ms & A3 & A4) & A5 & A6) Hp.
  rewrite Hv in A3. simpl in A3.
  split; [|split; [exact A6|now rewrite A3]].
  split; [reflexivity|]. split; [|exact A1].
  split; [exact A5|]. split; [exact A2|]. rewrite Hp. apply A5.
Qed.

Lemma begin_live s :
  well_formed s -> max_duration_exceeded_ s = false ->
  live (Forall not_done) (set_out_size_ 0 s) (set_out_size_ 0 s) /\
  view (set_out_size_ 0 s) = [].
Proof.
  intros (Hc & Hb & Hp) Hf.
  assert (Hb' : buffer_ok (set_out_size_ 0 s)).
  { unfold buffer_ok in *. sess_simpl. lia. }
  split; [|reflexivity]. split; [now apply evolves_refl|]. now split.
Qed.

Lemma on_audio_live samples w :
  well_formed (sess w) -> max_duration_exceeded_ (sess w) = false ->
  post (on_audio samples) w
       (fun ms w' =>
          returned (sess w) ms (sess w') /\
          ((max_duration_exceeded_ (sess w') = false /\ Forall not_done ms) \/
           (max_duration_exceeded_ (sess w') = true /\ ends_with_single_done ms))).
Proof.
  intros Hwf Hf. destruct (begin_live _ Hwf Hf) as [Hlive Hview].
  unfold Session.on_audio, begin_messages. mstep. mstep. mstep. mstep. sess_simpl.
  rewrite Hf. set (w1 := set_sess _ w). change (set_out_size_ 0 (sess w)) with (sess w1) in Hlive, Hview.
  set (Q := fun (s : ASRSession) => live (Forall not_done) (sess w1) s \/
                  (closed true (sess w1) s /\ pending_ s = [])).
  match goal with
  | |- post ?m _ _ =>
      assert (Hh : hoare (live (Forall not_done) (sess w1)) m
                         (fun ms s => Q s /\ ms = view s))
  end.
  { eapply hoare_bind; [apply preserves_now|intros ?].
    eapply hoare_bind; [apply preserves_gets|intros ?].
    eapply hoare_bind.
    { apply preserves_when. apply preserves_bind; [|intros ?; apply preserves_observe].
      apply preserves_live_quiet. quiet_tac. }
    intros ?. eapply hoare_bind; [apply preserves_live_quiet; quiet_tac|intros ?].
    eapply hoare_bind; [apply preserves_live_quiet; quiet_tac|intros ?].
    eapply hoare_bind; [apply preserves_live_quiet; quiet_tac|intros ?].
    eapply hoare_bind; [apply preserves_observe|intros ?].
    eapply hoare_bind.
    { apply feed_windows_live; [pose proof (size_nonneg samples); lia|unfold size; lia]. }
    intros ?. eapply hoare_bind; [apply preserves_now|intros ?].
    eapply hoare_bind; [apply preserves_live_quiet; quiet_tac|intros ?].
    eapply hoare_bind; [apply process_vad_segments_live|intros ?].
    eapply hoare_bind; [apply preserves_gets|intros ?].
    eapply hoare_bind; [apply preserves_when, write_interim_live|intros ?].
    eapply hoare_bind; [apply preserves_gets|intros ?].
    eapply hoare_bind.
    { apply (hoare_when _ Q).
      - intros _.
        eapply hoare_bind; [apply flush_pending_live|intros ?].
        eapply hoare_bind.
        { eapply hoare_conseq; [apply process_vad_segments_live| |intros ? s H; exact H].
          intros s [H _]. exact H. }
        intros ?. eapply hoare_bind; [apply finalize_session_closed|intros ?].
        apply hoare_modify. intros s [Hc Hp]. right. split; [|exact Hp].
        eapply closed_step; [exact Hc|split; reflexivity|reflexivity..].
      - intros _ s Hs. now left. }
    intros ?. apply hoare_gets. }
  eapply post_mono; [apply Hh; exact Hlive|].
  intros ms w' [[Hl|[Hc Hp]] ->]; cbv beta.
  - destruct (live_returned _ _ Hview Hl) as (H1 & H2 & H3). split; [exact H1|]. now left.
  - destruct (closed_returned _ _ _ Hview Hc Hp) as (H1 & H2 & H3). split; [exact H1|]. now right.
Qed.

Lemma on_recognize_live w :
  well_formed (sess w) -> max_duration_exceeded_ (sess w) = false ->
  post on_recognize w
       (fun ms w' =>
          returned (sess w) ms (sess w') /\
          max_duration_exceeded_ (sess w') = false /\ ends_with_single_done ms).
Proof.
  intros Hwf Hf. destruct (begin_live _ Hwf Hf) as [Hlive Hview].
  unfold Session.on_recognize, begin_messages. mstep. mstep. mstep. mstep. sess_simpl.
  rewrite Hf. set (w1 := set_sess _ w). change (set_out_size_ 0 (sess w)) with (sess w1) in Hlive, Hview.
  match goal with
  | |- post ?m _ _ =>
      assert (Hh : hoare (live (Forall not_done) (sess w1)) m
                         (fun ms s => (closed false (sess w1) s /\ pending_ s = []) /\
                                      ms = view s))
  end.
  { eapply hoare_bind; [apply flush_pending_live|intros ?].
    eapply hoare_bind.
    { eapply hoare_conseq; [apply process_vad_segments_live| |intros ? s H; exact H].
      intros s [H _]. exact H. }
    intros ?. eapply hoare_bind; [apply finalize_session_closed|intros ?].
    apply hoare_gets. }
  eapply post_mono; [apply Hh; exact Hlive|].
  intros ms w' [[Hc Hp] ->]; cbv beta.
  exact (closed_returned _ _ _ Hview Hc Hp).
Qed.

(** With the flag set, [on_audio] only resets the cursor of the message
    buffer. *)
Lemma on_audio_exceeded samples w :
  max_duration_exceeded_ (sess w) = true ->
  on_audio samples w = (Ok [], set_sess (set_out_size_ 0 (sess w)) w).
Proof.
  intros H. unfold Session.on_audio, mbind, M_bind, begin_messages, modify, gets. simpl.
  rewrite H. reflexivity.
Qed.

Lemma on_recognize_exceeded w :
  max_duration_exceeded_ (sess w) = true ->
  on_recognize w =
  (Ok [], set_sess (set_max_duration_exceeded_ false (set_out_size_ 0 (sess w))) w).
Proof.
  intros H. unfold Session.on_recognize, mbind, M_bind, begin_messages, modify, gets. simpl.
  rewrite H. reflexivity.
Qed.

(** *** Reset and close *)

Lemma reset_session_eq w :
  reset_session steady_clock w =
  (Ok tt, set_sess (reset_fields (steady_clock (ticks w)) (sess w)) (set_ticks (S (ticks w)) w)).
Proof. reflexivity. Qed.

Lemma on_reset_eq w :
  on_reset w =
  (Ok tt,
   {| sess := reset_fields (steady_clock (ticks w)) (cleared (sess w));
      metrics := if session_active_ (sess w)
                 then metrics w ++ [SessionEnded (f64_of_Z 0)] else metrics w;
      ticks := S (ticks w) |}).
Proof.
  unfold Session.on_reset, when, mbind, M_bind, mret, M_ret, modify, gets, observe.
  sess_simpl. destruct (session_active_ (sess w)) eqn:Ha; sess_simpl;
    rewrite reset_session_eq; f_equal; apply world_ext; sess_simpl; try reflexivity.
  apply session_ext; unfold reset_fields, cleared; sess_simpl; try reflexivity.
  exact Ha.
Qed.

Lemma on_close_eq w :
  on_close w =
  (Ok tt,
   if session_active_ (sess w)
   then {| sess := set_session_active_ false (sess w);
           metrics := metrics w ++
                      [SessionEnded (seconds (steady_clock (ticks w) - start_ts_ (sess w)))];
           ticks := S (ticks w) |}
   else w).
Proof.
  unfold Session.on_close, when, mbind, M_bind, mret, M_ret, modify, gets, observe, now.
  sess_simpl. destruct (session_active_ (sess w)); reflexivity.
Qed.

(** The constructor leaves a well-formed session with the flag clear,
    when the detector is configured from the session's configuration. *)
Lemma construct_well_formed config log t w :
  construct steady_clock (vad_config_of config) config log t = inr w ->
  vad_window_size config < 2 ^ 31 ->
  well_formed (sess w) /\ max_duration_exceeded_ (sess w) = false /\
  config_ (sess w) = config.
Proof.
  unfold construct, Vad.make. cbn [Vad.window_size vad_config_of].
  destruct (Z.leb_spec (vad_window_size config) 0) as [|Hpos]; [discriminate|].
  destruct (_ || _); [discriminate|].
  destruct (_ <=? _); [discriminate|].
  destruct (_ || _); [discriminate|].
  rewrite reset_session_eq. cbn [snd]. intros [= <-] Hint. sess_simpl.
  split; [|split; reflexivity].
  split; [split; [reflexivity|]|]; unfold buffer_ok, reset_fields; sess_simpl.
  - lia.
  - change (size (@nil OutMessage)) with 0. change (size (@nil f32)) with 0. lia.
Qed.

(** *** Sequences of calls *)

Lemma well_formed_begin s : well_formed s -> well_formed (set_out_size_ 0 s).
Proof.
  intros (Hc & Hb & Hp). split; [exact Hc|]. split; [|exact Hp].
  unfold buffer_ok in *. sess_simpl. lia.
Qed.

Lemma well_formed_cleared t s :
  well_formed s -> well_formed (reset_fields t (cleared s)).
Proof.
  intros (Hc & Hb & Hp). split; [exact Hc|]. split; [exact Hb|].
  change (pending_ (reset_fields t (cleared s))) with (@nil f32).
  change (config_ (reset_fields t (cleared s))) with (config_ s).
  change (size (@nil f32)) with 0. apply Hc.
Qed.

(** Every public call on a well-formed session returns and leaves a
    well-formed session with the same configuration. *)
Lemma step_well_formed c w :
  well_formed (sess w) ->
  exists ms w', step c w = (Ok ms, w') /\ well_formed (sess w') /\
                config_ (sess w') = config_ (sess w).
Proof.
  intros Hwf. destruct c as [samples| | |]; simpl.
  - destruct (max_duration_exceeded_ (sess w)) eqn:Hf.
    + rewrite on_audio_exceeded by exact Hf. eexists _, _. split; [reflexivity|].
      split; [now apply well_formed_begin|reflexivity].
    + destruct (post_run _ _ _ (on_audio_live samples w Hwf Hf))
        as (ms & w' & E & (_ & H1 & H2) & _).
      exists ms, w'. now rewrite E.
  - destruct (max_duration_exceeded_ (sess w)) eqn:Hf.
    + rewrite on_recognize_exceeded by exact Hf. eexists _, _. split; [reflexivity|].
      split; [|reflexivity]. now apply (well_formed_begin (sess w)).
    + destruct (post_run _ _ _ (on_recognize_live w Hwf Hf))
        as (ms & w' & E & (_ & H1 & H2) & _).
      exists ms, w'. now rewrite E.
  - unfold mbind, M_bind. rewrite on_reset_eq. eexists _, _. split; [reflexivity|].
    split; [now apply well_formed_cleared|reflexivity].
  - unfold mbind, M_bind. rewrite on_close_eq. eexists _, _. split; [reflexivity|].
    destruct (session_active_ (sess w)); split; try reflexivity; exact Hwf.
Qed.

Lemma run_well_formed cs w :
  well_formed (sess w) ->
  all_ok (fst (run cs w)) /\ well_formed (sess (snd (run cs w))) /\
  config_ (sess (snd (run cs w))) = config_ (sess w).
Proof.
  revert w. induction cs as [|c cs IH]; intros w Hwf; simpl.
  - split; [constructor|]. now split.
  - destruct (step_well_formed c w Hwf) as (ms & w' & E & Hwf' & Hcfg).
    rewrite E. destruct (IH w' Hwf') as (H1 & H2 & H3).
    destruct (run cs w') as [os w2]. simpl in *.
    split; [now constructor|]. split; [exact H2|congruence].
Qed.

(** C2. On a well-formed session (as its constructor leaves it: the
    detector configured from the session's configuration) every public
    call of every sequence of [on_audio], [on_recognize], [on_reset] and
    [on_close] calls returns, and after each of them -- after the first
    [n] calls, for every [n] -- fewer samples than [vad_window_size] are
    pending. *)
Theorem pending_below_window (cs : list call) (w : World) (n : nat) :
  well_formed (sess w) ->
  all_ok (fst (run (take n cs) w)) /\
  size (pending_ (sess (snd (run (take n cs) w)))) < vad_window_size (config_ (sess w)).
Proof.
  intros Hwf. destruct (run_well_formed (take n cs) w Hwf) as (H1 & (_ & _ & H2) & H3).
  split; [exact H1|]. now rewrite <- H3.
Qed.

Lemma single_done_app pre ms :
  Forall not_done pre -> ends_with_single_done ms -> ends_with_single_done (pre ++ ms).
Proof.
  intros Hpre (pre' & d & -> & Hd & Hpre'). exists (pre ++ pre'), d.
  split; [now rewrite app_assoc|]. split; [exact Hd|]. apply Forall_app. now split.
Qed.

(** Once the flag is set, audio is dropped and [on_recognize] returns
    nothing. *)
Lemma run_exceeded chunks w :
  max_duration_exceeded_ (sess w) = true ->
  all_ok (fst (run (map OnAudio chunks ++ [OnRecognize]) w)) /\
  emitted (fst (run (map OnAudio chunks ++ [OnRecognize]) w)) = [].
Proof.
  revert w. induction chunks as [|c chunks IH]; intros w Hf; simpl.
  - rewrite on_recognize_exceeded by exact Hf. simpl. split; [|reflexivity].
    constructor; [exact I|constructor].
  - rewrite on_audio_exceeded by exact Hf.
    destruct (IH (set_sess (set_out_size_ 0 (sess w)) w) Hf) as [H1 H2].
    destruct (run _ _) as [os w2]. simpl in *. split; [|exact H2]. now constructor.
Qed.

Lemma run_live chunks w :
  well_formed (sess w) -> max_duration_exceeded_ (sess w) = false ->
  all_ok (fst (run (map OnAudio chunks ++ [OnRecognize]) w)) /\
  ends_with_single_done (emitted (fst (run (map OnAudio chunks ++ [OnRecognize]) w))).
Proof.
  revert w. induction chunks as [|c chunks IH]; intros w Hwf Hf; simpl.
  - destruct (post_run _ _ _ (on_recognize_live w Hwf Hf)) as (ms & w' & E & _ & _ & Hd).
    rewrite E. unfold emitted. simpl. rewrite app_nil_r. split; [|exact Hd].
    constructor; [exact I|constructor].
  - destruct (post_run _ _ _ (on_audio_live c w Hwf Hf))
      as (ms & w' & E & (_ & Hwf' & _) & Hcases).
    rewrite E. destruct Hcases as [[Hf' Hnd]|[Hf' Hd]].
    + destruct (IH w' Hwf' Hf') as [H1 H2].
      destruct (run _ w') as [os w2]. simpl in *.
      split; [now constructor|]. now apply single_done_app.
    + destruct (run_exceeded chunks w' Hf') as [H1 H2].
      destruct (run _ w') as [os w2]. simpl in *.
      split; [now constructor|]. unfold emitted in H2. unfold emitted. simpl.
      rewrite H2, app_nil_r. exact Hd.
Qed.

(** C1. For every sequence of [on_audio] calls followed by one
    [on_recognize] call on a well-formed session whose flag is clear,
    every call returns, and the messages returned over the sequence, in
    order, end with a [Done] message and hold no other [Done] (it comes
    from [on_recognize], or from the auto-finalize of an earlier
    [on_audio], after which nothing more is returned). *)
Theorem done_exactly_once (chunks : list (list f32)) (w : World) :
  well_formed (sess w) -> max_duration_exceeded_ (sess w) = false ->
  all_ok (fst (run (map OnAudio chunks ++ [OnRecognize]) w)) /\
  ends_with_single_done (emitted (fst (run (map OnAudio chunks ++ [OnRecognize]) w))).
Proof. exact (run_live chunks w). Qed.

(** C5. With the flag set by the auto-finalize, every later [on_audio]
    call returns no message and changes nothing but the cursor of the
    (already returned) message buffer, which it resets: pending samples,
    detector, counters, timestamps, the flag, the metrics log and the
    clock are as they were. The first [on_recognize] then clears the flag,
    and returns no message either. *)
Theorem latched_until_recognize (chunks : list (list f32)) (w : World) :
  max_duration_exceeded_ (sess w) = true ->
  let quiet_w := set_sess (set_out_size_ 0 (sess w)) w in
  Forall (fun o => o = Ok []) (fst (run (map OnAudio chunks) w)) /\
  snd (run (map OnAudio chunks) w) = (match chunks with [] => w | _ => quiet_w end) /\
  on_recognize (snd (run (map OnAudio chunks) w)) =
  (Ok [], set_sess (set_max_duration_exceeded_ false (sess quiet_w)) w).
Proof.
  intros Hf quiet_w.
  assert (Hq : forall cs, Forall (fun o => o = Ok []) (fst (run (map OnAudio cs) quiet_w)) /\
                          snd (run (map OnAudio cs) quiet_w) = quiet_w).
  { induction cs as [|c cs [IH1 IH2]]; simpl; [split; [constructor|reflexivity]|].
    rewrite on_audio_exceeded by exact Hf.
    change (set_sess (set_out_size_ 0 (sess quiet_w)) quiet_w) with quiet_w.
    destruct (run (map OnAudio cs) quiet_w) as [os w2]. simpl in *.
    split; [now constructor|exact IH2]. }
  destruct chunks as [|c chunks]; simpl.
  - split; [constructor|]. split; [reflexivity|]. now rewrite on_recognize_exceeded.
  - rewrite on_audio_exceeded by exact Hf. fold quiet_w.
    destruct (Hq chunks) as [H1 H2].
    destruct (run (map OnAudio chunks) quiet_w) as [os w2]. simpl in *. subst w2.
    split; [now constructor|]. split; [reflexivity|]. now rewrite on_recognize_exceeded.
Qed.

(** Resetting the members again only moves [start_ts_]. *)
Lemma reset_fields_again t t' s :
  reset_fields t' (cleared (reset_fields t (cleared s))) =
  set_start_ts_ t' (reset_fields t (cleared s)).
Proof.
  apply session_ext; unfold reset_fields, cleared; sess_simpl; try reflexivity.
  apply vad_reset_idem.
Qed.

Lemma reset_fields_inactive t s : session_active_ (reset_fields t (cleared s)) = false.
Proof. reflexivity. Qed.

Lemma view_set_start_ts t s : view (set_start_ts_ t s) = view s.
Proof. reflexivity. Qed.

(** C8. A second [on_reset] right after a first one returns, and leaves
    every member of the session as the first call left it, except
    [start_ts_], which takes the new clock reading: pending samples,
    detector, counters and flags, and the message buffer, are unchanged.
    It makes no call on the metrics sink, so no [session_ended] event. *)
Theorem on_reset_twice (w : World) :
  let w1 := snd (on_reset w) in
  let w2 := snd (on_reset w1) in
  fst (on_reset w) = Ok tt /\ fst (on_reset w1) = Ok tt /\
  sess w2 = set_start_ts_ (steady_clock (ticks w1)) (sess w1) /\
  metrics w2 = metrics w1 /\
  view (sess w2) = view (sess w1).
Proof.
  intros w1 w2. subst w2 w1. rewrite on_reset_eq. cbn [fst snd].
  set (w1 := {| sess := _ |}). rewrite on_reset_eq. cbn [fst snd].
  subst w1. cbn [sess metrics ticks].
  rewrite reset_fields_inactive, reset_fields_again, view_set_start_ts.
  repeat split; reflexivity.
Qed.

End Handler.

(** *** Examples on the small configuration *)

Import Fixture.

Example fresh_world_constructed :
  Session.construct toy_clock (vad_config_of small_config) small_config [] 0
  = inr fresh_world.
Proof. vm_compute. reflexivity. Qed.

(** Silence in one chunk: one interim message, one sample left pending. *)
Example silence_gives_interim :
  let r := toy_run [OnAudio (silence_window 5)] fresh_world in
  map type (emitted (fst r)) = [Interim] /\ size (pending_ (sess (snd r))) = 1.
Proof. vm_compute. split; reflexivity. Qed.

(** Silence, then [on_recognize]: no final message, no segment counted
    as silence, and a closing [Done]. *)
Example silence_then_recognize :
  let r := toy_run [OnAudio (silence_window 16); OnRecognize] fresh_world in
  map type (emitted (fst r)) = [Interim; Done] /\
  existsb (fun e => match e with RecordSilence => true | _ => false end)
          (Session.metrics (snd r)) = false.
Proof. vm_compute. split; reflexivity. Qed.

(** Speech past [max_speech_duration]: the forced segment is recognized
    in the call that completes its second window. *)
Example speech_gives_final :
  map (map type)
      (map (fun o => match o with Ok ms => ms | _ => [] end)
           (fst (toy_run [OnAudio (speech_window 5); OnAudio (speech_window 5); OnRecognize]
                         fresh_world)))
  = [[Interim]; [Final]; [Done]].
Proof. vm_compute. reflexivity. Qed.

(** Three chunks of speech, the third one past the three seconds of
    [max_audio_sec], then [on_recognize]. *)
Lemma done_exactly_once_witness :
  all_ok (fst (toy_run (map OnAudio [speech_window 13; speech_window 12; speech_window 5]
                        ++ [OnRecognize]) fresh_world)) /\
  ends_with_single_done
    (emitted (fst (toy_run (map OnAudio [speech_window 13; speech_window 12; speech_window 5]
                            ++ [OnRecognize]) fresh_world))).
Proof.
  apply (done_exactly_once toy_model toy_recognize toy_clock toy_fmt
           [speech_window 13; speech_window 12; speech_window 5] fresh_world).
  - unfold well_formed, coherent, buffer_ok. vm_compute. repeat split; congruence.
  - reflexivity.
Defined.

Lemma pending_below_window_witness :
  all_ok (fst (toy_run (take 3 [OnAudio (speech_window 13); OnRecognize;
                                OnAudio (silence_window 7); OnReset; OnClose])
                       fresh_world)) /\
  size (pending_ (sess (snd (toy_run (take 3 [OnAudio (speech_window 13); OnRecognize;
                                              OnAudio (silence_window 7); OnReset; OnClose])
                                     fresh_world))))
  < vad_window_size (config_ (sess fresh_world)).
Proof.
  apply (pending_below_window toy_model toy_recognize toy_clock toy_fmt
           [OnAudio (speech_window 13); OnRecognize; OnAudio (silence_window 7);
            OnReset; OnClose] fresh_world 3).
  unfold well_formed, coherent, buffer_ok. vm_compute. repeat split; congruence.
Defined.

(** The session after thirty samples of speech in one chunk: more than
    the 24 samples of [max_audio_sec], so the auto-finalize fired. *)
Lemma latched_until_recognize_witness :
  let w := snd (toy_run [OnAudio (speech_window 30)] fresh_world) in
  let quiet_w := set_sess (set_out_size_ 0 (sess w)) w in
  Forall (fun o => o = Ok [])
         (fst (toy_run (map OnAudio [speech_window 5; silence_window 3]) w)) /\
  snd (toy_run (map OnAudio [speech_window 5; silence_window 3]) w) = quiet_w /\
  Session.on_recognize toy_model toy_recognize toy_clock toy_fmt
    (snd (toy_run (map OnAudio [speech_window 5; silence_window 3]) w)) =
  (Ok [], set_sess (set_max_duration_exceeded_ false (sess quiet_w)) w).
Proof.
  intros w.
  apply (latched_until_recognize toy_model toy_recognize toy_clock toy_fmt
           [speech_window 5; silence_window 3] w).
  vm_compute. reflexivity.
Defined.

End SessionFacts.

(** ** Recognizer pool *)

Module RecognizerFacts.

Import Recognizer.

Lemma first_free_lookup slots i :
  first_free slots = Some i ->
  exists s, slots !! i = Some s /\ in_use s = false.
Proof.
  revert i. induction slots as [|s slots IH]; intros i; simpl; [discriminate|].
  destruct (in_use s) eqn:Hs.
  - destruct (first_free slots) as [j|]; simpl; [|discriminate].
    intros [= <-]. now apply IH.
  - intros [= <-]. now exists s.
Qed.

(** Marking a free slot and unmarking it gives the pool back. *)
Lemma release_marked slots i :
  first_free slots = Some i ->
  release i (alter (set_in_use true) i slots) = slots.
Proof.
  intros H. destruct (first_free_lookup _ _ H) as (s & Hs & Hfree).
  unfold release.
  apply list_eq. intros j. destruct (decide (i = j)) as [<-|Hne].
  - rewrite !list_lookup_alter_eq, Hs. simpl. f_equal.
    destruct s as [h u]. simpl in *. now subst u.
  - now rewrite !list_lookup_alter_ne.
Qed.

Section Pool.

Variable create_stream : option handle_t -> option stream_t.
Variable decode : option handle_t -> stream_t -> Z -> list Float.f32 -> option (option string).

(** C6. A [recognize] call that takes a slot and cannot create its
    inference stream returns the empty string; the slot it had marked
    in use is unmarked before it returns, which gives the pool as it was
    before the call. Giving a slot back changes no other slot, whatever
    the pool holds by then. *)
Theorem recognize_stream_failure
    (slots : list Slot) (audio : list Float.f32) (sample_rate : Z)
    (slot_idx : nat) (h : option handle_t) (taken : list Slot) :
  audio <> [] ->
  acquire slots = Some (slot_idx, h, taken) ->
  create_stream h = None ->
  recognize create_stream decode slots audio sample_rate = Returned EmptyString slots /\
  in_use <$> taken !! slot_idx = Some true /\
  in_use <$> slots !! slot_idx = Some false /\
  release slot_idx taken = slots /\
  (forall (pool : list Slot) (j : nat),
      j <> slot_idx -> release slot_idx pool !! j = pool !! j).
Proof.
  intros Haudio Hacq Hnull. unfold recognize.
  destruct audio as [|x audio]; [congruence|]. rewrite Hacq, Hnull.
  unfold acquire in Hacq. destruct (first_free slots) as [i|] eqn:Hfree; [|discriminate].
  injection Hacq as <- <- <-.
  destruct (first_free_lookup _ _ Hfree) as (s & Hs & Hsfree).
  rewrite (release_marked _ _ Hfree).
  split; [reflexivity|]. split; [|split; [|split; [reflexivity|]]].
  - rewrite list_lookup_alter_eq, Hs. reflexivity.
  - rewrite Hs. simpl. now rewrite Hsfree.
  - intros pool j Hj. unfold release. now apply list_lookup_alter_ne.
Qed.

End Pool.

Import Fixture.

Example trim_both_ends : trim "  da. net " = "da. net".
Proof. reflexivity. Qed.

Example trim_all_space : trim "   " = EmptyString.
Proof. reflexivity. Qed.

(** With a stream, the second slot decodes, and is free again after. *)
Example recognize_returns_trimmed :
  recognize (fun _ => Some 7%Z) toy_decode busy_free_pool (speech_window 8) 8
  = Returned "da" busy_free_pool.
Proof. reflexivity. Qed.

(** A pool whose slots are all taken: the call waits. *)
Example recognize_waits :
  recognize no_stream_for_2 toy_decode
            [ {| handle := Some 1%Z; in_use := true |} ] (speech_window 8) 8
  = Waits [ {| handle := Some 1%Z; in_use := true |} ].
Proof. reflexivity. Qed.

Lemma recognize_stream_failure_witness :
  recognize no_stream_for_2 toy_decode busy_free_pool (speech_window 8) 8
  = Returned EmptyString busy_free_pool /\
  in_use <$> alter (set_in_use true) 1%nat busy_free_pool !! 1%nat = Some true /\
  in_use <$> busy_free_pool !! 1%nat = Some false /\
  release 1 (alter (set_in_use true) 1%nat busy_free_pool) = busy_free_pool.
Proof.
  destruct (recognize_stream_failure no_stream_for_2 toy_decode busy_free_pool
              (speech_window 8) 8 1%nat (Some 2%Z)
              (alter (set_in_use true) 1%nat busy_free_pool))
    as (H1 & H2 & H3 & H4 & _); [discriminate|reflexivity|reflexivity|].
  now repeat split.
Defined.

End RecognizerFacts.

(** ** Stream resampler *)

Module ResamplerFacts.

Import Scalar ScalarFacts Float Resampler.
Local Open Scope Z_scope.

Lemma size_grow n buf : size (grow n buf) = Z.max (size buf) n.
Proof.
  unfold grow. destruct (Z.ltb_spec (size buf) n) as [Hlt|Hge]; [|lia].
  rewrite size_app. unfold size in *. rewrite length_replicate. lia.
Qed.

Section Kernel.

Variable src_state : Type.
Variable src_process :
  src_state -> f64 -> list f32 -> Z -> bool -> Z * Z * list f32 * src_state.

(** The kernel writes into the buffer; it does not resize it. *)
Lemma run_kernel_size r input eoi :
  size (output_buf_ src_state (snd (run_kernel src_state src_process r input eoi)))
  = size (output_buf_ src_state r).
Proof.
  unfold run_kernel. destruct (src_process _ _ _ _ _) as [[[error used] generated] st].
  simpl. unfold size. rewrite length_app, length_drop, length_take. lia.
Qed.

(** C7, as the code has it. After [process], whether it returned or
    raised, the output buffer holds at least the number of frames the
    call asked for, [lround(len(input) * ratio) + 16] -- the product
    rounded to the nearest integer, not up -- and it never shrinks: its
    size is the larger of its size before and that number. *)
Theorem process_buffer_size (r : StreamResampler src_state) (input : list f32) :
  let r' := snd (process src_state src_process r input) in
  size (output_buf_ src_state r')
  = Z.max (size (output_buf_ src_state r)) (needed src_state r input) /\
  needed src_state r input <= size (output_buf_ src_state r') /\
  size (output_buf_ src_state r) <= size (output_buf_ src_state r').
Proof.
  intros r'.
  assert (H : size (output_buf_ src_state r')
              = Z.max (size (output_buf_ src_state r)) (needed src_state r input)).
  { subst r'. unfold process.
    set (r1 := {| state_ := _; ratio_ := _; output_buf_ := grow _ _ |}).
    pose proof (run_kernel_size r1 input false) as Hk.
    destruct (run_kernel _ _ r1 input false) as [[[error used] generated] r2].
    simpl in Hk. destruct (negb _); simpl; rewrite Hk; apply size_grow. }
  rewrite H. lia.
Qed.

End Kernel.

Import Fixture.

(** C7 does not hold with the ceiling. One sample at 48 kHz for a
    16 kHz model: [process] returns, the product 1/3 is rounded to 0,
    and the fresh buffer is grown to 16 frames, one less than
    ⌈1 * 16000 / 48000⌉ + 16 = 17. *)
Lemma process_buffer_counterexample :
  let r' := snd (process unit toy_src_process resampler_48k [one]) in
  fst (process unit toy_src_process resampler_48k [one]) = inr [] /\
  lround (f64_mul (f64_of_Z 1) (ratio_ unit resampler_48k)) = 0 /\
  size (output_buf_ unit r') = 16 /\
  ceil_div (1 * 16000) 48000 + 16 = 17.
Proof. vm_compute. repeat split. Qed.

End ResamplerFacts.

(** ** WAV decoding *)

Module WavFacts.

Import Scalar ScalarFacts Float Wav.
Local Open Scope Z_scope.

Section Decoder.

Variable drwav_init_memory : list Z -> option drwav.
Variable drwav_read_pcm_frames_f32 : list Z -> Z -> list f32.
Variable src_simple : list f32 -> f64 -> Z -> Z * list f32.

(** C9. [decode_wav] raises [AudioError], and so returns no samples,
    for every non-empty input that the container parser accepts as a
    mono file of more than 48000 * 3600 frames. The limit is a constant
    of the function: it has no parameter for the upload limit, and the
    target rate plays no part. *)
Theorem decode_wav_too_long (data : list Z) (target_rate : Z) (wav : drwav) :
  data <> [] ->
  drwav_init_memory data = Some wav ->
  channels wav = 1 ->
  48000 * 3600 < totalPCMFrameCount wav < 2 ^ 64 ->
  decode_wav drwav_init_memory drwav_read_pcm_frames_f32 src_simple data target_rate
  = inl AudioError.
Proof.
  intros Hdata Hinit Hmono Hlen. unfold decode_wav.
  destruct data as [|b data]; [congruence|]. rewrite Hinit, Hmono. simpl negb. cbv iota.
  rewrite wrap_size_small by lia.
  destruct (Z.eqb_spec (totalPCMFrameCount wav) 0) as [|_]; [reflexivity|].
  unfold max_frames. destruct (Z.ltb_spec (48000 * 3600) (totalPCMFrameCount wav)); [reflexivity|lia].
Qed.

End Decoder.

Import Fixture.

Lemma decode_wav_too_long_witness :
  decode_wav long_wav toy_read_frames toy_src_simple [82; 73; 70; 70] 16000 = inl AudioError.
Proof.
  apply (decode_wav_too_long long_wav toy_read_frames toy_src_simple [82; 73; 70; 70] 16000
           {| channels := 1; sampleRate := 48000; totalPCMFrameCount := 48000 * 3600 + 1 |}).
  - discriminate.
  - reflexivity.
  - reflexivity.
  - split; reflexivity.
Defined.

End WavFacts.

(** ** WebSocket controller *)

Module WsFacts.

Import Scalar Float Conf Metrics Ws WsSpec.
Local Open Scope Z_scope.

Section Controller.

Variable src_state : Type.
Variable src_new : option src_state.
Variable src_process :
  src_state -> f64 -> list f32 -> Z -> bool -> Z * Z * list f32 * src_state.
Variable src_reset : src_state -> src_state.
Variable vad_model : list f32 -> list f32 -> Z -> f32 * list f32.
Variable recognize : list f32 -> Z -> string.
Variable steady_clock : nat -> Z.
Variable fmt_fixed : nat -> f32 -> string.
Variable probe : string -> json_probe.
Variable config : Config.

Local Abbreviation Conn := (Ws.Conn src_state).
Local Abbreviation handleNewMessage :=
  (Ws.handleNewMessage src_state src_new src_process src_reset vad_model recognize
                       steady_clock fmt_fixed probe config).
Local Abbreviation handle_all :=
  (Ws.handle_all src_state src_new src_process src_reset vad_model recognize
                 steady_clock fmt_fixed probe config).
Local Abbreviation handle_binary :=
  (Ws.handle_binary src_state src_process vad_model recognize steady_clock fmt_fixed config).
Local Abbreviation handle_command :=
  (Ws.handle_command src_state src_process src_reset vad_model recognize steady_clock fmt_fixed).
Local Abbreviation handle_announcement :=
  (Ws.handle_announcement src_state src_new probe config).
Local Abbreviation flush_resampler := (Ws.flush_resampler src_state src_process src_reset).
Local Abbreviation locked := (WsSpec.locked src_state).
Local Abbreviation at_most_one := (WsSpec.at_most_one src_state).

Lemma locked_session_call {A} (m : Session.M A) (c : Conn) :
  locked (snd (session_call src_state m c)) = locked c.
Proof. unfold session_call. now destruct (m _) as [o w]. Qed.

Lemma locked_respond m (c : Conn) : locked (snd (respond src_state m c)) = locked c.
Proof.
  unfold respond. pose proof (locked_session_call m c) as H.
  destruct (session_call src_state m c) as [[rs|e|] c1]; exact H.
Qed.

Lemma process_ratio r input :
  Resampler.ratio_ src_state (snd (Resampler.process src_state src_process r input))
  = Resampler.ratio_ src_state r.
Proof.
  unfold Resampler.process, Resampler.run_kernel. simpl.
  destruct (src_process _ _ _ _ _) as [[[error used] generated] st].
  now destruct (negb _).
Qed.

Lemma flush_ratio r :
  Resampler.ratio_ src_state (snd (Resampler.flush src_state src_process src_reset r))
  = Resampler.ratio_ src_state r.
Proof.
  unfold Resampler.flush, Resampler.run_kernel. simpl.
  destruct (src_process _ _ _ _ _) as [[[error used] generated] st].
  now destruct (negb _).
Qed.

Lemma locked_flush_resampler (c : Conn) : locked (snd (flush_resampler c)) = locked c.
Proof.
  unfold Ws.flush_resampler, locked, conversion.
  destruct (resampler src_state c) as [r|] eqn:Hr; [|simpl; now rewrite Hr].
  pose proof (flush_ratio r) as H.
  destruct (Resampler.flush _ _ _ r) as [res r']. simpl in *. now rewrite H.
Qed.

Lemma locked_binary msg (c : Conn) : locked (snd (handle_binary msg c)) = locked c.
Proof.
  unfold Ws.handle_binary.
  destruct (_ <? _); [reflexivity|]. destruct (_ || _); [reflexivity|].
  cbn [resampler set_audio_buf audio_buf].
  destruct (resampler src_state c) as [r|] eqn:Hr.
  - pose proof (process_ratio r (floats_of_bytes msg)) as H.
    destruct (Resampler.process _ _ r _) as [[e|resampled] r']; simpl in H.
    + unfold locked, conversion. simpl. now rewrite Hr, H.
    + rewrite locked_respond. unfold locked, conversion. simpl. now rewrite Hr, H.
  - now rewrite locked_respond.
Qed.

Lemma locked_command msg (c : Conn) : locked (snd (handle_command msg c)) = locked c.
Proof.
  unfold Ws.handle_command. destruct (bool_decide (msg = "RECOGNIZE")).
  - pose proof (locked_flush_resampler c) as H1.
    destruct (flush_resampler c) as [[e|tail] c1]; simpl in H1; [exact H1|].
    assert (H2 : forall r, r = (match tail with
                                | [] => (Session.Ok tt, c1)
                                | _ :: _ => respond src_state (Ws.on_audio vad_model recognize
                                              steady_clock fmt_fixed tail) c1
                                end) -> locked (snd r) = locked c).
    { intros r ->. destruct tail; [exact H1|]. now rewrite locked_respond. }
    destruct (match tail with [] => _ | _ => _ end) as [[u|e|] c2] eqn:E;
      specialize (H2 _ eq_refl); simpl in H2; try exact H2.
    now rewrite locked_respond.
  - destruct (bool_decide (msg = "RESET")); [|reflexivity].
    pose proof (locked_session_call (Ws.on_reset steady_clock) c) as H1.
    destruct (session_call src_state _ c) as [[u|e|] c1]; simpl in H1; try exact H1.
    pose proof (locked_flush_resampler c1) as H2.
    destruct (flush_resampler c1) as [[e|tail] c2]; simpl in *; congruence.
Qed.

(** With the flag set a text message is not looked at as an
    announcement. *)
Lemma announcement_skipped msg (c : Conn) :
  sample_rate_received src_state c = true -> handle_announcement msg c = None.
Proof. unfold Ws.handle_announcement. now intros ->. Qed.

(** The [catch] clause touches neither of the three. *)
Lemma locked_handled (r : Session.outcome unit * Conn) :
  locked (conn_of src_state (try_end src_state r)) = locked (snd r).
Proof. now destruct r as [[u|e|] c]. Qed.

Lemma locked_once_received m (c : Conn) :
  sample_rate_received src_state c = true ->
  locked (conn_of src_state (handleNewMessage m c)) = locked c.
Proof.
  intros Hf. unfold Ws.handleNewMessage. rewrite locked_handled.
  destruct m as [msg|msg|]; [apply locked_binary| |reflexivity].
  unfold handle_text. rewrite announcement_skipped by exact Hf. apply locked_command.
Qed.

(** An announcement text is no command. *)
Lemma brace_no_command msg (c : Conn) :
  starts_with_brace msg = true -> handle_command msg c = (Session.Ok tt, c).
Proof.
  intros H. unfold Ws.handle_command.
  destruct msg as [|ch msg]; [discriminate|]. simpl in H.
  apply bool_decide_eq_true in H. subst ch.
  rewrite !bool_decide_eq_false_2 by discriminate. reflexivity.
Qed.

(** On a connection without announcement so far, the announcement block
    either falls through, or returns with the three as they were, or sets
    the flag and constructs at most one resampler. *)
Lemma announcement_first msg (c : Conn) :
  sample_rate_received src_state c = false ->
  match handle_announcement msg c with
  | None => True
  | Some (o, c') =>
      locked c' = locked c \/
      (sample_rate_received src_state c' = true /\
       (resamplers_made src_state c' = resamplers_made src_state c \/
        exists rates, resamplers_made src_state c' = resamplers_made src_state c ++ [rates]))
  end.
Proof.
  intros Hf. unfold Ws.handle_announcement.
  destruct (_ && _); [|exact I]. destruct (probe msg) as [| | |n]; try exact I.
  destruct (_ || _); [now left|]. destruct (negb _); [|right; split; [reflexivity|now left]].
  destruct (Resampler.make _ _ _ _) as [e|r]; right; (split; [reflexivity|]).
  - now left.
  - right. eexists. reflexivity.
Qed.

Lemma at_most_one_locked (c c' : Conn) : locked c' = locked c -> at_most_one c -> at_most_one c'.
Proof. unfold locked, at_most_one. intros [= -> _ ->]. tauto. Qed.

Lemma at_most_one_step m (c : Conn) :
  at_most_one c -> at_most_one (conn_of src_state (handleNewMessage m c)).
Proof.
  intros Hc. destruct (sample_rate_received src_state c) eqn:Hf.
  { eapply at_most_one_locked; [|exact Hc]. now apply locked_once_received. }
  destruct Hc as [Hnone _]. specialize (Hnone Hf).
  assert (Hsame : forall c', locked c' = locked c -> at_most_one c').
  { intros c' H. apply (at_most_one_locked c); [exact H|].
    split; [now intros _|]. rewrite Hnone. simpl. lia. }
  destruct m as [msg|msg|]; unfold Ws.handleNewMessage.
  - apply Hsame. rewrite locked_handled. apply locked_binary.
  - unfold handle_text. pose proof (announcement_first msg c Hf) as Ha.
    destruct (handle_announcement msg c) as [[o c']|].
    + destruct Ha as [Ha|[Hf' Ha]].
      * apply Hsame. rewrite locked_handled. exact Ha.
      * pose proof (locked_handled (o, c')) as Hl.
        set (c2 := conn_of src_state (try_end src_state (o, c'))) in *.
        clearbody c2. unfold locked in Hl. cbn [snd] in Hl. injection Hl as Hl1 _ Hl3.
        split; [rewrite Hl1, Hf'; discriminate|]. rewrite Hl3.
        destruct Ha as [->|[rates ->]]; rewrite Hnone; simpl; lia.
    + apply Hsame. rewrite locked_handled. apply locked_command.
  - apply Hsame. reflexivity.
Qed.

Lemma at_most_one_all ms (c : Conn) :
  at_most_one c -> at_most_one (conn_of src_state (handle_all ms c)).
Proof.
  revert c. induction ms as [|m ms IH]; intros c Hc; simpl; [exact Hc|].
  pose proof (at_most_one_step m c Hc) as H.
  destruct (handleNewMessage m c) as [c'|c']; simpl in H; [now apply IH|exact H].
Qed.

(** C10. On a streaming connection:
    - once an announcement was received, no message changes the flag,
      the rate conversion in place, or the list of resamplers
      constructed;
    - a text that starts like an announcement is then not parsed: it
      reaches command handling, which knows no such command, and the
      handler returns with the connection as it was;
    - over every sequence of messages on a new connection at most one
      resampler is constructed;
    - the first text that parses to a rate within 8000..192000 sets the
      flag. *)
Theorem announcement_once :
  (forall m (c : Conn),
      sample_rate_received src_state c = true ->
      let c' := conn_of src_state (handleNewMessage m c) in
      sample_rate_received src_state c' = true /\
      conversion src_state c' = conversion src_state c /\
      resamplers_made src_state c' = resamplers_made src_state c) /\
  (forall msg (c : Conn),
      sample_rate_received src_state c = true ->
      starts_with_brace msg = true ->
      handleNewMessage (Text msg) c = Handled src_state c) /\
  (forall ms s log t,
      (length (resamplers_made src_state
                 (conn_of src_state
                    (handle_all ms (open_connection src_state steady_clock s log t)))) <= 1)%nat) /\
  (forall msg (c : Conn) n,
      sample_rate_received src_state c = false ->
      starts_with_brace msg = true ->
      probe msg = JsonRate n -> 8000 <= n <= 192000 ->
      sample_rate_received src_state (conn_of src_state (handleNewMessage (Text msg) c)) = true).
Proof.
  split; [|split; [|split]].
  - intros m c Hf c'. pose proof (locked_once_received m c Hf) as H.
    unfold locked in H. injection H as H1 H2 H3. subst c'. now rewrite H1, H2, H3.
  - intros msg c Hf Hb. unfold Ws.handleNewMessage, handle_text.
    rewrite announcement_skipped by exact Hf. now rewrite brace_no_command.
  - intros ms s log t. apply at_most_one_all. split; [reflexivity|simpl; lia].
  - intros msg c n Hf Hb Hp Hn. unfold Ws.handleNewMessage, handle_text, Ws.handle_announcement.
    rewrite Hf, Hb, Hp. destruct msg as [|ch msg]; [discriminate|].
    rewrite bool_decide_eq_false_2 by discriminate. cbn [negb andb].
    destruct (Z.ltb_spec n 8000); [lia|]. destruct (Z.ltb_spec 192000 n); [lia|].
    cbn [orb]. destruct (negb _); [|reflexivity].
    now destruct (Resampler.make _ _ _ _).
Qed.

End Controller.

Import Fixture.

(** Two announcements, audio and a command on a new connection: the
    second announcement constructs nothing. *)
Lemma announcement_once_witness :
  (length (Ws.resamplers_made unit
             (conn_of unit
                (toy_handle_all [Text "{sample_rate:48000}"; Text "{sample_rate:44100}";
                                 Binary [0; 0; 128; 63; 0; 0; 128; 63]%Z; Text "RECOGNIZE"]
                                fresh_conn))) <= 1)%nat.
Proof.
  exact (proj1 (proj2 (proj2
           (announcement_once unit toy_src_new toy_src_process toy_src_reset toy_model
              toy_recognize toy_clock toy_fmt toy_probe small_config)))
           [Text "{sample_rate:48000}"; Text "{sample_rate:44100}";
            Binary [0; 0; 128; 63; 0; 0; 128; 63]%Z; Text "RECOGNIZE"]
           (Session.sess fresh_world) [] 1%nat).
Defined.

End WsFacts.

(** * Further properties of the code *)

(** ** Configuration validation (src/config.cpp) *)

Module ConfigFacts.

Import Scalar ScalarFacts Float FloatFacts Conf ConfSpec Session SessionSpec.
Local Open Scope Z_scope.

Lemma clamp_range v lo hi : lo <= hi -> lo <= clamp v lo hi <= hi.
Proof.
  intros H. unfold clamp.
  destruct (Z.ltb_spec v lo); [lia|]. destruct (Z.ltb_spec hi v); lia.
Qed.

(** The pattern of [validate] for an integer member: clamp when outside
    the range. *)
Lemma clamp_outside_range v lo hi :
  lo <= hi ->
  lo <= (if (v <? lo) || (hi <? v) then clamp v lo hi else v) <= hi.
Proof.
  intros H. destruct (Z.ltb_spec v lo); destruct (Z.ltb_spec hi v); simpl;
    try apply clamp_range; lia.
Qed.

Lemma f32_zero_eq : f32_of_Z 0 = S754_zero false.
Proof. reflexivity. Qed.

Lemma f32_one_eq : f32_of_Z 1 = S754_finite false 8388608 (-23).
Proof. reflexivity. Qed.

Lemma f32_low_eq : f32_ratio 1 100 = S754_finite false 10737418 (-30).
Proof. vm_compute. reflexivity. Qed.

Lemma f32_high_eq : f32_ratio 99 100 = S754_finite false 16609444 (-24).
Proof. vm_compute. reflexivity. Qed.

Lemma fclamp_threshold t :
  threshold_outside t = true ->
  threshold_outside (fclamp t (f32_ratio 1 100) (f32_ratio 99 100)) = false.
Proof.
  unfold threshold_outside, fclamp, fle, fge, flt, SFleb, SFltb.
  rewrite f32_zero_eq, f32_one_eq, f32_low_eq, f32_high_eq.
  destruct t as [s|s| |s m e]; [destruct s; reflexivity|destruct s; reflexivity|discriminate|].
  destruct s; [reflexivity|].
  cbn [SFcompare orb].
  intros H.
  assert (He : -23 <= e).
  { destruct (Z.compare_spec (-23) e) as [Heq|Hlt|Hgt]; [lia|lia|discriminate]. }
  clear H.
  assert (H1 : (e ?= -30) = Gt) by (apply Z.compare_gt_iff; lia).
  assert (H2 : (-24 ?= e) = Lt) by (apply Z.compare_lt_iff; lia).
  rewrite H1, H2. reflexivity.
Qed.

Lemma validated_threshold t :
  threshold_outside
    (if threshold_outside t then fclamp t (f32_ratio 1 100) (f32_ratio 99 100) else t) = false.
Proof.
  destruct (threshold_outside t) eqn:H; [now apply fclamp_threshold|exact H].
Qed.

Lemma lifted_by lo hi step :
  lifted lo (if fle hi lo then f32_add lo step else hi) step.
Proof.
  unfold lifted. destruct (fle hi lo) eqn:H; [now right|now left].
Qed.

Lemma floored_not_below m :
  flt (if flt m (f32_of_Z 0) then f32_of_Z 0 else m) (f32_of_Z 0) = false.
Proof. destruct (flt m (f32_of_Z 0)) eqn:E; [reflexivity|exact E]. Qed.

Lemma raised_not_below m :
  fle (if fle m (f32_of_Z 0) then f32_ratio 1 100 else m) (f32_of_Z 0) = false.
Proof. destruct (fle m (f32_of_Z 0)) eqn:E; [vm_compute; reflexivity|exact E]. Qed.

Ltac validate_inv H :=
  unfold validate in H; cbv zeta in H;
  repeat match type of H with
  | (if ?b then inl _ else _) = inr _ => destruct b eqn:?; [discriminate H|]
  end;
  injection H as <-.

Ltac config_simpl :=
  cbn [host port threads model_dir vad_model provider num_threads sample_rate feature_dim
       vad_threshold vad_min_silence vad_min_speech vad_max_speech vad_window_size
       vad_context_size recognizer_pool_size max_concurrent_requests silence_threshold
       min_audio_sec max_audio_sec max_upload_bytes max_ws_message_bytes].

Lemma validate_settled c c' : validate c = inr c' -> settled c'.
Proof.
  intros H. validate_inv H. unfold settled. config_simpl.
  fold (threshold_outside (vad_threshold c)).
  repeat match goal with H : (_ || _) = false |- _ => apply orb_false_iff in H; destruct H end.
  repeat match goal with
         | H : (_ <=? _) = false |- _ => apply Z.leb_gt in H
         | H : (_ <? _) = false |- _ => apply Z.ltb_ge in H
         | H : (_ =? _) = false |- _ => apply Z.eqb_neq in H
         end.
  pose proof (clamp_outside_range (sample_rate c) 8000 48000).
  pose proof (clamp_outside_range (vad_window_size c) 64 4096).
  pose proof (clamp_outside_range (num_threads c) 1 128).
  pose proof (clamp_outside_range (threads c) 1 256) as Ht.
  set (threads' := if (threads c <? 1) || (256 <? threads c) then _ else _) in *.
  pose proof (clamp_outside_range
                (if recognizer_pool_size c =? 0 then wrap_int threads'
                 else recognizer_pool_size c) 1 256).
  repeat (split; [lia|]).
  split.
  { destruct (max_concurrent_requests c =? 0) eqn:E.
    - rewrite wrap_size_small by lia. lia.
    - now apply Z.eqb_neq in E. }
  repeat (split; [assumption || lia|]).
  split; [exact (validated_threshold _)|].
  split; [exact (floored_not_below _)|].
  split; [exact (raised_not_below _)|].
  split; [exact (raised_not_below _)|].
  split; [exact (lifted_by _ _ _)|exact (lifted_by _ _ _)].
Qed.

(** Rewrites the integer tests of the goal that are false. *)
Ltac pass_tests :=
  repeat match goal with
         | |- context [?a <? ?b] => rewrite (proj2 (Z.ltb_ge a b)) by lia
         | |- context [?a <=? ?b] => rewrite (proj2 (Z.leb_gt a b)) by lia
         | |- context [?a =? ?b] => rewrite (proj2 (Z.eqb_neq a b)) by lia
         end.

Lemma settled_fixed c : settled c -> validate c = inr c.
Proof.
  destruct c. unfold settled, lifted, threshold_outside, validate. config_simpl.
  intros (? & ? & ? & ? & ? & ? & ? & ? & ? & ? & ? & Ht & Hm & Hs & Hp & Ha & Hv).
  cbv zeta. repeat (pass_tests; cbn [orb]).
  rewrite Ht, Hm, Hs, Hp.
  destruct Ha as [-> | Ha], Hv as [-> | Hv]; try rewrite <- Ha; try rewrite <- Hv;
    repeat match goal with |- context [if ?b then ?x else ?x] => destruct b end;
    reflexivity.
Qed.

(** X1. A configuration that [validate] accepts leaves it within the
    ranges the rest of the server relies on: sample rate in
    [8000, 48000], window in [64, 4096] with the context inside it, thread
    counts and pool size in their ranges, no zero limit, the threshold
    neither at most 0 nor at least 1, and no duration at or below zero. *)
Theorem validate_bounds (c c' : Config) :
  validate c = inr c' ->
  8000 <= sample_rate c' <= 48000 /\
  64 <= vad_window_size c' <= 4096 /\
  0 <= vad_context_size c' < vad_window_size c' /\
  1 <= num_threads c' <= 128 /\
  1 <= threads c' <= 256 /\
  1 <= recognizer_pool_size c' <= 256 /\
  max_concurrent_requests c' <> 0 /\
  0 < feature_dim c' /\ port c' <> 0 /\
  max_upload_bytes c' <> 0 /\ max_ws_message_bytes c' <> 0 /\
  (fle (vad_threshold c') (f32_of_Z 0) || fge (vad_threshold c') (f32_of_Z 1)) = false /\
  flt (min_audio_sec c') (f32_of_Z 0) = false /\
  fle (vad_min_silence c') (f32_of_Z 0) = false /\
  fle (vad_min_speech c') (f32_of_Z 0) = false.
Proof.
  intros H. apply validate_settled in H.
  destruct H as (? & ? & ? & ? & ? & ? & ? & ? & ? & ? & ? & ? & ? & ? & ? & _).
  repeat (split; [assumption|]). assumption.
Qed.

(** X2. [validate] is idempotent: a configuration it returned is
    accepted again and returned unchanged. *)
Theorem validate_idempotent (c c' : Config) :
  validate c = inr c' -> validate c' = inr c'.
Proof. intros H. apply settled_fixed, (validate_settled c), H. Qed.

Section Startup.

Variable steady_clock : nat -> Z.


End Startup.

Import Fixture.

Lemma validate_bounds_witness :
  validate default_config = inr default_validated /\
  8000 <= sample_rate default_validated <= 48000 /\
  recognizer_pool_size default_validated = 8 /\
  max_concurrent_requests default_validated = 16.
Proof.
  assert (H : validate default_config = inr default_validated) by (vm_compute; reflexivity).
  split; [exact H|]. split; [exact (proj1 (validate_bounds _ _ H))|].
  split; vm_compute; reflexivity.
Defined.

Lemma validate_idempotent_witness :
  validate default_config = inr default_validated /\
  validate default_validated = inr default_validated.
Proof.
  assert (H : validate default_config = inr default_validated) by (vm_compute; reflexivity).
  split; [exact H|exact (validate_idempotent _ _ H)].
Defined.


End ConfigFacts.

(** ** JSON escaping (src/handler.cpp) *)

Module EscapeFacts.

Import Session JsonSpec.

Lemma append_cons_str x (a b : string) : String x a +:+ b = String x (a +:+ b).
Proof. reflexivity. Qed.

Lemma append_nil_l_str (a : string) : EmptyString +:+ a = a.
Proof. reflexivity. Qed.

Lemma append_assoc_str (a b c : string) : (a +:+ b) +:+ c = a +:+ (b +:+ c).
Proof.
  induction a as [|x a IH]; [reflexivity|]. rewrite !append_cons_str. now rewrite IH.
Qed.

Lemma append_nil_r_str (a : string) : a +:+ EmptyString = a.
Proof. induction a as [|x a IH]; [reflexivity|]. rewrite append_cons_str. now rewrite IH. Qed.

Lemma length_append_str (a b : string) :
  String.length (a +:+ b) = (String.length a + String.length b)%nat.
Proof.
  induction a as [|x a IH]; [reflexivity|]. rewrite append_cons_str. simpl. now rewrite IH.
Qed.

(** [json_escape_to] only appends: what [out] held stays in front. *)
Lemma json_escape_to_app out s :
  json_escape_to out s = out +:+ json_escape_to EmptyString s.
Proof.
  revert out. induction s as [|c s IH]; intros out; cbn [json_escape_to].
  - now rewrite append_nil_r_str.
  - rewrite IH, (IH (EmptyString +:+ json_escape_char c)).
    rewrite append_nil_l_str. now rewrite append_assoc_str.
Qed.

Lemma json_escape_to_cons c s :
  json_escape_to EmptyString (String c s)
  = json_escape_char c +:+ json_escape_to EmptyString s.
Proof. cbn [json_escape_to]. rewrite append_nil_l_str. apply json_escape_to_app. Qed.

Lemma unescape_escaped_char c rest :
  json_unescape (json_escape_char c +:+ rest) = String c <$> json_unescape rest.
Proof.
  destruct c as [[] [] [] [] [] [] [] []]; reflexivity.
Qed.


Lemma json_escape_char_length c :
  (1 <= String.length (json_escape_char c) <= 6)%nat.
Proof. destruct c as [[] [] [] [] [] [] [] []]; vm_compute; lia. Qed.

(** X5. The escaped text is at least as long as the text and at most
    six times as long (every character gives between one and six). *)
Theorem json_escape_length (out s : string) :
  (String.length out + String.length s <= String.length (json_escape_to out s)
   <= String.length out + 6 * String.length s)%nat.
Proof.
  rewrite json_escape_to_app, length_append_str.
  induction s as [|c s IH]; [simpl; lia|].
  rewrite json_escape_to_cons, length_append_str.
  pose proof (json_escape_char_length c). simpl String.length. lia.
Qed.

End EscapeFacts.

(** ** Recognizer pool (src/recognizer.cpp) *)

Module PoolFacts.

Import Scalar ScalarFacts Recognizer RecognizerSpec EscapeFacts.

(** *** Trimming *)

Lemma last_char_cons c s :
  s <> EmptyString -> last_char (String c s) = last_char s.
Proof. destruct s; [congruence|reflexivity]. Qed.

Lemma erase_trailing_split text :
  exists trail,
    text = erase_trailing text +:+ trail /\ all_space trail = true /\
    (forall c, last_char (erase_trailing text) = Some c -> is_space c = false).
Proof.
  induction text as [|c rest (trail & Heq & Hsp & Hlast)].
  - exists EmptyString. repeat split. discriminate.
  - cbn [erase_trailing]. destruct (erase_trailing rest) as [|k kept] eqn:Hk.
    + destruct (is_space c) eqn:Hc.
      * exists (String c trail). rewrite append_nil_l_str in Heq |- *. subst rest.
        repeat split; [simpl; now rewrite Hc|discriminate].
      * exists trail. rewrite append_nil_l_str in Heq. subst rest.
        repeat split; [exact Hsp|]. intros c' [= <-]. exact Hc.
    + exists trail. rewrite append_cons_str, <- Heq. repeat split; [exact Hsp|].
      intros c'. rewrite last_char_cons by discriminate. apply Hlast.
Qed.

Lemma first_not_space_split text kept :
  first_not_space text = Some kept ->
  exists lead,
    text = lead +:+ kept /\ all_space lead = true /\
    (forall c, first_char kept = Some c -> is_space c = false) /\
    last_char kept = last_char text.
Proof.
  revert kept. induction text as [|c rest IH]; intros kept; cbn [first_not_space].
  - discriminate.
  - destruct (is_space c) eqn:Hc.
    + intros H. destruct (IH _ H) as (lead & -> & Hsp & Hfirst & Hlast).
      exists (String c lead). rewrite append_cons_str.
      repeat split; [simpl; now rewrite Hc|exact Hfirst|].
      rewrite Hlast. symmetry. apply last_char_cons.
      destruct lead; [|discriminate]. rewrite append_nil_l_str.
      destruct kept; [discriminate|discriminate].
    + intros [= <-]. exists EmptyString. repeat split.
      intros c' [= <-]. exact Hc.
Qed.

Lemma first_not_space_none text :
  first_not_space text = None -> all_space text = true.
Proof.
  induction text as [|c rest IH]; cbn [first_not_space all_space]; [reflexivity|].
  destruct (is_space c); [intros H; now rewrite IH|discriminate].
Qed.

Lemma all_space_last text c :
  all_space text = true -> last_char text = Some c -> is_space c = true.
Proof.
  induction text as [|x rest IH]; [discriminate|].
  cbn [all_space]. intros [Hx Hrest]%andb_true_iff.
  destruct rest as [|y rest']; [intros [= <-]; exact Hx|].
  rewrite last_char_cons by discriminate. now apply IH.
Qed.

Lemma last_char_some text :
  text <> EmptyString -> exists c, last_char text = Some c.
Proof.
  induction text as [|x rest IH]; [congruence|]. intros _.
  destruct rest as [|y rest']; [now exists x|].
  rewrite last_char_cons by discriminate. apply IH. discriminate.
Qed.

Lemma trim_split (text : string) :
  exists lead trail,
    text = lead +:+ trim text +:+ trail /\
    all_space lead = true /\ all_space trail = true /\
    trimmed (trim text).
Proof.
  destruct (erase_trailing_split text) as (trail & Heq & Htrail & Hlast).
  unfold trim, erase_leading.
  destruct (first_not_space (erase_trailing text)) as [kept|] eqn:Hf.
  - destruct (first_not_space_split _ _ Hf) as (lead & Hk & Hlead & Hfirst & Hl).
    exists lead, trail. rewrite <- append_assoc_str, <- Hk, <- Heq.
    repeat split; [exact Hlead|exact Htrail|exact Hfirst|].
    intros c. rewrite Hl. apply Hlast.
  - exists EmptyString, trail. rewrite append_nil_l_str.
    repeat split; [exact Heq|exact Htrail| |exact Hlast].
    pose proof (first_not_space_none _ Hf) as Hall.
    destruct (erase_trailing text) as [|x k] eqn:Hk; [discriminate|].
    destruct (last_char_some (String x k)) as (c & Hc); [discriminate|].
    pose proof (all_space_last _ _ Hall Hc) as H1. rewrite (Hlast _ Hc) in H1. discriminate.
Qed.

(** X6. The trimming of [recognize] removes exactly the white space at
    both ends: the text is white space, then the trimmed text, then
    white space, and the trimmed text neither starts nor ends with a
    space, tab, line feed or carriage return. *)
Theorem trim_strips_both_ends (text : string) :
  exists lead trail,
    text = lead +:+ trim text +:+ trail /\
    all_space lead = true /\ all_space trail = true /\
    trimmed (trim text).
Proof. exact (trim_split text). Qed.

(** *** The pool *)

Lemma first_free_none slots :
  first_free slots = None -> Forall (fun s => in_use s = true) slots.
Proof.
  induction slots as [|s slots IH]; cbn [first_free]; [constructor|].
  destruct (in_use s) eqn:Hs; [|discriminate].
  destruct (first_free slots); [discriminate|]. intros _. constructor; [exact Hs|now apply IH].
Qed.

Lemma trimmed_empty : trimmed EmptyString.
Proof. split; discriminate. Qed.

Section Pool.

Variable create_recognizer : nat -> Z -> option handle_t.
Variable create_stream : option handle_t -> option stream_t.
Variable decode : option handle_t -> stream_t -> Z -> list Float.f32 -> option (option string).

(** X7. Whatever the inference library does, a [recognize] call that
    returns leaves the pool as it found it, and the text it returns is
    trimmed; it returns whenever the audio is empty or a slot is free.
    It waits only with audio in hand and every slot in use, and then it
    has changed nothing. *)
Theorem recognize_gives_pool_back
    (slots : list Slot) (audio : list Float.f32) (sample_rate : Z) :
  match recognize create_stream decode slots audio sample_rate with
  | Returned text slots' =>
      slots' = slots /\ trimmed text /\
      (audio = [] \/ exists slot_idx, first_free slots = Some slot_idx)
  | Waits slots' =>
      slots' = slots /\ audio <> [] /\ Forall (fun s => in_use s = true) slots
  end.
Proof.
  unfold recognize. destruct audio as [|x audio].
  { split; [reflexivity|]. split; [apply trimmed_empty|now left]. }
  unfold acquire. destruct (first_free slots) as [i|] eqn:Hfree.
  - destruct (create_stream _) as [stream|];
      rewrite (RecognizerFacts.release_marked _ _ Hfree).
    + split; [reflexivity|]. split; [|right; now exists i].
      destruct (decode _ _ _ _) as [[raw|]|]; try apply trimmed_empty.
      destruct (trim_split raw) as (_ & _ & _ & _ & _ & H). exact H.
    + split; [reflexivity|]. split; [apply trimmed_empty|right; now exists i].
  - split; [reflexivity|]. split; [discriminate|]. now apply first_free_none.
Qed.

Lemma make_slots_some tps i n slots :
  make_slots create_recognizer tps i n = Some slots ->
  length slots = n /\
  forall j s, slots !! j = Some s ->
              in_use s = false /\ handle s <> None /\
              handle s = create_recognizer (i + j) tps.
Proof.
  revert i slots. induction n as [|n IH]; intros i slots; cbn [make_slots].
  - intros [= <-]. split; [reflexivity|]. intros j s. now rewrite lookup_nil.
  - destruct (create_recognizer i tps) as [h|] eqn:Hh; [|discriminate].
    destruct (make_slots create_recognizer tps (S i) n) as [rest|] eqn:Hrest; [|discriminate].
    intros [= <-]. destruct (IH _ _ Hrest) as [Hlen Hall].
    split; [simpl; now rewrite Hlen|].
    intros [|j] s; cbn [lookup list_lookup].
    + intros [= <-]. cbn. rewrite Nat.add_0_r, Hh. now repeat split.
    + intros Hs. destruct (Hall _ _ Hs) as (A & B & C).
      repeat split; [exact A|exact B|]. rewrite C. f_equal. lia.
Qed.

Lemma make_slots_fails tps i n :
  make_slots create_recognizer tps i n = None ->
  exists j, (j < n)%nat /\ create_recognizer (i + j) tps = None.
Proof.
  revert i. induction n as [|n IH]; intros i; cbn [make_slots]; [discriminate|].
  destruct (create_recognizer i tps) as [h|] eqn:Hh.
  - destruct (make_slots create_recognizer tps (S i) n) as [rest|] eqn:Hrest; [discriminate|].
    intros _. destruct (IH _ Hrest) as (j & Hj & Hnone).
    exists (S j). split; [lia|]. rewrite <- Hnone. f_equal. lia.
  - intros _. exists 0%nat. split; [lia|]. now rewrite Nat.add_0_r.
Qed.

(** X8. The constructor makes [recognizer_pool_size] slots (one when
    that is not positive), each with the handle the library returned for
    it and marked free, and gives each at least one inference thread; so
    the first [recognize] finds slot 0 free. When the library returns no
    handle for some slot it raises [std::runtime_error] and there is no
    pool. *)
Theorem make_fills_pool (cfg : Conf.Config) :
  (Conf.recognizer_pool_size cfg < 2 ^ 31)%Z ->
  (1 <= threads_per_slot_of cfg)%Z /\
  match make create_recognizer cfg with
  | inr slots =>
      size slots = pool_size_of cfg /\
      (forall j s, slots !! j = Some s ->
                   in_use s = false /\ handle s <> None /\
                   handle s = create_recognizer j (threads_per_slot_of cfg)) /\
      first_free slots = Some 0%nat
  | inl e =>
      e = RuntimeError /\
      exists j, (Z.of_nat j < pool_size_of cfg)%Z /\
                create_recognizer j (threads_per_slot_of cfg) = None
  end.
Proof.
  intros Hsmall. split; [unfold threads_per_slot_of; lia|].
  unfold make. fold (pool_size_of cfg). fold (threads_per_slot_of cfg).
  assert (Hn : (1 <= pool_size_of cfg < 2 ^ 31)%Z).
  { unfold pool_size_of. destruct (Z.ltb_spec 0 (Conf.recognizer_pool_size cfg)); lia. }
  rewrite wrap_size_small by lia.
  destruct (make_slots _ _ _ _) as [slots|] eqn:Hm.
  - destruct (make_slots_some _ _ _ _ Hm) as [Hlen Hall].
    split; [unfold size; rewrite Hlen; lia|]. split; [exact Hall|].
    destruct slots as [|s slots]; [simpl in Hlen; lia|].
    destruct (Hall 0%nat s eq_refl) as (Hfree & _). cbn [first_free]. now rewrite Hfree.
  - split; [reflexivity|]. destruct (make_slots_fails _ _ _ Hm) as (j & Hj & Hnone).
    exists j. split; [lia|exact Hnone].
Qed.

End Pool.

Import Fixture.

Lemma make_fills_pool_witness :
  match make (fun i _ => Some (Z.of_nat i)) default_validated with
  | inr slots => size slots = 8%Z /\ first_free slots = Some 0%nat
  | inl _ => False
  end.
Proof.
  pose proof (make_fills_pool (fun i _ => Some (Z.of_nat i)) default_validated) as H.
  destruct (make (fun i _ => Some (Z.of_nat i)) default_validated) as [e|slots] eqn:E.
  - vm_compute in E. discriminate E.
  - destruct H as (_ & Hsize & _ & Hfree); [vm_compute; reflexivity|].
    split; [exact Hsize|exact Hfree].
Defined.

End PoolFacts.

(** ** Voice activity detector (src/vad.cpp) *)

Module DetectorFacts.

Import Scalar ScalarFacts Float Vad VadSpec DetectorSpec DetectorInv DetectorTidy.
Local Open Scope Z_scope.

Lemma machine_set_machine v sp sil start buf :
  machine (set_machine v sp sil start buf) = (sp, sil, start, buf, segments_ v, config_ v).
Proof. reflexivity. Qed.

Lemma machine_fields u sp sil start buf q cfg :
  machine u = (sp, sil, start, buf, q, cfg) ->
  in_speech_ u = sp /\ silence_samples_ u = sil /\ speech_start_samples_ u = start /\
  speech_buf_ u = buf /\ segments_ u = q /\ config_ u = cfg.
Proof. unfold machine. intros [= -> -> -> -> -> ->]. tauto. Qed.

Lemma infix_app_r {A} (s l extra : list A) : infix s l -> infix s (l ++ extra).
Proof.
  intros (pre & post & ->). exists pre, (post ++ extra). now rewrite <- !app_assoc.
Qed.

Lemma infix_suffix {A} (pre s : list A) : infix s (pre ++ s).
Proof. exists pre, []. now rewrite app_nil_r. Qed.

Lemma size_windowed (smp : list f32) w :
  0 < w -> size smp < 2 ^ 32 -> wrap_int (size smp) = w -> size smp = w.
Proof.
  unfold wrap_int. intros Hw Hlt H. pose proof (size_nonneg smp) as H0.
  destruct (Z.lt_ge_cases (size smp) (2 ^ 31)) as [Hs|Hs].
  - rewrite Z.mod_small in H by lia. lia.
  - replace (size smp + 2 ^ 31) with ((size smp - 2 ^ 31) + 1 * 2 ^ 32) in H by lia.
    rewrite Z.mod_add in H by lia. rewrite Z.mod_small in H by lia. lia.
Qed.

Lemma wrap_i64_small z : - 2 ^ 63 <= z < 2 ^ 63 -> wrap_i64 z = z.
Proof. intros H. unfold wrap_i64. rewrite Z.mod_small; lia. Qed.

Lemma wrap_int_le (smp : list f32) w :
  0 < w -> wrap_int (size smp) = w -> w <= size smp.
Proof.
  unfold wrap_int. intros Hw H. pose proof (size_nonneg smp).
  pose proof (Z.mod_le (size smp + 2 ^ 31) (2 ^ 32)). lia.
Qed.

Lemma memcpy_input (dst ctx smp : list f32) (cs ws : nat) :
  length dst = (cs + ws)%nat -> length ctx = cs -> (ws <= length smp)%nat ->
  memcpy_into (memcpy_into dst 0 ctx 0 cs) cs smp 0 ws = ctx ++ take ws smp.
Proof.
  intros Hd Hc Hs. unfold memcpy_into. rewrite !drop_0, take_0. cbn [app Nat.add].
  rewrite (take_ge ctx cs) by lia.
  rewrite take_app_length' by (symmetry; exact Hc).
  rewrite (drop_ge (ctx ++ drop cs dst)).
  - now rewrite app_nil_r.
  - rewrite length_app, length_drop. lia.
Qed.

Lemma with_scratch_same v : with_scratch (input_buf_ v) v = v.
Proof. now destruct v. Qed.

Lemma flush_with_scratch b v : flush (with_scratch b v) = with_scratch b (flush v).
Proof.
  unfold flush, finalize_segment. cbn [in_speech_ speech_buf_ with_scratch config_].
  destruct (in_speech_ v); cbn [andb]; [|reflexivity].
  destruct (negb _); [|reflexivity].
  destruct (speech_buf_ v); [reflexivity|]. destruct (flt _ _); reflexivity.
Qed.

Lemma finalize_segment_frame v :
  config_ (finalize_segment v) = config_ v /\ state_ (finalize_segment v) = state_ v /\
  input_buf_ (finalize_segment v) = input_buf_ v /\
  context_ (finalize_segment v) = context_ v /\
  sr_tensor_ (finalize_segment v) = sr_tensor_ v.
Proof.
  unfold finalize_segment. destruct (speech_buf_ v); [now repeat split|].
  destruct (flt _ _); now repeat split.
Qed.

Lemma shaped_frame v v' :
  config_ v' = config_ v -> state_ v' = state_ v -> input_buf_ v' = input_buf_ v ->
  context_ v' = context_ v -> sr_tensor_ v' = sr_tensor_ v ->
  shaped v -> shaped v'.
Proof. unfold shaped. intros -> -> -> -> ->. tauto. Qed.

Lemma shaped_finalize v : shaped v -> shaped (finalize_segment v).
Proof.
  destruct (finalize_segment_frame v) as (A & B & C & D & E). now apply shaped_frame.
Qed.

Lemma shaped_flush v : shaped v -> shaped (flush v).
Proof. unfold flush. destruct (_ && _); [apply shaped_finalize|tauto]. Qed.

Lemma shaped_set_machine v sp sil start buf : shaped v -> shaped (set_machine v sp sil start buf).
Proof. now apply shaped_frame. Qed.

Lemma reset_is_scratch cfg v v0 :
  make cfg = inr v0 -> config_ v = cfg -> shaped v ->
  reset v = with_scratch (input_buf_ v) v0.
Proof.
  unfold make. repeat (destruct (_ : bool); [discriminate|]). intros [= <-] Hc.
  intros (_ & _ & Hsr & Hst & _). unfold reset, with_scratch. cbn.
  rewrite Hst, Hsr, Hc. reflexivity.
Qed.

Lemma shaped_make cfg v0 :
  make cfg = inr v0 -> window_size cfg < 2 ^ 31 -> shaped v0.
Proof.
  unfold make.
  destruct (Z.leb_spec (window_size cfg) 0); [discriminate|].
  destruct (Z.ltb_spec (context_size cfg) 0); [discriminate|].
  destruct (Z.leb_spec (window_size cfg) (context_size cfg)); [discriminate|]. cbn [orb].
  repeat (destruct (_ : bool); [discriminate|]). intros [= <-] Hw.
  unfold shaped. cbn. rewrite !length_replicate, !wrap_size_small by lia.
  repeat split; lia.
Qed.

Section Detector.

Variable vad_model : list f32 -> list f32 -> Z -> f32 * list f32.

Lemma accept_waveform_accepted v smp v' :
  accept_waveform vad_model v smp = inr v' ->
  wrap_int (size smp) = window_size (config_ v) /\ accepted v smp v'.
Proof.
  unfold accept_waveform.
  destruct (negb _) eqn:Hsz; [discriminate|].
  apply negb_false_iff, Z.eqb_eq in Hsz. split; [exact Hsz|]. revert H.
  destruct (infer vad_model v smp) as [e|[prob v1]] eqn:Hinf; [discriminate|].
  destruct (VadFacts.infer_frame _ _ _ _ _ Hinf) as (Hc & Hs & Hsp & Hsil & Hst & Hbuf).
  rewrite Hc.
  assert (Hcnt : wrap_i64 ((if in_speech_ v1 then speech_start_samples_ v1 else 0)
                           + window_size (config_ v)) = run_counter v).
  { unfold run_counter. now rewrite Hsp, Hst. }
  assert (Hrb : (if in_speech_ v1 then speech_buf_ v1 else []) ++ smp = run_buffer v smp).
  { unfold run_buffer. now rewrite Hsp, Hbuf. }
  destruct (fge prob _).
  - set (u := set_machine _ _ 0 _ _).
    assert (Hu : machine u = (true, 0, run_counter v, run_buffer v smp,
                              segments_ v, config_ v)).
    { unfold u. rewrite <- Hcnt, <- Hrb, <- Hs, <- Hc.
      destruct (in_speech_ v1) eqn:E; unfold machine; cbn; rewrite ?E; reflexivity. }
    assert (Hst' : speech_start_samples_ u = run_counter v).
    { change (speech_start_samples_ u) with (snd (fst (fst (fst (machine u))))).
      now rewrite Hu. }
    rewrite Hst'. clearbody u.
    destruct (Z.leb_spec (max_speech_samples (config_ v)) (run_counter v)) as [Hle|Hlt];
      fold (max_speech_samples (config_ v)) in *.
    + unfold max_speech_samples in Hle |- *.
      apply Z.leb_le in Hle. rewrite Hle. intros [= <-].
      apply accepted_split; [exact Hu|]. now apply Z.leb_le.
    + unfold max_speech_samples in Hlt |- *.
      apply Z.leb_gt in Hlt. rewrite Hlt. intros [= <-].
      apply accepted_speech; [exact Hu|]. now apply Z.leb_gt.
  - destruct (in_speech_ v1) eqn:E.
    + set (u := set_machine _ _ _ _ _).
      assert (Hu : machine u = (true, pause_counter v, run_counter v, run_buffer v smp,
                                segments_ v, config_ v)).
      { unfold u, pause_counter, run_counter, run_buffer.
        rewrite <- Hsp, <- Hst, <- Hbuf, <- Hsil, <- Hs, <- Hc. reflexivity. }
      assert (Hsil' : silence_samples_ u = pause_counter v).
      { change (silence_samples_ u) with (snd (fst (fst (fst (fst (machine u)))))).
        now rewrite Hu. }
      rewrite Hsil'. clearbody u. symmetry in Hsp.
      fold (min_silence_samples (config_ v)).
      destruct (Z.leb_spec (min_silence_samples (config_ v)) (pause_counter v)) as [Hle|Hlt].
      * intros [= <-]. now apply accepted_close.
      * intros [= <-]. now apply accepted_pause.
    + intros [= <-]. apply accepted_ignored; [congruence|].
      unfold machine. congruence.
Qed.

Lemma accept_waveform_rejects v smp :
  wrap_int (size smp) <> window_size (config_ v) ->
  accept_waveform vad_model v smp = inl InvalidArgument.
Proof.
  intros H. unfold accept_waveform.
  destruct (Z.eqb_spec (wrap_int (size smp)) (window_size (config_ v))); [contradiction|].
  reflexivity.
Qed.

(** *** Invariants over sequences of calls *)

Section Invariant.

Variable cfg : VadConfig.
(** What is assumed of every call. *)
Variable G : vad_call -> Prop.
(** The invariant, of the audio taken in so far and the detector. *)
Variable P : list f32 -> VoiceActivityDetector -> Prop.

Hypothesis P_config : forall inp v, P inp v -> config_ v = cfg.
Hypothesis P_accept :
  forall inp v smp v',
    P inp v -> G (AcceptWaveform smp) -> wrap_int (size smp) = window_size cfg ->
    accepted v smp v' -> P (inp ++ smp) v'.
Hypothesis P_flush : forall inp v, P inp v -> P inp (flush v).

Lemma vad_step_keeps c inp v :
  G c -> P inp v -> P (inp ++ heard cfg c) (vad_step vad_model c v).
Proof using P_config P_accept P_flush.
  intros Hg Hp. pose proof (P_config _ _ Hp) as Hc.
  destruct c as [smp|]; cbn [vad_step heard].
  - destruct (accept_waveform vad_model v smp) as [e|v'] eqn:E.
    + destruct (Z.eqb_spec (wrap_int (size smp)) (window_size cfg)) as [Heq|Hne].
      * rewrite <- Hc in Heq.
        destruct (SessionFacts.accept_waveform_returns vad_model v smp Heq) as (v' & Hv' & _).
        congruence.
      * now rewrite app_nil_r.
    + destruct (accept_waveform_accepted _ _ _ E) as [Hsz Hacc]. rewrite Hc in Hsz.
      rewrite Hsz, Z.eqb_refl. now apply (P_accept inp v smp v').
  - rewrite app_nil_r. now apply P_flush.
Qed.

Lemma run_calls_keeps cs inp v :
  Forall G cs -> P inp v -> P (inp ++ taken cfg cs) (run_calls vad_model cs v).
Proof using P_config P_accept P_flush.
  revert inp v. induction cs as [|c cs IH]; intros inp v Hg Hp.
  - unfold taken. cbn. now rewrite app_nil_r.
  - apply Forall_cons in Hg as [Hc Hcs].
    unfold taken. cbn [map concat run_calls fold_left]. rewrite app_assoc.
    apply IH; [exact Hcs|]. now apply vad_step_keeps.
Qed.

End Invariant.

(** *** Segments are runs of the input *)

Lemma runs_of_finalize cfg inp u :
  config_ u = cfg -> (exists pre, inp = pre ++ speech_buf_ u) ->
  Forall (fun seg => infix (samples seg) inp) (segments_ u) ->
  runs_of cfg inp (finalize_segment u).
Proof.
  intros Hc (pre & Hpre) Hsegs.
  destruct (VadFacts.finalize_segment_cases u) as [Hb|Hb Hd|Hb Hd];
    (split; [exact Hc|]); cbn.
  - split; [exists inp; now rewrite app_nil_r|]. split; [reflexivity|exact Hsegs].
  - split; [exists inp; now rewrite app_nil_r|]. split; [reflexivity|exact Hsegs].
  - split; [exists inp; now rewrite app_nil_r|]. split; [reflexivity|].
    apply Forall_app. split; [exact Hsegs|]. constructor; [|constructor].
    cbn. rewrite Hpre. apply infix_suffix.
Qed.

Lemma runs_of_counted cfg inp v smp u sil :
  runs_of cfg inp v ->
  machine u = (true, sil, run_counter v, run_buffer v smp, segments_ v, config_ v) ->
  config_ u = cfg /\ (exists pre, inp ++ smp = pre ++ speech_buf_ u) /\
  Forall (fun seg => infix (samples seg) (inp ++ smp)) (segments_ u).
Proof.
  intros (Hc & (pre & Hpre) & Hidle & Hsegs) Hu.
  apply machine_fields in Hu as (Hsp & _ & _ & Hbuf & Hq & Hcu).
  split; [congruence|]. rewrite Hbuf, Hq. split.
  - unfold run_buffer. destruct (in_speech_ v).
    + exists pre. rewrite Hpre. now rewrite <- app_assoc.
    + now exists inp.
  - eapply Forall_impl; [exact Hsegs|]. intros seg. apply infix_app_r.
Qed.

Lemma runs_of_accept cfg inp v smp v' :
  runs_of cfg inp v -> accepted v smp v' -> runs_of cfg (inp ++ smp) v'.
Proof.
  intros Hinv Hacc.
  destruct Hacc as [u Hu _|u Hu _|u _ Hu _|u _ Hu _|u Hidle Hu].
  - destruct (runs_of_counted _ _ _ _ _ _ Hinv Hu) as (A & B & C).
    apply machine_fields in Hu as (Hsp & _).
    split; [exact A|]. split; [exact B|]. split; [congruence|exact C].
  - destruct (runs_of_counted _ _ _ _ _ _ Hinv Hu) as (A & B & C).
    now apply runs_of_finalize.
  - destruct (runs_of_counted _ _ _ _ _ _ Hinv Hu) as (A & B & C).
    apply machine_fields in Hu as (Hsp & _).
    split; [exact A|]. split; [exact B|]. split; [congruence|exact C].
  - destruct (runs_of_counted _ _ _ _ _ _ Hinv Hu) as (A & B & C).
    now apply runs_of_finalize.
  - destruct Hinv as (Hc & _ & Hempty & Hsegs).
    apply machine_fields in Hu as (Hsp & _ & _ & Hbuf & Hq & Hcu).
    specialize (Hempty Hidle).
    split; [congruence|]. split; [exists (inp ++ smp); rewrite Hbuf, Hempty; now rewrite app_nil_r|].
    split; [intros _; congruence|]. rewrite Hq.
    eapply Forall_impl; [exact Hsegs|]. intros seg. apply infix_app_r.
Qed.

Lemma runs_of_flush cfg inp v : runs_of cfg inp v -> runs_of cfg inp (flush v).
Proof.
  intros Hinv. unfold flush. destruct (_ && _); [|exact Hinv].
  destruct Hinv as (Hc & Hpre & _ & Hsegs). now apply runs_of_finalize.
Qed.

Lemma runs_of_make cfg v0 : make cfg = inr v0 -> runs_of cfg [] v0.
Proof.
  unfold make. repeat (destruct (_ : bool); [discriminate|]). intros [= <-].
  split; [reflexivity|]. cbn. split; [now exists []|]. split; [reflexivity|constructor].
Qed.

(** X9. The detector neither invents nor reorders audio: after any
    sequence of [accept_waveform] and [flush] calls on a new detector,
    every segment in the ready queue is a contiguous part of the audio
    the detector took in (the windows whose size passed its check, in
    order). *)
Theorem segments_are_input_runs (cfg : VadConfig) (v0 : VoiceActivityDetector)
    (cs : list vad_call) :
  make cfg = inr v0 ->
  Forall (fun seg => infix (samples seg) (taken cfg cs))
         (segments_ (run_calls vad_model cs v0)).
Proof.
  intros Hmake.
  assert (H : runs_of cfg ([] ++ taken cfg cs) (run_calls vad_model cs v0)).
  { apply (run_calls_keeps cfg (fun _ => True) (runs_of cfg)).
    - now intros inp v (Hc & _).
    - intros inp v smp v' Hinv _ _ Hacc. exact (runs_of_accept cfg inp v smp v' Hinv Hacc).
    - apply runs_of_flush.
    - apply Forall_forall. tauto.
    - now apply runs_of_make. }
  cbn [app] in H. now destruct H as (_ & _ & _ & H).
Qed.

(** *** Segments are whole windows *)

Lemma windowed_finalize cfg inp u :
  config_ u = cfg -> 0 < window_size cfg ->
  windows cfg 0 (size (speech_buf_ u)) ->
  Forall (fun seg => windows cfg 1 (size (samples seg))) (segments_ u) ->
  windowed cfg inp (finalize_segment u).
Proof.
  intros Hc Hw (k & Hk & Hsz) Hsegs.
  assert (Hnil : windows cfg 0 (size (@nil f32))) by (exists 0; split; [lia|reflexivity]).
  destruct (VadFacts.finalize_segment_cases u) as [Hb|Hb Hd|Hb Hd];
    (split; [exact Hc|]); (split; [exact Hw|]); cbn; (split; [exact Hnil|]); try exact Hsegs.
  apply Forall_app. split; [exact Hsegs|]. constructor; [|constructor]. cbn.
  exists k. split; [|exact Hsz].
  assert (size (speech_buf_ u) <> 0) by (now rewrite size_nil_iff). nia.
Qed.

Lemma windowed_counted cfg inp v smp u sil :
  windowed cfg inp v -> size smp = window_size cfg ->
  machine u = (true, sil, run_counter v, run_buffer v smp, segments_ v, config_ v) ->
  config_ u = cfg /\ windows cfg 0 (size (speech_buf_ u)) /\
  Forall (fun seg => windows cfg 1 (size (samples seg))) (segments_ u).
Proof.
  intros (Hc & Hw & (k & Hk & Hbuf) & Hsegs) Hsz Hu.
  apply machine_fields in Hu as (_ & _ & _ & Hb & Hq & Hcu).
  split; [congruence|]. rewrite Hb, Hq. split; [|exact Hsegs].
  unfold run_buffer. rewrite size_app, Hsz. destruct (in_speech_ v).
  - exists (k + 1). split; [lia|]. rewrite Hbuf. ring.
  - exists 1. split; [lia|]. change (size (@nil f32)) with 0. ring.
Qed.

Lemma windowed_accept cfg inp v smp v' :
  windowed cfg inp v -> size smp = window_size cfg ->
  accepted v smp v' -> windowed cfg (inp ++ smp) v'.
Proof.
  intros Hinv Hsz Hacc. pose proof Hinv as (_ & Hw & _).
  destruct Hacc as [u Hu _|u Hu _|u _ Hu _|u _ Hu _|u Hidle Hu];
    try (destruct (windowed_counted _ _ _ _ _ _ Hinv Hsz Hu) as (A & B & C)).
  - now repeat split.
  - now apply windowed_finalize.
  - now repeat split.
  - now apply windowed_finalize.
  - destruct Hinv as (Hc & _ & Hbuf & Hsegs).
    apply machine_fields in Hu as (_ & _ & _ & Hb & Hq & Hcu).
    split; [congruence|]. split; [exact Hw|]. now rewrite Hb, Hq.
Qed.

Lemma windowed_flush cfg inp v : windowed cfg inp v -> windowed cfg inp (flush v).
Proof.
  intros Hinv. unfold flush. destruct (_ && _); [|exact Hinv].
  destruct Hinv as (Hc & Hw & Hbuf & Hsegs). now apply windowed_finalize.
Qed.

Lemma make_window cfg v0 : make cfg = inr v0 -> 0 < window_size cfg.
Proof.
  unfold make. destruct (Z.leb_spec (window_size cfg) 0); [discriminate|]. intros _. lia.
Qed.

Lemma make_machine cfg v0 :
  make cfg = inr v0 -> machine v0 = (false, 0, 0, [], [], cfg).
Proof.
  unfold make. repeat (destruct (_ : bool); [discriminate|]). now intros [= <-].
Qed.

(** X10. Segments are made of whole windows: after any sequence of calls
    on a new detector in which no window offered reaches 2^32 samples,
    every segment in the ready queue holds a positive multiple of
    [window_size] samples. *)
Theorem segments_are_whole_windows (cfg : VadConfig) (v0 : VoiceActivityDetector)
    (cs : list vad_call) :
  make cfg = inr v0 ->
  windows_bounded cs ->
  Forall (fun seg => exists k, 1 <= k /\ size (samples seg) = k * window_size cfg)
         (segments_ (run_calls vad_model cs v0)).
Proof.
  intros Hmake Hcs. pose proof (make_window _ _ Hmake) as Hw.
  assert (H : windowed cfg ([] ++ taken cfg cs) (run_calls vad_model cs v0)).
  { apply (run_calls_keeps cfg
             (fun c => match c with AcceptWaveform smp => size smp < 2 ^ 32 | Flush => True end)
             (windowed cfg)).
    - now intros inp v (Hc & _).
    - intros inp v smp v' Hinv Hg Hsz Hacc.
      apply (windowed_accept cfg inp v smp v' Hinv); [|exact Hacc].
      now apply size_windowed.
    - apply windowed_flush.
    - exact Hcs.
    - apply make_machine, machine_fields in Hmake as (_ & _ & _ & Hb & Hq & Hc).
      split; [exact Hc|]. split; [exact Hw|]. rewrite Hb, Hq.
      split; [exists 0; split; [lia|reflexivity]|constructor]. }
  now destruct H as (_ & _ & _ & H).
Qed.

(** *** Segments are bounded *)

Lemma bounded_finalize cfg inp u :
  config_ u = cfg -> 0 < window_size cfg -> longest_run cfg < 2 ^ 63 ->
  size (speech_buf_ u) <= longest_run cfg ->
  Forall (fun seg => size (samples seg) <= longest_run cfg) (segments_ u) ->
  bounded_runs cfg inp (finalize_segment u).
Proof.
  intros Hc Hw Hl Hsz Hsegs.
  destruct (VadFacts.finalize_segment_cases u) as [Hb|Hb Hd|Hb Hd];
    (split; [exact Hc|]); (split; [exact Hw|]); (split; [exact Hl|]); cbn;
    (split; [discriminate|]); try exact Hsegs.
  apply Forall_app. split; [exact Hsegs|]. constructor; [exact Hsz|constructor].
Qed.

(** What the invariant gives for the window being counted: the counter
    does not wrap and counts the buffer with this window. *)
Lemma bounded_counted cfg inp v smp :
  bounded_runs cfg inp v -> size smp = window_size cfg ->
  run_counter v = size (run_buffer v smp) /\
  0 < run_counter v <= longest_run cfg /\
  (in_speech_ v = true ->
   pause_counter v = silence_samples_ v + window_size cfg /\
   0 <= silence_samples_ v /\
   run_counter v - pause_counter v < max_speech_samples cfg /\
   pause_counter v <= run_counter v).
Proof.
  intros (Hc & Hw & Hl & Hin & _) Hsz.
  unfold run_counter, pause_counter, run_buffer, longest_run in *. rewrite Hc.
  rewrite size_app, Hsz. pose proof (size_nonneg (speech_buf_ v)).
  destruct (in_speech_ v).
  - destruct (Hin eq_refl) as (Hst & Hsil & Hor & Hm).
    rewrite !wrap_i64_small by lia. split; [lia|]. split; [lia|]. intros _. lia.
  - change (size (@nil f32)) with 0.
    rewrite !wrap_i64_small by lia. split; [lia|]. split; [lia|]. discriminate.
Qed.

Lemma bounded_accept cfg inp v smp v' :
  bounded_runs cfg inp v -> size smp = window_size cfg ->
  accepted v smp v' -> bounded_runs cfg (inp ++ smp) v'.
Proof.
  intros Hinv Hsz Hacc.
  destruct (bounded_counted _ _ _ _ Hinv Hsz) as (Hcnt & Hrange & Hpause).
  destruct Hinv as (Hc & Hw & Hl & Hin & Hsegs). subst cfg.
  destruct Hacc as [u Hu Hlt|u Hu _|u Hsp Hu Hlt|u Hsp Hu _|u Hidle Hu];
    apply machine_fields in Hu as (Hs & Hsil & Hst & Hb & Hq & Hcu).
  - split; [exact Hcu|]. split; [exact Hw|]. split; [exact Hl|].
    split; [|now rewrite Hq]. intros _. rewrite Hsil, Hst, Hb. lia.
  - apply bounded_finalize; try assumption; [|now rewrite Hq]. rewrite Hb, <- Hcnt. lia.
  - destruct (Hpause Hsp) as (Hp & Hs0 & Hm & Hle).
    split; [exact Hcu|]. split; [exact Hw|]. split; [exact Hl|].
    split; [|now rewrite Hq]. intros _. rewrite Hsil, Hst, Hb. lia.
  - apply bounded_finalize; try assumption; [|now rewrite Hq]. rewrite Hb, <- Hcnt. lia.
  - split; [exact Hcu|]. split; [exact Hw|]. split; [exact Hl|].
    split; [congruence|now rewrite Hq].
Qed.

Lemma bounded_flush cfg inp v : bounded_runs cfg inp v -> bounded_runs cfg inp (flush v).
Proof.
  intros Hinv. unfold flush. destruct (in_speech_ v) eqn:Hsp; cbn [andb]; [|exact Hinv].
  destruct (negb _); [|exact Hinv].
  destruct Hinv as (Hc & Hw & Hl & Hin & Hsegs).
  apply bounded_finalize; try assumption.
  destruct (Hin Hsp) as (Hst & Hsil & Hor & Hm). unfold longest_run. lia.
Qed.

(** X11. Segments are bounded: when the force-split limit, the silence
    that closes a run and one window together stay below 2^63 samples,
    every segment a new detector enqueues, over any sequence of calls
    whose windows stay below 2^32 samples, holds at most that many
    samples ([max_speech_samples] and [min_silence_samples] counted as 0
    when they are negative). *)
Theorem segments_are_bounded (cfg : VadConfig) (v0 : VoiceActivityDetector)
    (cs : list vad_call) :
  make cfg = inr v0 ->
  windows_bounded cs ->
  longest_run cfg < 2 ^ 63 ->
  Forall (fun seg => size (samples seg) <= longest_run cfg)
         (segments_ (run_calls vad_model cs v0)).
Proof.
  intros Hmake Hcs Hl. pose proof (make_window _ _ Hmake) as Hw.
  assert (H : bounded_runs cfg ([] ++ taken cfg cs) (run_calls vad_model cs v0)).
  { apply (run_calls_keeps cfg
             (fun c => match c with AcceptWaveform smp => size smp < 2 ^ 32 | Flush => True end)
             (bounded_runs cfg)).
    - now intros inp v (Hc & _).
    - intros inp v smp v' Hinv Hg Hsz Hacc.
      apply (bounded_accept cfg inp v smp v' Hinv); [|exact Hacc].
      now apply size_windowed.
    - apply bounded_flush.
    - exact Hcs.
    - apply make_machine, machine_fields in Hmake as (Hs & _ & _ & Hb & Hq & Hc).
      split; [exact Hc|]. split; [exact Hw|]. split; [exact Hl|]. rewrite Hs, Hq.
      split; [discriminate|constructor]. }
  now destruct H as (_ & _ & _ & _ & H).
Qed.

(** *** The scratch tensor and [reset] *)

Lemma infer_with_scratch v b smp :
  shaped v -> length b = length (input_buf_ v) ->
  infer vad_model (with_scratch b v) smp = infer vad_model v smp.
Proof.
  intros (Hctx & Hw & _ & _ & Hlc & Hli) Hb. unfold infer.
  cbn [config_ input_buf_ context_ state_ sr_tensor_ with_scratch].
  destruct (Z.eqb_spec (wrap_int (size smp)) (window_size (config_ v))) as [Hsz|];
    [|reflexivity]. cbn [negb].
  rewrite !wrap_size_small by lia.
  assert (Hs : (Z.to_nat (window_size (config_ v)) <= length smp)%nat).
  { apply wrap_int_le in Hsz; [|lia]. unfold size in Hsz. lia. }
  assert (Hlen : length (input_buf_ v)
                = (Z.to_nat (context_size (config_ v)) + Z.to_nat (window_size (config_ v)))%nat)
    by (rewrite Hli; lia).
  rewrite (memcpy_input b) by (assumption || lia).
  rewrite (memcpy_input (input_buf_ v)) by (assumption || lia).
  reflexivity.
Qed.

Lemma infer_shaped v smp prob v' :
  keeps_state_size vad_model -> shaped v ->
  infer vad_model v smp = inr (prob, v') -> shaped v'.
Proof.
  intros Hmodel (Hctx & Hw & Hsr & Hls & Hlc & Hli). unfold infer.
  destruct (Z.eqb_spec (wrap_int (size smp)) (window_size (config_ v))) as [Hsz|];
    [|discriminate]. cbn [negb].
  rewrite !wrap_size_small by lia.
  assert (Hs : (Z.to_nat (window_size (config_ v)) <= length smp)%nat).
  { apply wrap_int_le in Hsz; [|lia]. unfold size in Hsz. lia. }
  assert (Hlen : length (input_buf_ v)
                = (Z.to_nat (context_size (config_ v)) + Z.to_nat (window_size (config_ v)))%nat)
    by (rewrite Hli; lia).
  rewrite (memcpy_input (input_buf_ v)) by (assumption || lia).
  pose proof (Hmodel (context_ v ++ take (Z.to_nat (window_size (config_ v))) smp)
                (state_ v) (sr_tensor_ v) Hls) as Hnew.
  destruct (vad_model _ _ _) as [p st]. cbn [snd] in Hnew. intros [= <- <-].
  unfold shaped. cbn [config_ state_ input_buf_ context_ sr_tensor_ set_infer].
  split; [exact Hctx|]. split; [exact Hw|]. split; [exact Hsr|].
  unfold memcpy_into. rewrite !take_0, !drop_0. cbn [app Nat.add].
  rewrite !length_app, !length_take, !length_drop. unfold kStateSize in *. lia.
Qed.

Lemma accept_waveform_with_scratch v b smp :
  shaped v -> length b = length (input_buf_ v) ->
  accept_waveform vad_model (with_scratch b v) smp = accept_waveform vad_model v smp.
Proof.
  intros Hsh Hb. unfold accept_waveform. rewrite infer_with_scratch by assumption.
  reflexivity.
Qed.

Lemma accept_waveform_shaped v smp v' :
  keeps_state_size vad_model -> shaped v ->
  accept_waveform vad_model v smp = inr v' -> shaped v'.
Proof.
  intros Hmodel Hsh. unfold accept_waveform. destruct (negb _); [discriminate|].
  destruct (infer vad_model v smp) as [e|[prob v1]] eqn:Hinf; [discriminate|].
  pose proof (infer_shaped _ _ _ _ Hmodel Hsh Hinf) as H1.
  destruct (fge _ _).
  - destruct (_ <=? _); intros [= <-];
      [apply shaped_finalize|]; apply shaped_set_machine;
      destruct (in_speech_ v1); try apply shaped_set_machine; exact H1.
  - destruct (in_speech_ v1); [|now intros [= <-]].
    destruct (_ <=? _); intros [= <-];
      [apply shaped_finalize|]; apply shaped_set_machine; exact H1.
Qed.

Lemma vad_step_shaped c v :
  keeps_state_size vad_model -> shaped v -> shaped (vad_step vad_model c v).
Proof.
  intros Hmodel Hsh. destruct c as [smp|]; cbn [vad_step]; [|now apply shaped_flush].
  destruct (accept_waveform vad_model v smp) as [e|v'] eqn:E; [exact Hsh|].
  now apply (accept_waveform_shaped v smp).
Qed.

Lemma step_config c v : config_ (vad_step vad_model c v) = config_ v.
Proof. now destruct (VadFacts.vad_step_extends vad_model c v). Qed.

Lemma run_calls_shaped cs v :
  keeps_state_size vad_model -> shaped v ->
  shaped (run_calls vad_model cs v) /\ config_ (run_calls vad_model cs v) = config_ v.
Proof.
  intros Hmodel. revert v. induction cs as [|c cs IH]; intros v Hsh; [now split|].
  cbn [run_calls fold_left].
  destruct (IH (vad_step vad_model c v)) as [A B]; [now apply vad_step_shaped|].
  split; [exact A|]. unfold run_calls in B. rewrite B. apply step_config.
Qed.

Lemma vad_step_same c v w :
  keeps_state_size vad_model -> shaped v -> same_but_scratch v w ->
  same_but_scratch (vad_step vad_model c v) (vad_step vad_model c w).
Proof.
  intros Hmodel Hsh (b & Hb & ->). destruct c as [smp|]; cbn [vad_step].
  - rewrite accept_waveform_with_scratch by assumption.
    destruct (accept_waveform vad_model v smp) as [e|v'].
    + now exists b.
    + exists (input_buf_ v'). split; [reflexivity|]. symmetry. apply with_scratch_same.
  - exists b. split; [|apply flush_with_scratch].
    rewrite Hb. unfold flush. destruct (_ && _); [|reflexivity].
    now destruct (finalize_segment_frame v) as (_ & _ & -> & _).
Qed.

Lemma run_calls_same cs v w :
  keeps_state_size vad_model -> shaped v -> same_but_scratch v w ->
  same_but_scratch (run_calls vad_model cs v) (run_calls vad_model cs w).
Proof.
  intros Hmodel. revert v w. induction cs as [|c cs IH]; intros v w Hsh Hsame; [exact Hsame|].
  cbn [run_calls fold_left]. apply IH; [now apply vad_step_shaped|now apply vad_step_same].
Qed.

(** X12. [reset] makes the detector new again: whatever calls came
    before it, the detector answers every later sequence of calls as a
    newly constructed one does -- same queue, same state machine, same
    recurrent state and context -- the two differing at most in the
    contents of the scratch input tensor. The network is assumed to
    return a state of the size of the state tensor. *)
Theorem reset_behaves_as_new (cfg : VadConfig) (v0 : VoiceActivityDetector)
    (before after : list vad_call) :
  make cfg = inr v0 ->
  window_size cfg < 2 ^ 31 ->
  keeps_state_size vad_model ->
  same_but_scratch (run_calls vad_model after v0)
                   (run_calls vad_model after (reset (run_calls vad_model before v0))).
Proof.
  intros Hmake Hw Hmodel.
  pose proof (shaped_make _ _ Hmake Hw) as Hsh0.
  destruct (run_calls_shaped before v0 Hmodel Hsh0) as [Hsh Hc].
  apply run_calls_same; [exact Hmodel|exact Hsh0|].
  exists (input_buf_ (run_calls vad_model before v0)). split.
  - destruct Hsh as (_ & _ & _ & _ & _ & ->). destruct Hsh0 as (_ & _ & _ & _ & _ & ->).
    now rewrite Hc.
  - apply (reset_is_scratch cfg); [exact Hmake| |exact Hsh].
    rewrite Hc. unfold make in Hmake. revert Hmake.
    repeat (destruct (_ : bool); [discriminate|]). now intros [= <-].
Qed.

(** *** [flush] *)

Lemma idle_finalize u : idle (finalize_segment u).
Proof.
  destruct (VadFacts.finalize_segment_cases u) as [Hb|Hb Hd|Hb Hd]; now repeat split.
Qed.

Lemma tidy_finalize cfg inp u :
  config_ u = cfg -> 0 < window_size cfg -> tidy cfg inp (finalize_segment u).
Proof.
  intros Hc Hw. pose proof (idle_finalize u) as Hi.
  split; [now destruct (finalize_segment_frame u) as (-> & _)|]. split; [exact Hw|].
  split; [now intros _|]. destruct Hi as (-> & _). discriminate.
Qed.

Lemma tidy_accept cfg inp v smp v' :
  tidy cfg inp v -> wrap_int (size smp) = window_size cfg ->
  accepted v smp v' -> tidy cfg (inp ++ smp) v'.
Proof.
  intros (Hc & Hw & Hidle & Hbusy) Hsz Hacc.
  assert (Hne : run_buffer v smp <> []).
  { unfold run_buffer. intros [_ ->]%app_eq_nil.
    change (wrap_int (size (@nil f32))) with 0 in Hsz. lia. }
  destruct Hacc as [u Hu _|u Hu _|u _ Hu _|u _ Hu _|u Hsp Hu];
    apply machine_fields in Hu as (Hs & Hsil & Hst & Hb & Hq & Hcu).
  - split; [congruence|]. split; [exact Hw|]. split; [congruence|]. now rewrite Hb.
  - apply tidy_finalize; [congruence|exact Hw].
  - split; [congruence|]. split; [exact Hw|]. split; [congruence|]. now rewrite Hb.
  - apply tidy_finalize; [congruence|exact Hw].
  - split; [congruence|]. split; [exact Hw|]. split; [|congruence].
    intros _. destruct (Hidle Hsp) as (A & B & C & D). unfold idle. now rewrite Hs, Hsil, Hst, Hb.
Qed.

Lemma tidy_flush cfg inp v : tidy cfg inp v -> tidy cfg inp (flush v).
Proof.
  intros Hinv. unfold flush. destruct (_ && _); [|exact Hinv].
  destruct Hinv as (Hc & Hw & _). now apply tidy_finalize.
Qed.

Lemma flush_idle v :
  (in_speech_ v = false -> idle v) -> (in_speech_ v = true -> speech_buf_ v <> []) ->
  idle (flush v).
Proof.
  intros Hidle Hbusy. unfold flush. destruct (in_speech_ v) eqn:Hsp; cbn [andb].
  - destruct (decide (speech_buf_ v = [])) as [Hnil|Hne]; [now destruct Hbusy|].
    rewrite bool_decide_eq_false_2 by exact Hne. apply idle_finalize.
  - now apply Hidle.
Qed.

Lemma flush_of_idle v : idle v -> flush v = v.
Proof. intros (Hsp & _). unfold flush. now rewrite Hsp. Qed.

(** X13. [flush] always ends the run: after any sequence of calls on a
    new detector, a [flush] leaves it outside of a run with both
    counters zero and the buffer empty (the run was enqueued or dropped
    as too short), and a second [flush] changes nothing. *)
Theorem flush_ends_the_run (cfg : VadConfig) (v0 : VoiceActivityDetector)
    (cs : list vad_call) :
  make cfg = inr v0 ->
  idle (flush (run_calls vad_model cs v0)) /\
  flush (flush (run_calls vad_model cs v0)) = flush (run_calls vad_model cs v0).
Proof.
  intros Hmake. pose proof (make_window _ _ Hmake) as Hw.
  assert (H : tidy cfg ([] ++ taken cfg cs) (run_calls vad_model cs v0)).
  { apply (run_calls_keeps cfg (fun _ => True) (tidy cfg)).
    - now intros inp v (Hc & _).
    - intros inp v smp v' Hinv _ Hsz Hacc. exact (tidy_accept cfg inp v smp v' Hinv Hsz Hacc).
    - apply tidy_flush.
    - apply Forall_forall. tauto.
    - apply make_machine, machine_fields in Hmake as (Hs & Hsil & Hst & Hb & _ & Hc).
      split; [exact Hc|]. split; [exact Hw|]. split; [now intros _|congruence]. }
  destruct H as (_ & _ & Hidle & Hbusy).
  pose proof (flush_idle _ Hidle Hbusy) as Hi. split; [exact Hi|]. now apply flush_of_idle.
Qed.

End Detector.

Import Fixture.

Lemma make_small : make small_vad_config = inr (fresh_vad small_vad_config).
Proof. reflexivity. Qed.

Lemma spoken_bounded : windows_bounded spoken.
Proof. repeat constructor. Qed.

Lemma toy_model_keeps_state_size : keeps_state_size toy_model.
Proof. intros inp st sr H. exact H. Qed.

Lemma segments_are_input_runs_witness :
  length (segments_ (run_calls toy_model spoken (fresh_vad small_vad_config))) = 1%nat /\
  Forall (fun seg => infix (samples seg) (taken small_vad_config spoken))
         (segments_ (run_calls toy_model spoken (fresh_vad small_vad_config))).
Proof.
  split; [reflexivity|].
  exact (segments_are_input_runs toy_model small_vad_config _ spoken make_small).
Defined.

Lemma segments_are_whole_windows_witness :
  Forall (fun seg => exists k, 1 <= k /\ size (samples seg) = k * 4)
         (segments_ (run_calls toy_model spoken (fresh_vad small_vad_config))).
Proof.
  exact (segments_are_whole_windows toy_model small_vad_config _ spoken
           make_small spoken_bounded).
Defined.

Lemma segments_are_bounded_witness :
  longest_run small_vad_config = 18 /\
  Forall (fun seg => size (samples seg) <= longest_run small_vad_config)
         (segments_ (run_calls toy_model spoken (fresh_vad small_vad_config))).
Proof.
  split; [vm_compute; reflexivity|].
  apply (segments_are_bounded toy_model small_vad_config _ spoken make_small spoken_bounded).
  vm_compute. reflexivity.
Defined.

Lemma reset_behaves_as_new_witness :
  same_but_scratch
    (run_calls toy_model spoken (fresh_vad small_vad_config))
    (run_calls toy_model spoken
       (reset (run_calls toy_model [AcceptWaveform (speech_window 4)]
                         (fresh_vad small_vad_config)))).
Proof.
  apply (reset_behaves_as_new toy_model small_vad_config);
    [exact make_small|vm_compute; reflexivity|exact toy_model_keeps_state_size].
Defined.

Lemma flush_ends_the_run_witness :
  idle (flush (run_calls toy_model [AcceptWaveform (speech_window 4)]
                         (fresh_vad small_vad_config))) /\
  length (segments_ (flush (run_calls toy_model [AcceptWaveform (speech_window 4)]
                                      (fresh_vad small_vad_config)))) = 1%nat.
Proof.
  split; [|reflexivity].
  exact (proj1 (flush_ends_the_run toy_model small_vad_config _
                  [AcceptWaveform (speech_window 4)] make_small)).
Defined.

End DetectorFacts.

(** ** Session accounting (src/handler.cpp) *)

Module LedgerFacts.

Import Scalar ScalarFacts Float Conf Metrics Session SessionSpec LedgerSpec LedgerInv.
Import SessionFacts.
Local Open Scope Z_scope.

Lemma count_app kind log e :
  count kind (log ++ [e]) = count kind log + (if kind e then 1 else 0).
Proof.
  unfold count. rewrite filter_app, length_app. cbn [filter list_filter].
  destruct (decide (kind e = true)) as [->|Hne]; cbn [length].
  - lia.
  - destruct (kind e); [congruence|]. cbn. lia.
Qed.

(** *** Functions that leave the ledger *)

Lemma quietly_ret {A} (a : A) : quietly (mret a).
Proof. intros w. reflexivity. Qed.

Lemma quietly_bind {A B} (m : M A) (f : A -> M B) :
  quietly m -> (forall a, quietly (f a)) -> quietly (m ≫= f).
Proof.
  intros Hm Hf w. unfold mbind, M_bind. specialize (Hm w).
  destruct (m w) as [[a| |] w']; cbn [snd] in *; [|exact Hm|exact Hm].
  now rewrite Hf.
Qed.

Lemma quietly_gets {A} (f : ASRSession -> A) : quietly (gets f).
Proof. intros w. reflexivity. Qed.

Lemma quietly_now clock : quietly (now clock).
Proof. intros w. reflexivity. Qed.

Lemma quietly_modify f :
  (forall s, session_active_ (f s) = session_active_ s /\ bytes_ (f s) = bytes_ s /\
             total_samples_received_ (f s) = total_samples_received_ s) ->
  quietly (modify f).
Proof.
  intros H w. unfold ledger, open_sessions, modify. cbn [snd]. sess_simpl.
  destruct (H (sess w)) as (-> & -> & ->). reflexivity.
Qed.

Lemma quietly_observe e :
  is_session_started e = false -> is_session_ended e = false -> quietly (observe e).
Proof.
  intros H1 H2 w. unfold ledger, open_sessions, observe. cbn [snd]. sess_simpl.
  rewrite !count_app, H1, H2. f_equal. lia.
Qed.

Lemma quietly_when (b : bool) m : quietly m -> quietly (when b m).
Proof. destruct b; [tauto|intros _; apply quietly_ret]. Qed.

Lemma quietly_if {A} (b : bool) (m1 m2 : M A) :
  quietly m1 -> quietly m2 -> quietly (if b then m1 else m2).
Proof. now destruct b. Qed.

Lemma quietly_diverge {A} : quietly (@diverge A).
Proof. intros w. reflexivity. Qed.

Ltac quiet_fields := intros ?s; repeat split; reflexivity.

Ltac quiet :=
  repeat first
    [ apply quietly_bind; [|intros ?]
    | apply quietly_ret
    | apply quietly_gets
    | apply quietly_now
    | apply quietly_when
    | apply quietly_if
    | apply quietly_diverge
    | apply quietly_observe; reflexivity
    | apply quietly_modify; quiet_fields ].

Section Handler.

Variable vad_model : list f32 -> list f32 -> Z -> f32 * list f32.
Variable recognize : list f32 -> Z -> string.
Variable steady_clock : nat -> Z.
Variable fmt_fixed : nat -> f32 -> string.

Lemma quietly_next_message msg : quietly (next_message msg).
Proof. unfold next_message. quiet. Qed.

Lemma quietly_process_segment segment :
  quietly (process_segment recognize steady_clock fmt_fixed segment).
Proof.
  unfold process_segment, vad_pop, write_final. quiet; apply quietly_next_message.
Qed.

Lemma quietly_process_vad_segments :
  quietly (process_vad_segments recognize steady_clock fmt_fixed).
Proof.
  unfold process_vad_segments. apply quietly_bind; [apply quietly_gets|]. intros n.
  induction n as [|n IH]; cbn [process_vad_segments_loop]; [apply quietly_ret|].
  apply quietly_bind; [apply quietly_gets|]. intros [segment|]; [|apply quietly_ret].
  apply quietly_bind; [apply quietly_process_segment|]. intros _. exact IH.
Qed.

Lemma quietly_vad_accept_pending : quietly (vad_accept_pending vad_model).
Proof.
  intros w. unfold vad_accept_pending.
  destruct (Vad.accept_waveform _ _ _); reflexivity.
Qed.

Lemma quietly_flush_pending : quietly (flush_pending vad_model).
Proof. unfold flush_pending. quiet. apply quietly_vad_accept_pending. Qed.

Lemma quietly_feed_windows fuel samples offset :
  quietly (feed_windows vad_model fuel samples offset).
Proof.
  revert offset. induction fuel as [|fuel IH]; intros offset; cbn [feed_windows].
  - destruct (negb _); [apply quietly_ret|apply quietly_diverge].
  - destruct (negb _); [apply quietly_ret|].
    quiet; [apply quietly_vad_accept_pending|apply IH].
Qed.

Lemma quietly_write_interim d r b : quietly (write_interim fmt_fixed d r b).
Proof. apply quietly_next_message. Qed.

Lemma quietly_write_done : quietly write_done.
Proof. apply quietly_next_message. Qed.

Lemma quietly_current_messages : quietly current_messages.
Proof. apply quietly_gets. Qed.

(** *** The accounting invariant *)

Lemma accounted_ledger k w w' : ledger w' = ledger w -> accounted k w -> accounted k w'.
Proof.
  unfold ledger, accounted, active. intros [= H1 H2 H3 H4]. now rewrite H1, H2, H3, H4.
Qed.

Lemma ensures_bind {A B} R (m : M A) (f : A -> M B) w (Q : B -> World -> Prop) :
  ensures R m w (fun a w' => ensures R (f a) w' Q) -> ensures R (m ≫= f) w Q.
Proof.
  unfold ensures, mbind, M_bind. destruct (m w) as [[a| |] w']; tauto.
Qed.

Lemma ensures_quietly {A} k (m : M A) w (Q : A -> World -> Prop) :
  quietly m -> accounted k w ->
  (forall a w', ledger w' = ledger w -> Q a w') ->
  ensures (accounted k) m w Q.
Proof.
  intros Hq Hw HQ. unfold ensures. specialize (Hq w).
  destruct (m w) as [[a| |] w']; cbn [snd] in Hq.
  - now apply HQ.
  - now apply (accounted_ledger k w).
  - now apply (accounted_ledger k w).
Qed.

Lemma ensures_post {A} R (m : M A) w (Q : A -> World -> Prop) :
  post m w Q -> ensures R m w Q.
Proof. unfold post, ensures. destruct (m w) as [[a| |] w']; tauto. Qed.

Lemma post_reset_session w (Q : unit -> World -> Prop) :
  Q tt (set_sess (reset_fields (steady_clock (ticks w)) (sess w)) (set_ticks (S (ticks w)) w)) ->
  post (reset_session steady_clock) w Q.
Proof. intros H. unfold post. now rewrite reset_session_eq. Qed.

Lemma finalize_session_ledger w :
  post (finalize_session steady_clock) w
       (fun _ w' => ledger w' = (false, 0, 0, open_sessions w - active w)).
Proof.
  unfold finalize_session, write_done, next_message.
  mstep. mstep. mstep. mstep. unfold id. mstep. mstep. mstep.
  apply post_when; intros Hratio; [mstep|]; mstep; mstep; mstep;
    (apply post_when; intros Hact; [mstep; mstep; mstep|]);
    mstep; mstep; mstep; mstep; apply post_reset_session;
    unfold ledger, open_sessions, active, reset_fields; sess_simpl;
    rewrite ?count_app; cbn [is_session_started is_session_ended];
    rewrite Hact; f_equal; lia.
Qed.

Lemma stable_bind {A B} k (m : M A) (f : A -> M B) :
  stable k m -> (forall a, stable k (f a)) -> stable k (m ≫= f).
Proof.
  intros Hm Hf w Hw. apply ensures_bind. specialize (Hm w Hw). unfold ensures in *.
  destruct (m w) as [[a| |] w']; try exact Hm. now apply Hf.
Qed.

Lemma stable_quietly {A} k (m : M A) : quietly m -> stable k m.
Proof.
  intros Hq w Hw. apply (ensures_quietly k); [exact Hq|exact Hw|].
  intros a w' Hl. now apply (accounted_ledger k w).
Qed.

Lemma stable_when k (b : bool) m : stable k m -> stable k (when b m).
Proof. destruct b; [tauto|intros _; apply stable_quietly, quietly_ret]. Qed.

Lemma stable_finalize_session k : stable k (finalize_session steady_clock).
Proof.
  intros w (Hopen & Hbytes). apply ensures_post.
  eapply post_mono; [apply finalize_session_ledger|]. cbv beta.
  unfold ledger, accounted, active in *. intros _ w' [= H1 H2 H3 H4].
  rewrite H1, H2, H3, H4. split; [|reflexivity].
  destruct (session_active_ (sess w)); lia.
Qed.

Lemma stable_on_reset k : stable k (on_reset steady_clock).
Proof.
  intros w (Hopen & Hbytes). unfold ensures. rewrite on_reset_eq.
  unfold accounted, open_sessions, active, reset_fields, cleared in *. sess_simpl.
  split; [|reflexivity].
  destruct (session_active_ (sess w)); rewrite ?count_app; cbn; lia.
Qed.

Lemma stable_on_close k : stable k (on_close steady_clock).
Proof.
  intros w (Hopen & Hbytes). unfold ensures. rewrite on_close_eq.
  unfold accounted, open_sessions, active in *.
  destruct (session_active_ (sess w)) eqn:Ha; sess_simpl; [|now rewrite Ha].
  split; [|exact Hbytes]. rewrite ?count_app. cbn. lia.
Qed.

Lemma wrap_size_bytes bytes total n :
  bytes = wrap_size (4 * total) ->
  wrap_size (bytes + n * 4) = wrap_size (4 * wrap_size (total + n)).
Proof.
  intros ->. unfold wrap_size.
  rewrite Zplus_mod_idemp_l, Zmult_mod_idemp_r. f_equal. ring.
Qed.

(** The part of [on_audio] after the chunk was counted. *)
Lemma stable_audio_tail k samples rms preprocess_start :
  stable k
    (feed_windows vad_model (S (S (length samples))) samples 0;;
     preprocess_end ← now steady_clock;
     modify (fun s => set_preprocess_sec_
                        (f64_add (preprocess_sec_ s)
                                 (seconds (preprocess_end - preprocess_start))) s);;
     process_vad_segments recognize steady_clock fmt_fixed;;
     s ← gets id;
     when (out_size_ s =? 0)
          (write_interim fmt_fixed (received_sec s) rms (Vad.is_speech (vad_ s)));;
     s ← gets id;
     when (fgt (received_sec s) (max_audio_sec (config_ s)))
          (flush_pending vad_model;;
           process_vad_segments recognize steady_clock fmt_fixed;;
           finalize_session steady_clock;;
           modify (set_max_duration_exceeded_ true));;
     current_messages).
Proof.
  apply stable_bind; [apply stable_quietly, quietly_feed_windows|intros _].
  apply stable_bind; [apply stable_quietly, quietly_now|intros t].
  apply stable_bind; [apply stable_quietly, quietly_modify; quiet_fields|intros _].
  apply stable_bind; [apply stable_quietly, quietly_process_vad_segments|intros _].
  apply stable_bind; [apply stable_quietly, quietly_gets|intros s].
  apply stable_bind; [apply stable_when, stable_quietly, quietly_write_interim|intros _].
  apply stable_bind; [apply stable_quietly, quietly_gets|intros s'].
  apply stable_bind; [|intros _; apply stable_quietly, quietly_current_messages].
  apply stable_when.
  apply stable_bind; [apply stable_quietly, quietly_flush_pending|intros _].
  apply stable_bind; [apply stable_quietly, quietly_process_vad_segments|intros _].
  apply stable_bind; [apply stable_finalize_session|intros _].
  apply stable_quietly, quietly_modify. quiet_fields.
Qed.

Lemma stable_on_audio k samples :
  stable k (on_audio vad_model recognize steady_clock fmt_fixed samples).
Proof.
  intros w (Hopen & Hbytes). unfold on_audio, begin_messages.
  apply ensures_bind, ensures_post. mstep.
  apply ensures_bind, ensures_post. mstep.
  destruct (max_duration_exceeded_ _).
  { apply ensures_post. unfold current_messages. mstep. split; assumption. }
  apply ensures_bind, ensures_post. mstep.
  apply ensures_bind, ensures_post. mstep.
  apply ensures_bind, ensures_post. sess_simpl.
  unfold accounted, open_sessions, active in *.
  destruct (session_active_ (sess w)) eqn:Hact; cbn [negb when];
    [mstep|mstep; mstep; mstep];
    (apply ensures_bind, ensures_post; mstep);
    (apply ensures_bind, ensures_post; mstep);
    (apply ensures_bind, ensures_post; mstep);
    (apply ensures_bind, ensures_post; mstep);
    apply stable_audio_tail;
    unfold accounted, open_sessions, active; sess_simpl;
    rewrite ?Hact; rewrite ?count_app; cbn [is_session_started is_session_ended];
    (split; [lia|now apply wrap_size_bytes]).
Qed.

Lemma stable_on_recognize k :
  stable k (on_recognize vad_model recognize steady_clock fmt_fixed).
Proof.
  unfold on_recognize, begin_messages.
  apply stable_bind; [apply stable_quietly, quietly_modify; quiet_fields|intros _].
  apply stable_bind; [apply stable_quietly, quietly_gets|intros exceeded].
  destruct exceeded.
  - apply stable_bind; [apply stable_quietly, quietly_modify; quiet_fields|intros _].
    apply stable_quietly, quietly_current_messages.
  - apply stable_bind; [apply stable_quietly, quietly_flush_pending|intros _].
    apply stable_bind; [apply stable_quietly, quietly_process_vad_segments|intros _].
    apply stable_bind; [apply stable_finalize_session|intros _].
    apply stable_quietly, quietly_current_messages.
Qed.

Lemma step_accounted k c w :
  accounted k w -> accounted k (snd (step vad_model recognize steady_clock fmt_fixed c w)).
Proof.
  intros Hw.
  assert (H : forall A (m : M A), stable k m -> accounted k (snd (m w))).
  { intros A m Hm. specialize (Hm w Hw). unfold ensures in Hm.
    destruct (m w) as [[a| |] w']; exact Hm. }
  destruct c as [samples| | |]; cbn [step]; apply H.
  - apply stable_on_audio.
  - apply stable_on_recognize.
  - apply stable_bind; [apply stable_on_reset|intros _; apply stable_quietly, quietly_ret].
  - apply stable_bind; [apply stable_on_close|intros _; apply stable_quietly, quietly_ret].
Qed.

Lemma run_accounted k cs w :
  accounted k w -> accounted k (snd (run vad_model recognize steady_clock fmt_fixed cs w)).
Proof.
  revert w. induction cs as [|c cs IH]; intros w Hw; [exact Hw|].
  cbn [run]. pose proof (step_accounted k c w Hw) as H1.
  destruct (step _ _ _ _ c w) as [o w1]. cbn [snd] in H1.
  specialize (IH w1 H1). destruct (run _ _ _ _ cs w1) as [os w2]. exact IH.
Qed.

Lemma construct_accounted vad_config config log t w0 :
  construct steady_clock vad_config config log t = inr w0 ->
  accounted (count is_session_started log - count is_session_ended log) w0.
Proof.
  unfold construct. destruct (Vad.make vad_config) as [e|v]; [discriminate|].
  rewrite reset_session_eq. cbn [snd]. intros [= <-].
  unfold accounted, open_sessions, active, reset_fields. sess_simpl.
  split; [lia|reflexivity].
Qed.

Lemma run_app cs1 cs2 w :
  snd (run vad_model recognize steady_clock fmt_fixed (cs1 ++ cs2) w)
  = snd (run vad_model recognize steady_clock fmt_fixed cs2
           (snd (run vad_model recognize steady_clock fmt_fixed cs1 w))).
Proof.
  revert w. induction cs1 as [|c cs1 IH]; intros w; [reflexivity|].
  cbn [app run]. destruct (step _ _ _ _ c w) as [o w1]. specialize (IH w1).
  destruct (run _ _ _ _ (cs1 ++ cs2) w1) as [os w2].
  destruct (run _ _ _ _ cs1 w1) as [os1 w3]. exact IH.
Qed.

(** X14. The session is counted as active exactly while it is: from its
    construction on, after any sequence of [on_audio], [on_recognize],
    [on_reset] and [on_close] calls, however each of them ended, the
    [session_started] calls made on the metrics exceed the
    [session_ended] calls by one when [session_active_] is set and by
    none when it is not (over what the log held before); after
    [on_close] they are level. *)
Theorem active_sessions_balance
    (vad_config : Vad.VadConfig) (config : Config) (log : list MetricEvent) (t : nat)
    (w0 : World) (cs : list call) :
  construct steady_clock vad_config config log t = inr w0 ->
  let before := count is_session_started log - count is_session_ended log in
  let w := snd (run vad_model recognize steady_clock fmt_fixed cs w0) in
  let closed := snd (run vad_model recognize steady_clock fmt_fixed (cs ++ [OnClose]) w0) in
  open_sessions w = before + (if session_active_ (sess w) then 1 else 0) /\
  open_sessions closed = before.
Proof.
  intros Hc before w closed.
  pose proof (construct_accounted _ _ _ _ _ Hc) as H0.
  split; [exact (proj1 (run_accounted _ cs w0 H0))|].
  pose proof (run_accounted _ (cs ++ [OnClose]) w0 H0) as [H1 _].
  fold closed in H1. fold before in H1. rewrite H1.
  assert (Ha : active closed = 0); [|lia].
  unfold closed. rewrite run_app. fold w. cbn [run step snd].
  unfold mbind, M_bind. rewrite on_close_eq. unfold active.
  destruct (session_active_ (sess w)) eqn:E; cbn; [reflexivity|now rewrite E].
Qed.

(** X15. [bytes_] counts four bytes a sample: from the construction of
    the session on, after any sequence of calls, however each of them
    ended, [bytes_] is four times [total_samples_received_] as a
    [size_t]. *)
Theorem bytes_are_four_per_sample
    (vad_config : Vad.VadConfig) (config : Config) (log : list MetricEvent) (t : nat)
    (w0 : World) (cs : list call) :
  construct steady_clock vad_config config log t = inr w0 ->
  let w := snd (run vad_model recognize steady_clock fmt_fixed cs w0) in
  bytes_ (sess w) = wrap_size (4 * total_samples_received_ (sess w)).
Proof.
  intros Hc w. pose proof (construct_accounted _ _ _ _ _ Hc) as H0.
  exact (proj2 (run_accounted _ cs w0 H0)).
Qed.

End Handler.

Import Fixture.

Lemma active_sessions_balance_witness :
  let w := snd (toy_run [OnAudio (speech_window 5)] fresh_world) in
  let closed := snd (toy_run ([OnAudio (speech_window 5)] ++ [OnClose]) fresh_world) in
  session_active_ (sess w) = true /\
  open_sessions w = 0 + (if session_active_ (sess w) then 1 else 0) /\
  open_sessions closed = 0.
Proof.
  split; [vm_compute; reflexivity|].
  apply (active_sessions_balance toy_model toy_recognize toy_clock toy_fmt
           (vad_config_of small_config) small_config [] 0 fresh_world
           [OnAudio (speech_window 5)]).
  vm_compute. reflexivity.
Defined.

Lemma bytes_are_four_per_sample_witness :
  let w := snd (toy_run [OnAudio (speech_window 5)] fresh_world) in
  total_samples_received_ (sess w) = 5 /\
  bytes_ (sess w) = wrap_size (4 * total_samples_received_ (sess w)).
Proof.
  split; [vm_compute; reflexivity|].
  apply (bytes_are_four_per_sample toy_model toy_recognize toy_clock toy_fmt
           (vad_config_of small_config) small_config [] 0 fresh_world
           [OnAudio (speech_window 5)]).
  vm_compute. reflexivity.
Defined.

End LedgerFacts.

(** ** WebSocket connections (src/server.cpp) *)

Module ConnFacts.

Import Scalar ScalarFacts Float Conf Metrics Ws WsSpec ConnSpec LedgerSpec LedgerInv.
Local Open Scope Z_scope.

Section Controller.

Variable src_state : Type.
Variable src_new : option src_state.
Variable src_process :
  src_state -> f64 -> list f32 -> Z -> bool -> Z * Z * list f32 * src_state.
Variable src_reset : src_state -> src_state.
Variable vad_model : list f32 -> list f32 -> Z -> f32 * list f32.
Variable recognize : list f32 -> Z -> string.
Variable steady_clock : nat -> Z.
Variable fmt_fixed : nat -> f32 -> string.
Variable probe : string -> json_probe.
Variable config : Config.

Local Abbreviation Conn := (Ws.Conn src_state).
Local Abbreviation handleNewMessage :=
  (Ws.handleNewMessage src_state src_new src_process src_reset vad_model recognize
                       steady_clock fmt_fixed probe config).
Local Abbreviation handle_all :=
  (Ws.handle_all src_state src_new src_process src_reset vad_model recognize
                 steady_clock fmt_fixed probe config).
Local Abbreviation handle_binary :=
  (Ws.handle_binary src_state src_process vad_model recognize steady_clock fmt_fixed config).
Local Abbreviation handle_command :=
  (Ws.handle_command src_state src_process src_reset vad_model recognize steady_clock fmt_fixed).
Local Abbreviation handle_announcement :=
  (Ws.handle_announcement src_state src_new probe config).
Local Abbreviation handle_text :=
  (Ws.handle_text src_state src_new src_process src_reset vad_model recognize
                  steady_clock fmt_fixed probe config).
Local Abbreviation flush_resampler := (Ws.flush_resampler src_state src_process src_reset).
Local Abbreviation handleNewConnection :=
  (Ws.handleNewConnection src_state steady_clock config).
Local Abbreviation handleConnectionClosed := (Ws.handleConnectionClosed src_state steady_clock).
Local Abbreviation sound := (ConnSpec.sound src_state).
Local Abbreviation verdict_ok := (ConnSpec.verdict_ok src_state).
Local Abbreviation fine := (ConnSpec.fine src_state).
Local Abbreviation on_audio := (Ws.on_audio vad_model recognize steady_clock fmt_fixed).
Local Abbreviation on_recognize := (Ws.on_recognize vad_model recognize steady_clock fmt_fixed).
Local Abbreviation on_reset := (Ws.on_reset steady_clock).

Lemma sound_frame k (c c' : Conn) :
  session src_state c' = session src_state c ->
  metrics src_state c' = metrics src_state c ->
  ticks src_state c' = ticks src_state c ->
  close_reason src_state c' = close_reason src_state c ->
  shutdown src_state c' = shutdown src_state c ->
  sound k c -> sound k c'.
Proof.
  unfold ConnSpec.sound, ConnSpec.verdict_ok, world_of. now intros -> -> -> -> ->.
Qed.

Lemma world_of_with_world w (c : Conn) : world_of src_state (with_world src_state w c) = w.
Proof. now destruct w. Qed.

(** A session call that returns on every well-formed session, keeping
    it well-formed, and keeps the accounting. *)
Lemma session_call_sound {A} k (m : Session.M A) (c : Conn) :
  (forall w, Session.well_formed (Session.sess w) ->
             exists a w', m w = (Session.Ok a, w') /\
                          Session.well_formed (Session.sess w')) ->
  stable k m ->
  sound k c ->
  exists a c', session_call src_state m c = (Session.Ok a, c') /\ sound k c' /\
               sent src_state c' = sent src_state c.
Proof.
  intros Hret Hst (Hwf & Hacc & Hv). unfold session_call.
  destruct (Hret (world_of src_state c) Hwf) as (a & w' & E & Hwf').
  specialize (Hst _ Hacc). unfold ensures in Hst. rewrite E in *.
  exists a, (with_world src_state w' c). split; [reflexivity|]. split; [|reflexivity].
  split; [exact Hwf'|]. split; [now rewrite world_of_with_world|exact Hv].
Qed.

Lemma on_audio_returns samples w :
  Session.well_formed (Session.sess w) ->
  exists a w', on_audio samples w = (Session.Ok a, w') /\
               Session.well_formed (Session.sess w').
Proof.
  intros Hwf.
  destruct (SessionFacts.step_well_formed vad_model recognize steady_clock fmt_fixed
              (Session.OnAudio samples) w Hwf) as (ms & w' & E & H & _).
  now exists ms, w'.
Qed.

Lemma on_recognize_returns w :
  Session.well_formed (Session.sess w) ->
  exists a w', on_recognize w = (Session.Ok a, w') /\
               Session.well_formed (Session.sess w').
Proof.
  intros Hwf.
  destruct (SessionFacts.step_well_formed vad_model recognize steady_clock fmt_fixed
              Session.OnRecognize w Hwf) as (ms & w' & E & H & _).
  now exists ms, w'.
Qed.

Lemma on_reset_returns w :
  Session.well_formed (Session.sess w) ->
  exists a w', on_reset w = (Session.Ok a, w') /\
               Session.well_formed (Session.sess w').
Proof.
  intros Hwf. unfold Ws.on_reset. rewrite SessionFacts.on_reset_eq.
  eexists _, _. split; [reflexivity|]. now apply SessionFacts.well_formed_cleared.
Qed.

Lemma respond_fine k m (c : Conn) :
  (forall w, Session.well_formed (Session.sess w) ->
             exists a w', m w = (Session.Ok a, w') /\
                          Session.well_formed (Session.sess w')) ->
  stable k m ->
  sound k c ->
  exists c', respond src_state m c = (Session.Ok tt, c') /\ sound k c'.
Proof.
  intros Hret Hst Hc. unfold respond.
  destruct (session_call_sound k m c Hret Hst Hc) as (rs & c' & E & Hc' & _).
  rewrite E. eexists. split; [reflexivity|]. now apply (sound_frame k c').
Qed.

Lemma flush_resampler_sound k (c : Conn) :
  sound k c -> sound k (snd (flush_resampler c)).
Proof.
  intros Hc. unfold Ws.flush_resampler. destruct (resampler src_state c) as [r|]; [|exact Hc].
  destruct (Resampler.flush _ _ _ r) as [res r']. now apply (sound_frame k c).
Qed.

Lemma handle_binary_fine k msg (c : Conn) : sound k c -> fine k (handle_binary msg c).
Proof.
  intros Hc. unfold Ws.handle_binary.
  destruct (_ <? _).
  { split; [discriminate|]. destruct Hc as (Hwf & Hacc & _).
    split; [exact Hwf|]. split; [exact Hacc|]. right. left. now split. }
  destruct (_ || _); [split; [discriminate|exact Hc]|].
  cbn [resampler set_audio_buf audio_buf].
  destruct (resampler src_state c) as [r|].
  - destruct (Resampler.process _ _ r _) as [[e|resampled] r'].
    + split; [discriminate|]. now apply (sound_frame k c).
    + destruct (respond_fine k (on_audio resampled)
                  (set_resampler src_state (Some r')
                     (set_audio_buf src_state (floats_of_bytes msg) c)))
        as (c' & E & Hc');
        [apply on_audio_returns|apply LedgerFacts.stable_on_audio|now apply (sound_frame k c)|].
      rewrite E. split; [discriminate|exact Hc'].
  - destruct (respond_fine k (on_audio (floats_of_bytes msg))
                (set_audio_buf src_state (floats_of_bytes msg) c))
      as (c' & E & Hc');
      [apply on_audio_returns|apply LedgerFacts.stable_on_audio|now apply (sound_frame k c)|].
    rewrite E. split; [discriminate|exact Hc'].
Qed.

Lemma handle_announcement_fine k msg (c : Conn) r :
  sound k c -> handle_announcement msg c = Some r -> fine k r.
Proof.
  intros Hc. unfold Ws.handle_announcement.
  destruct (_ && _); [|discriminate].
  destruct (probe msg) as [| | |input_rate]; try discriminate.
  destruct (_ || _); [intros [= <-]; split; [discriminate|exact Hc]|].
  destruct (negb _).
  - destruct (Resampler.make _ _ _ _) as [e|r0]; intros [= <-];
      (split; [discriminate|now apply (sound_frame k c)]).
  - intros [= <-]. split; [discriminate|now apply (sound_frame k c)].
Qed.

Lemma handle_command_fine k msg (c : Conn) : sound k c -> fine k (handle_command msg c).
Proof.
  intros Hc. unfold Ws.handle_command. destruct (bool_decide (msg = "RECOGNIZE")).
  - pose proof (flush_resampler_sound k c Hc) as H1.
    destruct (flush_resampler c) as [[e|tail] c1]; cbn [snd] in H1;
      [split; [discriminate|exact H1]|].
    assert (H2 : exists c2,
               (match tail with
                | [] => (Session.Ok tt, c1)
                | _ :: _ => respond src_state (on_audio tail) c1
                end) = (Session.Ok tt, c2) /\ sound k c2).
    { destruct tail as [|x tail]; [now exists c1|].
      apply respond_fine; [apply on_audio_returns|apply LedgerFacts.stable_on_audio|exact H1]. }
    destruct H2 as (c2 & -> & H2).
    destruct (respond_fine k on_recognize c2) as (c3 & E & H3);
      [apply on_recognize_returns|apply LedgerFacts.stable_on_recognize|exact H2|].
    rewrite E. split; [discriminate|exact H3].
  - destruct (bool_decide (msg = "RESET")); [|split; [discriminate|exact Hc]].
    destruct (session_call_sound k on_reset c) as (u & c1 & E & H1 & _);
      [apply on_reset_returns|apply LedgerFacts.stable_on_reset|exact Hc|].
    rewrite E. pose proof (flush_resampler_sound k c1 H1) as H2.
    destruct (flush_resampler c1) as [[e|tail] c2]; cbn [snd] in H2;
      (split; [discriminate|exact H2]).
Qed.

Lemma try_end_sound k (r : Session.outcome unit * Conn) :
  fine k r -> exists c', try_end src_state r = Handled src_state c' /\ sound k c'.
Proof.
  destruct r as [[u|e|] c]; intros [Hd Hc]; cbn [fst snd] in *; [| |congruence].
  - now exists c.
  - eexists. split; [reflexivity|]. destruct Hc as (Hwf & (Hopen & Hbytes) & _).
    split; [exact Hwf|]. split; [|right; right; now split].
    split; [|exact Hbytes]. unfold open_sessions, active, world_of in *. cbn in *.
    rewrite !LedgerFacts.count_app. cbn. lia.
Qed.

Lemma handleNewMessage_sound k m (c : Conn) :
  sound k c -> exists c', handleNewMessage m c = Handled src_state c' /\ sound k c'.
Proof.
  intros Hc. unfold Ws.handleNewMessage. apply try_end_sound.
  destruct m as [msg|msg|].
  - now apply handle_binary_fine.
  - unfold Ws.handle_text. destruct (handle_announcement msg c) as [r|] eqn:E.
    + now apply (handle_announcement_fine k msg c).
    + now apply handle_command_fine.
  - split; [discriminate|exact Hc].
Qed.

Lemma handle_all_sound k ms (c : Conn) :
  sound k c -> exists c', handle_all ms c = Handled src_state c' /\ sound k c'.
Proof.
  revert c. induction ms as [|m ms IH]; intros c Hc; [now exists c|].
  cbn [Ws.handle_all]. destruct (handleNewMessage_sound k m c Hc) as (c1 & -> & H1).
  now apply IH.
Qed.

Lemma handleNewConnection_sound log t (c0 : Conn) :
  handleNewConnection log t = inr c0 ->
  vad_window_size config < 2 ^ 31 ->
  sound (count is_session_started log - count is_session_ended log) c0.
Proof.
  unfold Ws.handleNewConnection.
  destruct (Session.construct _ _ _ _ _) as [e|w] eqn:E; [discriminate|].
  intros [= <-] Hw.
  destruct (SessionFacts.construct_well_formed steady_clock config log t w E Hw) as (Hwf & _).
  destruct (LedgerFacts.construct_accounted steady_clock _ _ _ _ _ E) as (Hopen & Hbytes).
  split; [exact Hwf|]. split; [|left; now split].
  split; [|exact Hbytes]. unfold open_sessions, active, world_of, open_connection in *.
  cbn in *. rewrite !LedgerFacts.count_app. cbn. lia.
Qed.

Lemma on_close_settles k (c : Conn) :
  accounted k (world_of src_state c) ->
  let c1 := snd (session_call src_state (Session.on_close steady_clock) c) in
  open_sessions (world_of src_state c1) = k /\
  close_reason src_state c1 = close_reason src_state c.
Proof.
  intros (Hopen & _). unfold session_call. rewrite SessionFacts.on_close_eq. cbn [snd].
  split; [|reflexivity]. rewrite world_of_with_world.
  unfold open_sessions, active, world_of in *. cbn [Session.metrics Session.sess] in *.
  destruct (Session.session_active_ (session src_state c)) eqn:Ha.
  - cbn [Session.metrics]. rewrite !LedgerFacts.count_app.
    cbn [is_session_started is_session_ended]. lia.
  - cbn [Session.metrics]. lia.
Qed.

(** X16. Every message is handled: on a connection opened by
    [handleNewConnection], [handleNewMessage] returns for every message
    of every sequence (the windowing loop of the session terminates and
    an exception ends in the [catch] clause), and the session keeps its
    invariant. *)
Theorem every_message_is_handled
    (log : list MetricEvent) (t : nat) (c0 : Conn) (ms : list ws_message) :
  handleNewConnection log t = inr c0 ->
  vad_window_size config < 2 ^ 31 ->
  exists c, handle_all ms c0 = Handled src_state c /\
            Session.well_formed (session src_state c).
Proof.
  intros H0 Hw. pose proof (handleNewConnection_sound log t c0 H0 Hw) as Hs.
  destruct (handle_all_sound _ ms c0 Hs) as (c & E & Hwf & _). now exists c.
Qed.

(** X17. Closing settles the session count: on a connection opened by
    [handleNewConnection], whatever messages were handled, after
    [handleConnectionClosed] the [session_started] and [session_ended]
    calls made on the metrics since the connection are level. *)
Theorem close_settles_the_session
    (log : list MetricEvent) (t : nat) (c0 : Conn) (ms : list ws_message) :
  handleNewConnection log t = inr c0 ->
  vad_window_size config < 2 ^ 31 ->
  let c := conn_of src_state (handle_all ms c0) in
  open_sessions (world_of src_state (handleConnectionClosed c))
  = count is_session_started log - count is_session_ended log.
Proof.
  intros H0 Hw c. pose proof (handleNewConnection_sound log t c0 H0 Hw) as Hs.
  destruct (handle_all_sound _ ms c0 Hs) as (c' & E & _ & Hacc & _).
  subst c. rewrite E. cbn [conn_of].
  destruct (on_close_settles _ c' Hacc) as [H1 _].
  unfold Ws.handleConnectionClosed. cbv zeta.
  set (c1 := snd (session_call src_state (Session.on_close steady_clock) c')) in *.
  unfold open_sessions, world_of in *. cbn in *.
  rewrite !LedgerFacts.count_app. cbn. lia.
Qed.

(** X18. The close reason reported goes with the close asked for: on a
    connection opened by [handleNewConnection], after any messages the
    reason is [normal] with no shutdown requested, [message_too_large]
    with a policy-violation shutdown, or [internal_error] with an
    unexpected-condition shutdown; and [handleConnectionClosed] reports
    that reason in its last call on the metrics. *)
Theorem close_reason_goes_with_shutdown
    (log : list MetricEvent) (t : nat) (c0 : Conn) (ms : list ws_message) :
  handleNewConnection log t = inr c0 ->
  vad_window_size config < 2 ^ 31 ->
  let c := conn_of src_state (handle_all ms c0) in
  verdict_ok c /\
  exists duration,
    last (metrics src_state (handleConnectionClosed c))
    = Some (ConnectionClosed (close_reason src_state c) duration).
Proof.
  intros H0 Hw c. pose proof (handleNewConnection_sound log t c0 H0 Hw) as Hs.
  destruct (handle_all_sound _ ms c0 Hs) as (c' & E & _ & Hacc & Hv).
  subst c. rewrite E. cbn [conn_of]. split; [exact Hv|].
  destruct (on_close_settles _ c' Hacc) as [_ H1].
  unfold Ws.handleConnectionClosed. cbv zeta.
  set (c1 := snd (session_call src_state (Session.on_close steady_clock) c')) in *.
  eexists. cbn [metrics set_ticks set_metrics]. rewrite last_snoc, H1. reflexivity.
Qed.

Lemma sent_session_call {A} (m : Session.M A) (c : Conn) :
  sent src_state (snd (session_call src_state m c)) = sent src_state c.
Proof. unfold session_call. now destruct (m _) as [o w]. Qed.

Lemma sent_flush_resampler (c : Conn) :
  sent src_state (snd (flush_resampler c)) = sent src_state c.
Proof.
  unfold Ws.flush_resampler. destruct (resampler src_state c) as [r|]; [|reflexivity].
  now destruct (Resampler.flush _ _ _ r) as [res r'].
Qed.

Lemma sent_try_end (r : Session.outcome unit * Conn) :
  sent src_state (conn_of src_state (try_end src_state r)) = sent src_state (snd r).
Proof. now destruct r as [[u|e|] c]. Qed.

(** X19. Only audio and RECOGNIZE are answered: a message that is
    neither a binary message handed to the session (within the size
    limit, four bytes or more, a multiple of four) nor the text
    RECOGNIZE -- a RESET, an announcement, any other text, a malformed
    or oversized binary message, a ping -- sends nothing on the
    connection. *)
Theorem only_audio_and_recognize_answered (m : ws_message) (c : Conn) :
  is_audio config m = false ->
  is_recognize m = false ->
  sent src_state (conn_of src_state (handleNewMessage m c)) = sent src_state c.
Proof.
  intros Ha Hr. unfold Ws.handleNewMessage. rewrite sent_try_end.
  destruct m as [msg|msg|]; [| |reflexivity].
  - unfold Ws.handle_binary. cbn [is_audio] in Ha.
    destruct (_ <? _); [reflexivity|]. cbn [negb andb] in Ha.
    destruct (_ || _); [reflexivity|discriminate].
  - cbn [is_recognize] in Hr. unfold Ws.handle_text.
    destruct (handle_announcement msg c) as [r|] eqn:E.
    + revert E. unfold Ws.handle_announcement.
      destruct (_ && _); [|discriminate].
      destruct (probe msg) as [| | |input_rate]; try discriminate.
      destruct (_ || _); [now intros [= <-]|].
      destruct (negb _); [|now intros [= <-]].
      destruct (Resampler.make _ _ _ _) as [e|r0]; now intros [= <-].
    + unfold Ws.handle_command. rewrite Hr.
      destruct (bool_decide (msg = "RESET")); [|reflexivity].
      pose proof (sent_session_call on_reset c) as H1.
      destruct (session_call src_state on_reset c) as [[u|e|] c1]; cbn [snd] in *;
        try exact H1.
      pose proof (sent_flush_resampler c1) as H2.
      destruct (flush_resampler c1) as [[e|tail] c2]; cbn [snd] in *; congruence.
Qed.

End Controller.

Import Fixture.

Lemma new_conn_opened :
  Ws.handleNewConnection unit toy_clock small_config [] 0 = inr new_conn.
Proof. vm_compute. reflexivity. Qed.

Lemma small_window_fits : vad_window_size small_config < 2 ^ 31.
Proof. vm_compute. reflexivity. Qed.

Lemma every_message_is_handled_witness :
  exists c, toy_handle_all chatter new_conn = Handled unit c /\
            Session.well_formed (session unit c).
Proof.
  exact (every_message_is_handled unit toy_src_new toy_src_process toy_src_reset toy_model
           toy_recognize toy_clock toy_fmt toy_probe small_config [] 0 new_conn chatter
           new_conn_opened small_window_fits).
Defined.

Lemma close_settles_the_session_witness :
  open_sessions
    (world_of unit (Ws.handleConnectionClosed unit toy_clock
                      (conn_of unit (toy_handle_all
                                       [Ws.Binary [0; 0; 0; 0; 0; 0; 128; 63]] new_conn))))
  = 0.
Proof.
  change 0 with (count is_session_started [] - count is_session_ended []).
  exact (close_settles_the_session unit toy_src_new toy_src_process toy_src_reset toy_model
           toy_recognize toy_clock toy_fmt toy_probe small_config [] 0 new_conn
           [Ws.Binary [0; 0; 0; 0; 0; 0; 128; 63]] new_conn_opened small_window_fits).
Defined.

Lemma close_reason_goes_with_shutdown_witness :
  ConnSpec.verdict_ok unit (conn_of unit (toy_handle_all chatter new_conn)) /\
  close_reason unit (conn_of unit (toy_handle_all chatter new_conn)) = "normal".
Proof.
  split; [|vm_compute; reflexivity].
  exact (proj1 (close_reason_goes_with_shutdown unit toy_src_new toy_src_process
                  toy_src_reset toy_model toy_recognize toy_clock toy_fmt toy_probe
                  small_config [] 0 new_conn chatter new_conn_opened small_window_fits)).
Defined.

Lemma only_audio_and_recognize_answered_witness :
  sent unit (conn_of unit
               (Ws.handleNewMessage unit toy_src_new toy_src_process toy_src_reset toy_model
                  toy_recognize toy_clock toy_fmt toy_probe small_config
                  (Ws.Text "RESET") new_conn))
  = sent unit new_conn.
Proof.
  apply (only_audio_and_recognize_answered unit toy_src_new toy_src_process toy_src_reset
           toy_model toy_recognize toy_clock toy_fmt toy_probe small_config
           (Ws.Text "RESET") new_conn); reflexivity.
Defined.

End ConnFacts.

(** ** HTTP recognition endpoint (src/server.cpp) *)

Module HttpFacts.

Import Scalar ScalarFacts Float Conf Metrics Wav Http HttpSpec HttpOutcome.
Local Open Scope Z_scope.

Lemma decode_wav_raises ini rd src data rate e :
  decode_wav ini rd src data rate = inl e -> e = AudioError.
Proof.
  unfold decode_wav. destruct data; [congruence|].
  destruct (ini _); [|congruence].
  destruct (negb _); [congruence|].
  destruct (_ =? 0); [congruence|].
  destruct (_ <? _); [congruence|].
  destruct (take _ _); [congruence|].
  destruct (negb _); [|congruence].
  destruct (src _ _ _) as [err gen]. destruct (negb _); congruence.
Qed.

Lemma recognize_returned cs dec slots audio sr text slots' :
  Recognizer.recognize cs dec slots audio sr = Recognizer.Returned text slots' ->
  slots' = slots /\ RecognizerSpec.trimmed text.
Proof.
  unfold Recognizer.recognize. destruct audio as [|x audio].
  { intros [= <- <-]. split; [reflexivity|apply PoolFacts.trimmed_empty]. }
  unfold Recognizer.acquire.
  destruct (Recognizer.first_free slots) as [i|] eqn:Hfree; [|discriminate].
  destruct (cs _) as [stream|];
    rewrite (RecognizerFacts.release_marked _ _ Hfree); intros [= <- <-];
    (split; [reflexivity|]); [|apply PoolFacts.trimmed_empty].
  destruct (dec _ _ _ _) as [[raw|]|]; try apply PoolFacts.trimmed_empty.
  destruct (PoolFacts.trim_split raw) as (_ & _ & _ & _ & _ & H). exact H.
Qed.

Lemma recognize_with_free_slot cs dec slots audio sr i :
  Recognizer.first_free slots = Some i ->
  exists text, Recognizer.recognize cs dec slots audio sr = Recognizer.Returned text slots.
Proof.
  intros Hfree. unfold Recognizer.recognize. destruct audio as [|x audio]; [now eexists|].
  unfold Recognizer.acquire. rewrite Hfree.
  destruct (cs _) as [stream|];
    rewrite (RecognizerFacts.release_marked _ _ Hfree); now eexists.
Qed.

Lemma release_acquired m c :
  0 <= c < 2 ^ 64 ->
  release {| max_count := m; count := wrap_size (c + 1) |} = {| max_count := m; count := c |}.
Proof.
  intros Hc. unfold release; cbn [max_count count]. f_equal.
  unfold wrap_size. rewrite Zminus_mod_idemp_l.
  replace (c + 1 - 1) with c by lia. apply Z.mod_small. lia.
Qed.

Lemma sem_eta (x : RequestSemaphore) : {| max_count := max_count x; count := count x |} = x.
Proof. now destruct x. Qed.

Section Handler.

Variable config : Config.
Variable steady_clock : nat -> Z.
Variable drwav_init_memory : list Z -> option Wav.drwav.
Variable drwav_read_pcm_frames_f32 : list Z -> Z -> list f32.
Variable src_simple : list f32 -> f64 -> Z -> Z * list f32.
Variable create_stream : option Recognizer.handle_t -> option Recognizer.stream_t.
Variable decode :
  option Recognizer.handle_t -> Recognizer.stream_t -> Z -> list f32 -> option (option string).
Variable dump : string -> f32 -> option string.

Local Abbreviation recognize_handler :=
  (Http.recognize_handler config steady_clock drwav_init_memory drwav_read_pcm_frames_f32
                          src_simple create_stream decode dump).
Local Abbreviation transcribed :=
  (HttpOutcome.transcribed config drwav_init_memory drwav_read_pcm_frames_f32 src_simple
                           create_stream decode).
Local Abbreviation oversized := (HttpOutcome.oversized config).

(** The ways through the handler, one goal for each. *)
Ltac handler_cases upload :=
  unfold Http.recognize_handler, try_acquire;
  destruct (max_count _ <=? count _) eqn:Hcap; cbn [negb];
  [ | destruct upload as [[|file rest]|];
      [ | destruct (wrap_size _ <? size file) eqn:Hbig;
          [ | destruct (bool_decide (file = [])) eqn:Hempty;
              [ | unfold try_recognize; cbn [now ticks sem pool metrics responses set_sem observe];
                  destruct (Wav.decode_wav _ _ _ _ _) as [e|audio] eqn:Hwav;
                  [ apply decode_wav_raises in Hwav as Hexn; subst e
                  | destruct (Recognizer.recognize _ _ _ _ _) as [text slots|slots] eqn:Hrec;
                    [ destruct (recognize_returned _ _ _ _ _ _ _ Hrec) as [-> Htrim];
                      destruct (dump _ _) as [json|] eqn:Hdump | ] ] ] ]
        | ] ];
  cbn [answer_error make_error_and_release make_error now callback observe set_sem set_pool
       ticks sem pool metrics responses].

(** X20. A request that finds a free recognizer slot is answered:
    the handler returns, it has called [callback] exactly once, and the
    recognizer pool is as it was. *)
Theorem request_is_answered_once (upload : option (list (list Z))) (s : Server) :
  (exists slot_idx, Recognizer.first_free (pool s) = Some slot_idx) ->
  exists s' r,
    recognize_handler upload s = Some s' /\
    responses s' = responses s ++ [r] /\
    pool s' = pool s.
Proof.
  intros [i Hfree]. handler_cases upload;
    try (eexists _, _; split; [reflexivity|]; cbn [responses pool callback]; now split).
  destruct (recognize_with_free_slot create_stream decode _ (samples audio)
              (sample_rate config) _ Hfree) as [text Hret].
  congruence.
Qed.




Local Abbreviation serve :=
  (Http.serve config steady_clock drwav_init_memory drwav_read_pcm_frames_f32
              src_simple create_stream decode dump).

(** A request that finds room, a free slot and a serialiser that does
    not raise. *)
Lemma admitted_request upload s :
  well_formed (sem s) -> admitted s ->
  (exists slot_idx, Recognizer.first_free (pool s) = Some slot_idx) ->
  (forall text duration, dump text duration <> None) ->
  exists s' r,
    recognize_handler upload s = Some s' /\
    responses s' = responses s ++ [r] /\
    pool s' = pool s /\ sem s' = sem s /\
    refused r = false /\ internal_error r = false.
Proof.
  unfold admitted. intros Hwf Hroom [i Hfree] Hnever.
  handler_cases upload; try (apply Z.leb_le in Hcap; lia);
    rewrite ?(release_acquired _ _ Hwf), ?sem_eta.
  all: try (eexists _, _; split; [reflexivity|];
            cbn [responses pool sem callback refused internal_error status];
            rewrite ?sem_eta; now repeat split).
  - exfalso. now apply (Hnever text (duration_sec audio)).
  - destruct (recognize_with_free_slot create_stream decode _ (samples audio)
                (sample_rate config) _ Hfree) as [text Hret].
    congruence.
Qed.

(** A request that finds no room. *)
Lemma refused_request upload s :
  ~ admitted s ->
  exists r,
    recognize_handler upload s
    = Some (observe (ObserveRequest zero zero zero 0 0 zero zero "http" "failed")
              (callback r (observe (ObserveError "capacity_exceeded") s))) /\
    refused r = true.
Proof.
  unfold admitted. intros Hfull. unfold Http.recognize_handler, try_acquire.
  destruct (max_count _ <=? count _) eqn:Hcap; [|apply Z.leb_gt in Hcap; lia].
  cbn [negb make_error].
  exists {| status := k503ServiceUnavailable;
            body := Detail "Server at capacity, try again later" |}.
  split; [|reflexivity].
  assert (Heta : set_sem (sem s) s = s) by now destruct s.
  now rewrite Heta.
Qed.



End Handler.

Lemma request_is_answered_once_witness :
  exists s' r,
    Fixture.toy_recognize_handler Fixture.one_file Fixture.small_server = Some s' /\
    responses s' = responses Fixture.small_server ++ [r] /\
    pool s' = pool Fixture.small_server.
Proof.
  apply (request_is_answered_once Fixture.small_config Fixture.toy_clock Fixture.one_frame_wav
           Fixture.read_one_frame Fixture.toy_src_simple Fixture.no_stream_for_2
           Fixture.toy_decode Fixture.toy_dump Fixture.one_file Fixture.small_server).
  exists 0%nat. reflexivity.
Defined.






End HttpFacts.

(** ** Replies of the session (src/handler.cpp) *)

Module ReplyFacts.

Import Scalar ScalarFacts Float Conf Metrics Session SessionSpec ReplySpec.
Import SessionFacts.
Local Open Scope Z_scope.


Lemma live_followed (L : list OutMessage -> Prop) P s0 s s' :
  live L s0 s -> wrote P s s' -> live (followed L (Forall P)) s0 s'.
Proof.
  intros (He & Hc & Hf & Hp) [He' Hp'].
  assert (He2 := He'). destruct He2 as (B1 & B2 & B3 & _).
  split; [|split; [|split]].
  - eapply evolves_trans; [|exact He|exact He']. intros a b Ha Hb. now exists a, b.
  - now apply (coherent_step s).
  - congruence.
  - now rewrite Hp', B1.
Qed.

Lemma hoare_wrote {A} (L : list OutMessage -> Prop) P (m : M A) s0 :
  (forall s1, preserves (wrote P s1) m) ->
  hoare (live L s0) m (fun _ s => live (followed L (Forall P)) s0 s).
Proof.
  intros H w Hw. eapply post_mono.
  - apply (H (sess w)). apply wrote_refl. apply Hw.
  - intros a w' Hw'. cbv beta in *. eapply live_followed; [exact Hw|exact Hw'].
Qed.

Lemma view_nil_iff s : buffer_ok s -> (out_size_ s = 0 <-> view s = []).
Proof.
  unfold buffer_ok, view, size. intros Hb. split.
  - intros ->. reflexivity.
  - intros Hv. apply (f_equal length) in Hv. rewrite length_take in Hv. simpl in Hv. lia.
Qed.

Lemma live_start s :
  well_formed s -> max_duration_exceeded_ s = false ->
  live (eq []) (set_out_size_ 0 s) (set_out_size_ 0 s) /\ view (set_out_size_ 0 s) = [].
Proof.
  intros (Hc & Hb & Hp) Hf.
  assert (Hb' : buffer_ok (set_out_size_ 0 s)).
  { unfold buffer_ok in *. sess_simpl. lia. }
  split; [|reflexivity]. split; [now apply evolves_refl|]. now split.
Qed.

Lemma said_step L s0 s s' : said L s0 s -> same_buffer s s' -> said L s0 s'.
Proof.
  intros (ms & Hv & HL) [Hb1 Hb2]. exists ms. split; [|exact HL].
  unfold view in *. now rewrite Hb1, Hb2.
Qed.

Lemma preserves_said_silent L s0 f : silent f -> preserves (said L s0) (modify f).
Proof.
  intros Hs. apply preserves_modify. intros s Hc. destruct (Hs s) as (H1 & _).
  now apply (said_step L s0 s).
Qed.

Section Handler.

Variable vad_model : list f32 -> list f32 -> Z -> f32 * list f32.
Variable recognize : list f32 -> Z -> string.
Variable steady_clock : nat -> Z.
Variable fmt_fixed : nat -> f32 -> string.

Local Abbreviation on_audio := (Session.on_audio vad_model recognize steady_clock fmt_fixed).
Local Abbreviation on_recognize :=
  (Session.on_recognize vad_model recognize steady_clock fmt_fixed).

Ltac silent_tac := intros ?s; repeat split; reflexivity.
Ltac quiet_tac := split; intros ?s; repeat split; reflexivity.

Lemma reset_session_said L s0 : preserves (said L s0) (reset_session steady_clock).
Proof.
  unfold reset_session.
  repeat first
    [ apply preserves_bind; [|intros ?a]
    | apply preserves_now ].
  all: apply preserves_modify; intros s Hs; eapply said_step; [exact Hs|split; reflexivity].
Qed.

(** [finalize_session] writes done after what was written, and no more. *)
Lemma finalize_session_said L s0 :
  hoare (live L s0) (finalize_session steady_clock)
        (fun _ s => said (followed L (fun ms => exists d, ms = [d] /\ has_type Done d)) s0 s).
Proof.
  unfold finalize_session, write_done.
  eapply hoare_bind; [apply preserves_now|intros t].
  eapply hoare_bind; [apply preserves_gets|intros s].
  eapply hoare_bind; [apply preserves_observe|intros ?].
  eapply hoare_bind; [apply preserves_when, preserves_observe|intros ?].
  eapply hoare_bind.
  { apply (hoare_modify _ (said (followed L (fun ms => exists d, ms = [d] /\ has_type Done d))
                                 s0)).
    intros s1 (He & Hc & Hf & Hp).
    fold (write {| type := Done; json := "{" +:+ dq +:+ "type" +:+ dq +:+ ":" +:+ dq
                                          +:+ "done" +:+ dq +:+ "}" |} s1).
    set (d := {| type := Done; json := _ |}).
    assert (He' : evolves (followed L (fun ms => exists d, ms = [d] /\ has_type Done d))
                          s0 (write d s1)).
    { eapply evolves_write; [|exact He]. intros ms Hms. exists ms, [d].
      split; [reflexivity|]. split; [exact Hms|]. now exists d. }
    apply He'. }
  intros ?.
  eapply hoare_bind.
  { apply preserves_when. apply preserves_bind; [apply preserves_observe|intros ?].
    apply preserves_said_silent. silent_tac. }
  intros ?.
  eapply hoare_bind; [apply preserves_said_silent; silent_tac|intros ?].
  eapply hoare_bind; [apply preserves_said_silent; silent_tac|intros ?].
  apply reset_session_said.
Qed.

(** The closing sequence of [on_recognize] and of the auto-finalize,
    before what follows it. *)
Lemma close_out_said {A} L s0 (k : M A) (R : A -> ASRSession -> Prop) :
  hoare (said (followed L closing) s0) k R ->
  hoare (live L s0)
        (flush_pending vad_model;;
         process_vad_segments recognize steady_clock fmt_fixed;;
         finalize_session steady_clock;;
         k)
        R.
Proof.
  intros Hk.
  eapply hoare_bind; [apply flush_pending_live|intros ?].
  eapply hoare_bind.
  { eapply hoare_conseq;
      [apply (hoare_wrote L (has_type Final)); intros s1; apply process_vad_segments_wrote
      | |intros ? s H; exact H].
    intros s [H _]. exact H. }
  intros ?. eapply hoare_bind; [|intros ?; exact Hk].
  eapply hoare_conseq; [apply finalize_session_said|intros s H; exact H|].
  intros _ s (ms & Hv & (xy & z & -> & (x & y & -> & Hx & Hy) & (d & -> & Hd))).
  exists ((x ++ y) ++ [d]). split; [exact Hv|].
  exists x, (y ++ [d]). split; [now rewrite app_assoc|]. split; [exact Hx|].
  now exists y, d.
Qed.

Lemma live_refine (L L' : list OutMessage -> Prop) s0 s :
  live L s0 s -> (forall ms, view s = view s0 ++ ms -> L ms -> L' ms) -> live L' s0 s.
Proof.
  intros ((A1 & A2 & A3 & A4 & ms & A5 & A6) & Hr) H.
  split; [|exact Hr]. repeat split; try assumption; try apply A4.
  exists ms. split; [exact A5|]. now apply H.
Qed.

Lemma live_write (L L' : list OutMessage -> Prop) m s0 s :
  (forall ms, L ms -> L' (ms ++ [m])) -> live L s0 s -> live L' s0 (write m s).
Proof.
  intros HL (He & Hc & Hf & Hp). split; [|split; [|split]].
  - now apply (evolves_write L).
  - eapply coherent_step; [exact Hc|reflexivity..].
  - exact Hf.
  - exact Hp.
Qed.

(** X26. Every chunk of audio is answered: outside the latch,
    [on_audio] returns at least one message. The answer begins with the
    finals of the segments the chunk completed or, when there is none,
    with exactly one interim; nothing follows unless the call
    auto-finalized, and then what follows is finals and one done, the
    last message. *)
Theorem every_chunk_is_answered (samples : list f32) (w : World) :
  well_formed (sess w) -> max_duration_exceeded_ (sess w) = false ->
  post (on_audio samples) w
       (fun ms w' =>
          exists a b, ms = a ++ b /\ progress a /\
                      if max_duration_exceeded_ (sess w') then closing b else b = []).
Proof.
  intros Hwf Hf. destruct (live_start _ Hwf Hf) as [Hlive Hview].
  unfold Session.on_audio, begin_messages. mstep. mstep. mstep. mstep. sess_simpl.
  rewrite Hf. set (w1 := set_sess _ w).
  change (set_out_size_ 0 (sess w)) with (sess w1) in Hlive, Hview.
  set (Q := fun (s : ASRSession) =>
              live progress (sess w1) s \/
              (said (followed progress closing) (sess w1) s /\
               max_duration_exceeded_ s = true)).
  match goal with
  | |- post ?m _ _ =>
      assert (Hh : hoare (live (eq []) (sess w1)) m (fun ms s => Q s /\ ms = view s))
  end.
  { eapply hoare_bind; [apply preserves_now|intros ?].
    eapply hoare_bind; [apply preserves_gets|intros ?].
    eapply hoare_bind.
    { apply preserves_when. apply preserves_bind; [|intros ?; apply preserves_observe].
      apply preserves_live_quiet. quiet_tac. }
    intros ?. eapply hoare_bind; [apply preserves_live_quiet; quiet_tac|intros ?].
    eapply hoare_bind; [apply preserves_live_quiet; quiet_tac|intros ?].
    eapply hoare_bind; [apply preserves_live_quiet; quiet_tac|intros ?].
    eapply hoare_bind; [apply preserves_observe|intros ?].
    eapply hoare_bind.
    { apply feed_windows_live; [pose proof (size_nonneg samples); lia|unfold size; lia]. }
    intros ?. eapply hoare_bind; [apply preserves_now|intros ?].
    eapply hoare_bind; [apply preserves_live_quiet; quiet_tac|intros ?].
    eapply hoare_bind.
    { apply (hoare_wrote (eq []) (has_type Final)). intros s1.
      apply process_vad_segments_wrote. }
    intros ?. eapply hoare_bind; [apply hoare_gets|intros s1].
    eapply hoare_bind.
    { apply (hoare_when _ (live progress (sess w1))).
      - intros Hzero. apply Z.eqb_eq in Hzero. unfold write_interim, next_message.
        apply hoare_modify. intros s [Hl Hs1]. unfold id in Hs1. subst s1.
        match goal with |- live _ _ (set_out_size_ _ (set_out_messages_ (<[_ := ?m]> _) _)) =>
          fold (write m s); apply (live_write (eq [])) end.
        + intros ms <-. right. eexists. split; reflexivity.
        + eapply live_refine; [exact Hl|]. intros ms Hv _.
          rewrite Hview in Hv. simpl in Hv. rewrite <- Hv. symmetry.
          apply view_nil_iff; [apply Hl|exact Hzero].
      - intros Hzero s [Hl Hs1]. unfold id in Hs1. subst s1. apply Z.eqb_neq in Hzero.
        eapply live_refine; [exact Hl|]. intros ms Hv (x & y & -> & <- & Hy).
        left. split; [|exact Hy]. intros Hnil. apply Hzero.
        apply view_nil_iff; [apply Hl|]. rewrite Hv, Hview, Hnil. reflexivity. }
    intros ?. eapply hoare_bind; [apply preserves_gets|intros ?].
    eapply hoare_bind.
    { apply (hoare_when _ Q).
      - intros _. apply close_out_said.
        apply hoare_modify. intros s Hs. right. split; [|reflexivity].
        eapply said_step; [exact Hs|split; reflexivity].
      - intros _ s Hs. now left. }
    intros ?. apply hoare_gets. }
  eapply post_mono; [apply Hh; exact Hlive|].
  intros ms w' [[Hl|[Hs Hflag]] ->]; cbv beta.
  - destruct Hl as ((_ & _ & _ & _ & ms & Hv & Hms) & _ & Hflag & _).
    rewrite Hflag, Hv, Hview. exists ms, []. now rewrite app_nil_r.
  - destruct Hs as (ms & Hv & (x & y & -> & Hx & Hy)).
    rewrite Hflag, Hv, Hview. now exists x, y.
Qed.

(** X27. Outside the latch, [on_recognize] returns the finals of the
    segments still to be recognized, then done, and nothing else: no
    interim, and done is the last message. *)
Theorem recognize_closes_the_session (w : World) :
  well_formed (sess w) -> max_duration_exceeded_ (sess w) = false ->
  post on_recognize w (fun ms _ => closing ms).
Proof.
  intros Hwf Hf. destruct (live_start _ Hwf Hf) as [Hlive Hview].
  unfold Session.on_recognize, begin_messages. mstep. mstep. mstep. mstep. sess_simpl.
  rewrite Hf. set (w1 := set_sess _ w).
  change (set_out_size_ 0 (sess w)) with (sess w1) in Hlive, Hview.
  match goal with
  | |- post ?m _ _ =>
      assert (Hh : hoare (live (eq []) (sess w1)) m
                         (fun ms s => said (followed (eq []) closing) (sess w1) s /\
                                      ms = view s))
  end.
  { apply close_out_said. apply hoare_gets. }
  eapply post_mono; [apply Hh; exact Hlive|].
  intros ms w' [(ms' & Hv & (x & y & -> & <- & Hy)) ->]; cbv beta.
  now rewrite Hv, Hview.
Qed.

End Handler.

Lemma every_chunk_is_answered_witness :
  post (Session.on_audio Fixture.toy_model Fixture.toy_recognize Fixture.toy_clock
                         Fixture.toy_fmt (Fixture.speech_window 13))
       Fixture.fresh_world
       (fun ms w' =>
          exists a b, ms = a ++ b /\ progress a /\
                      if max_duration_exceeded_ (sess w') then closing b else b = []).
Proof.
  apply (every_chunk_is_answered Fixture.toy_model Fixture.toy_recognize Fixture.toy_clock
           Fixture.toy_fmt (Fixture.speech_window 13) Fixture.fresh_world).
  - unfold well_formed, coherent, buffer_ok. vm_compute. repeat split; congruence.
  - reflexivity.
Defined.

Lemma recognize_closes_the_session_witness :
  post (Session.on_recognize Fixture.toy_model Fixture.toy_recognize Fixture.toy_clock
                             Fixture.toy_fmt)
       Fixture.fresh_world
       (fun ms _ => closing ms).
Proof.
  apply (recognize_closes_the_session Fixture.toy_model Fixture.toy_recognize
           Fixture.toy_clock Fixture.toy_fmt Fixture.fresh_world).
  - unfold well_formed, coherent, buffer_ok. vm_compute. repeat split; congruence.
  - reflexivity.
Defined.

End ReplyFacts.

(** ** Audio level (src/audio.cpp) *)

Module LevelFacts.
Import Scalar Float Audio LevelSpec.
Local Open Scope Z_scope.

Lemma binary_round_aux_sign prec emax m e l :
  not_negative (binary_round_aux prec emax false m e l) = true.
Proof.
  unfold binary_round_aux.
  destruct (shr_fexp prec emax m e l) as [mrs' e'].
  destruct (shr_fexp prec emax _ e' loc_Exact) as [mrs'' e''].
  destruct (shr_m mrs''); [reflexivity| |reflexivity].
  destruct (_ <=? _); reflexivity.
Qed.

Lemma sqrt_sign x : not_negative (f64_sqrt x) = true.
Proof.
  unfold f64_sqrt, SFsqrt. destruct x as [[|]|[|]| |[|] m e]; try reflexivity.
  destruct (SFsqrt_core_binary _ _ _ _) as [[mz ez] lz].
  apply binary_round_aux_sign.
Qed.

Lemma f32_of_f64_sign x : not_negative x = true -> not_negative (f32_of_f64 x) = true.
Proof.
  destruct x as [[|]|[|]| |[|] m e]; try discriminate; try reflexivity.
  intros _. unfold f32_of_f64, binary_normalize. cbn [cond_Zopp].
  unfold binary_round.
  match goal with |- context [let '(_, _) := ?p in _] => destruct p as [mz ez] end.
  apply binary_round_aux_sign.
Qed.

Lemma not_negative_flt x : not_negative x = true -> flt x (f32_of_Z 0) = false.
Proof.
  destruct x as [[|]|[|]| |[|] m e]; try discriminate; reflexivity.
Qed.

(** X28. The level [compute_rms] reports is never below zero, whatever
    the samples: the comparison with 0 is false for every chunk (the
    level is a NaN when the mean of squares is, and 0 for no samples). *)
Theorem compute_rms_not_negative (samples : list f32) :
  flt (compute_rms samples) (f32_of_Z 0) = false.
Proof.
  apply not_negative_flt. unfold compute_rms. destruct samples as [|s samples]; [reflexivity|].
  apply f32_of_f64_sign, sqrt_sign.
Qed.
End LevelFacts.

(** ** Result statistics (src/metrics.cpp) *)

Module ResultStatsFacts.

Import Scalar ScalarFacts ResultStats ResultStatsSpec.
Local Open Scope Z_scope.

Lemma starts_bounds b text : 0 <= starts b text <= Z.of_nat (length text).
Proof.
  revert b. induction text as [|c rest IH]; intros b; cbn [starts length]; [lia|].
  destruct (is_separator c).
  - specialize (IH false). lia.
  - specialize (IH true). destruct b; lia.
Qed.

Lemma scan_starts text n b :
  - 2 ^ 31 <= n -> n + Z.of_nat (length text) < 2 ^ 31 ->
  fold_left scan text (n, b) = (n + starts b text, ends_in_word b text).
Proof.
  revert n b. induction text as [|c rest IH]; intros n b Hlo Hhi;
    cbn [fold_left starts ends_in_word length scan] in *.
  { f_equal. lia. }
  destruct (is_separator c) eqn:Hsep; cbn [negb].
  - rewrite IH by lia. reflexivity.
  - destruct b; cbn [negb].
    + rewrite IH by lia. f_equal.
    + rewrite wrap_int_small by lia. rewrite IH by lia. f_equal. lia.
Qed.

Lemma length_list_ascii text : length (list_ascii_of_string text) = String.length text.
Proof. induction text as [|c rest IH]; cbn; [reflexivity|now rewrite IH]. Qed.

Lemma word_count_starts text :
  countable text -> word_count text = starts false (list_ascii_of_string text).
Proof.
  unfold countable, word_count. intros H.
  rewrite scan_starts; [reflexivity|lia|rewrite length_list_ascii; lia].
Qed.

Lemma list_ascii_app a b :
  list_ascii_of_string (a +:+ b) = list_ascii_of_string a ++ list_ascii_of_string b.
Proof.
  induction a as [|c a IH]; [reflexivity|].
  rewrite EscapeFacts.append_cons_str. cbn. now rewrite IH.
Qed.

Lemma starts_app b x y :
  starts b (x ++ y) = starts b x + starts (ends_in_word b x) y.
Proof.
  revert b. induction x as [|c x IH]; intros b; cbn [app starts ends_in_word]; [lia|].
  destruct (is_separator c); cbn [negb]; rewrite IH; lia.
Qed.

Lemma starts_in_word x : starts false x <= starts true x + 1 /\ starts true x <= starts false x.
Proof.
  destruct x as [|c x]; cbn [starts]; [lia|]. destruct (is_separator c); lia.
Qed.

(** X29. Words are counted phrase by phrase: for two texts joined by a
    separator (a space, a tab or a newline), [record_result] counts the
    words of the one and the words of the other (for texts below 2^31
    characters, so that the [int] counter does not wrap). Without the
    separator the count is the same or, when the first text ends in a
    word and the second one starts with one, one less. *)
Theorem word_count_of_phrases (a b : string) (sep : ascii) :
  is_separator sep = true ->
  countable (a +:+ String sep b) ->
  word_count (a +:+ String sep b) = word_count a + word_count b /\
  word_count a + word_count b - 1 <= word_count (a +:+ b) <= word_count a + word_count b.
Proof.
  intros Hsep Hlen. unfold countable in Hlen.
  rewrite EscapeFacts.length_append_str in Hlen. cbn [String.length] in Hlen.
  assert (Ha : countable a) by (unfold countable; lia).
  assert (Hb : countable b) by (unfold countable; lia).
  assert (Hab : countable (a +:+ b))
    by (unfold countable; rewrite EscapeFacts.length_append_str; lia).
  rewrite !word_count_starts by (assumption || (unfold countable;
    rewrite EscapeFacts.length_append_str; cbn [String.length]; lia)).
  rewrite !list_ascii_app, !starts_app. cbn [list_ascii_of_string starts]. rewrite Hsep.
  split; [lia|].
  pose proof (starts_in_word (list_ascii_of_string b)).
  destruct (ends_in_word false (list_ascii_of_string a)); lia.
Qed.

Lemma starts_zero text :
  starts false text = 0 <-> Forall (fun c => is_separator c = true) text.
Proof.
  induction text as [|c rest IH]; cbn [starts]; [split; [constructor|reflexivity]|].
  destruct (is_separator c) eqn:Hsep.
  - rewrite IH. split; [now constructor|now inversion 1].
  - pose proof (starts_bounds true rest). split; [lia|].
    inversion 1; congruence.
Qed.

Lemma separator_is_space c : is_separator c = true -> Recognizer.is_space c = true.
Proof.
  unfold is_separator, Recognizer.is_space.
  destruct (_ =? 32)%nat, (_ =? 9)%nat, (_ =? 10)%nat; (discriminate || reflexivity).
Qed.

(** X30. The word count of a text below 2^31 characters is between 0
    and the number of characters, and it is 0 exactly when the text
    holds separators only. A text that is not empty and is trimmed, as
    every text the recognizer returns is, counts at least one word, so
    [record_result] adds at least one word for it. *)
Theorem word_count_bounds (text : string) :
  countable text ->
  0 <= word_count text <= Z.of_nat (String.length text) /\
  (word_count text = 0 <->
   Forall (fun c => is_separator c = true) (list_ascii_of_string text)) /\
  (text <> EmptyString -> RecognizerSpec.trimmed text ->
   1 <= word_count text /\
   record_result true text = Words (word_count text) (Z.of_nat (String.length text))).
Proof.
  intros Hlen. rewrite word_count_starts by exact Hlen.
  split; [|split].
  - rewrite <- length_list_ascii. apply starts_bounds.
  - apply starts_zero.
  - intros Hne [Hfirst _]. destruct text as [|c rest]; [congruence|].
    split; [|unfold record_result; cbn [negb]; now rewrite word_count_starts by exact Hlen].
    specialize (Hfirst c eq_refl). cbn [list_ascii_of_string starts].
    destruct (is_separator c) eqn:Hsep.
    + apply separator_is_space in Hsep. congruence.
    + pose proof (starts_bounds true (list_ascii_of_string rest)). lia.
Qed.

Lemma word_count_of_phrases_witness :
  word_count ("da" +:+ String " " "net") = word_count "da" + word_count "net" /\
  word_count "da" + word_count "net" - 1 <= word_count ("da" +:+ "net")
    <= word_count "da" + word_count "net".
Proof.
  apply (word_count_of_phrases "da" "net" " ").
  - reflexivity.
  - unfold countable. vm_compute. reflexivity.
Defined.

Lemma word_count_bounds_witness :
  0 <= word_count "da net" <= Z.of_nat (String.length "da net") /\
  (word_count "da net" = 0 <->
   Forall (fun c => is_separator c = true) (list_ascii_of_string "da net")) /\
  ("da net" <> EmptyString -> RecognizerSpec.trimmed "da net" ->
   1 <= word_count "da net" /\
   record_result true "da net"
   = Words (word_count "da net") (Z.of_nat (String.length "da net"))).
Proof.
  apply (word_count_bounds "da net"). unfold countable. vm_compute. reflexivity.
Defined.

End ResultStatsFacts.
